(** * spacectl: cache mode providers and the mount orchestrator

    A shallow embedding of [internal/cache/mode] (the provider registry and
    the per-ecosystem providers) and of [internal/cache] (the [Mounter]),
    followed by the properties of the specification that concern them.

    Conventions.
    - A Go [string] and a Go [[]byte] are Rocq [string]s, that is byte
      sequences; multi-byte runes appear as their UTF-8 bytes.
    - A Go function returning [(T, error)] returns a pair [T * option error];
      on an error the first component is the zero value the source returns.
    - The executors are interfaces whose calls may read and change the
      world; they are records of state-passing functions over a state type
      chosen by the implementation (unit for a stateless double).
    - Library functions whose results the code only passes along (path
      joining, JSON encoding, the clock, semantic-version comparison, case
      folding) and the choices left to the Go runtime (goroutine completion
      order, map iteration order) are fields of environment classes. *)

From Stdlib Require Import String Ascii ZArith List Lia Permutation Sorted.
From stdpp Require Import base option list strings gmap fin_maps.

Import ListNotations.
Local Open Scope string_scope.
Local Open Scope list_scope.

Set Default Proof Using "Type".

(** ** Errors *)

(** Go [error] values. The sentinels are the ones the code tests with
    [errors.Is]; [Wrapped] is any error with a message and an [Unwrap]
    result ([fmt.Errorf] with [%w], [*fs.PathError], [*exec.Error]). *)
Inductive error : Type :=
| exec_ErrNotFound
| os_ErrNotExist
| bufio_ErrTooLong
| errors_New (msg : string)
| Wrapped (msg : string) (inner : error).

Fixpoint error_eqb (a b : error) : bool :=
  match a, b with
  | exec_ErrNotFound, exec_ErrNotFound => true
  | os_ErrNotExist, os_ErrNotExist => true
  | bufio_ErrTooLong, bufio_ErrTooLong => true
  | errors_New m, errors_New m' => String.eqb m m'
  | Wrapped m i, Wrapped m' i' => String.eqb m m' && error_eqb i i'
  | _, _ => false
  end.

(** [err.Error()]. *)
Definition Error (e : error) : string :=
  match e with
  | exec_ErrNotFound => "executable file not found in $PATH"
  | os_ErrNotExist => "file does not exist"
  | bufio_ErrTooLong => "bufio.Scanner: token too long"
  | errors_New m => m
  | Wrapped m _ => m
  end.

(** [errors.Unwrap]. *)
Definition Unwrap (e : error) : option error :=
  match e with
  | Wrapped _ i => Some i
  | _ => None
  end.

(** [errors.Is(err, target)]: [target] is found along the [Unwrap] chain.
    The code only passes the sentinels as [target]. *)
Fixpoint errors_Is (err target : error) : bool :=
  error_eqb err target ||
  match err with
  | Wrapped _ i => errors_Is i target
  | _ => false
  end.

(** [fmt.Errorf(prefix + ": %w", err)]. *)
Definition fmt_Errorf (prefix : string) (err : error) : error :=
  Wrapped (prefix ++ ": " ++ Error err) err.

(** ** Strings *)

Definition byte_of (n : N) : ascii := ascii_of_N n.

Definition LF : ascii := byte_of 10.
Definition CR : ascii := byte_of 13.

(** [strings.HasPrefix(s, prefix)]. *)
Definition strings_HasPrefix (s prefix : string) : bool := String.prefix prefix s.

(** [s[n:]]. *)
Fixpoint string_drop (n : nat) (s : string) : string :=
  match n, s with
  | O, _ => s
  | S _, EmptyString => EmptyString
  | S k, String _ s' => string_drop k s'
  end.

Fixpoint string_rev_app (s acc : string) : string :=
  match s with
  | EmptyString => acc
  | String c s' => string_rev_app s' (String c acc)
  end.

Definition string_rev (s : string) : string := string_rev_app s EmptyString.

(** [strings.HasSuffix(s, suffix)]. *)
Definition strings_HasSuffix (s suffix : string) : bool :=
  String.prefix (string_rev suffix) (string_rev s).

(** The UTF-8 encodings of the runes for which [unicode.IsSpace] holds:
    the ASCII ones, U+0085, U+00A0, U+1680, U+2000 to U+200A, U+2028,
    U+2029, U+202F, U+205F and U+3000. *)
Definition bytes (l : list N) : string := string_of_list_ascii (List.map byte_of l).

Definition space_encodings : list string :=
  List.map bytes
    [ [9]; [10]; [11]; [12]; [13]; [32];
      [194; 133]; [194; 160];
      [225; 154; 128];
      [226; 128; 128]; [226; 128; 129]; [226; 128; 130]; [226; 128; 131];
      [226; 128; 132]; [226; 128; 133]; [226; 128; 134]; [226; 128; 135];
      [226; 128; 136]; [226; 128; 137]; [226; 128; 138];
      [226; 128; 168]; [226; 128; 169]; [226; 128; 175];
      [226; 129; 159];
      [227; 128; 128] ]%N.

(** The number of bytes of the white-space rune [s] starts with, if any. *)
Definition leading_space (s : string) : option nat :=
  match List.find (fun w => String.prefix w s) space_encodings with
  | Some w => Some (String.length w)
  | None => None
  end.

(** [strings.TrimLeftFunc(s, unicode.IsSpace)]: [skip] counts the bytes of
    the current white-space rune still to drop. *)
Fixpoint trim_left (skip : nat) (s : string) : string :=
  match s with
  | EmptyString => EmptyString
  | String _ s' =>
      match skip with
      | S k => trim_left k s'
      | O =>
          match leading_space s with
          | Some (S k) => trim_left k s'
          | _ => s
          end
      end
  end.

Definition strings_TrimLeft (s : string) : string := trim_left 0 s.

(** The reversed encodings, for scanning from the end: a string ends with
    the encoding of a white-space rune exactly when [utf8.DecodeLastRune]
    returns that rune. *)
Definition trailing_space (r : string) : option nat :=
  match List.find (fun w => String.prefix (string_rev w) r) space_encodings with
  | Some w => Some (String.length w)
  | None => None
  end.

Fixpoint trim_right_rev (skip : nat) (r : string) : string :=
  match r with
  | EmptyString => EmptyString
  | String _ r' =>
      match skip with
      | S k => trim_right_rev k r'
      | O =>
          match trailing_space r with
          | Some (S k) => trim_right_rev k r'
          | _ => r
          end
      end
  end.

(** [strings.TrimRightFunc(s, unicode.IsSpace)]. *)
Definition strings_TrimRight (s : string) : string :=
  string_rev (trim_right_rev 0 (string_rev s)).

(** [strings.TrimSpace(s)]. *)
Definition strings_TrimSpace (s : string) : string :=
  strings_TrimRight (strings_TrimLeft s).

(** [strings.Split(s, "\n")]. *)
Fixpoint strings_Split_LF (s : string) : list string :=
  match s with
  | EmptyString => [EmptyString]
  | String c s' =>
      if Ascii.eqb c LF then EmptyString :: strings_Split_LF s'
      else
        match strings_Split_LF s' with
        | l :: ls => String c l :: ls
        | [] => [String c EmptyString]
        end
  end.

(** [strings.Join(elems, "\n")]. *)
Fixpoint strings_Join_LF (elems : list string) : string :=
  match elems with
  | [] => EmptyString
  | [e] => e
  | e :: rest => e ++ String LF (strings_Join_LF rest)
  end.

(** [slices.Sort] on strings (byte-wise lexicographic order). *)
Fixpoint sort_insert (x : string) (l : list string) : list string :=
  match l with
  | [] => [x]
  | y :: l' => if String.leb x y then x :: l else y :: sort_insert x l'
  end.

Definition slices_Sort (l : list string) : list string :=
  List.fold_right sort_insert [] l.

(** [slices.Contains(s, v)] on strings. *)
Definition slices_Contains (s : list string) (v : string) : bool :=
  existsb (String.eqb v) s.

(** [strings.Fields(s)]: the maximal runs of bytes between white-space
    runes. [cur] holds the bytes of the field being read, in reverse, and
    [skip] counts the bytes of the current white-space rune still to
    drop. *)
Definition close_field (cur : string) : list string :=
  match cur with
  | EmptyString => []
  | _ => [string_rev cur]
  end.

Fixpoint fields (skip : nat) (s cur : string) : list string :=
  match s with
  | EmptyString => close_field cur
  | String c s' =>
      match skip with
      | S k => fields k s' cur
      | O =>
          match leading_space s with
          | Some (S k) => close_field cur ++ fields k s' EmptyString
          | _ => fields 0 s' (String c cur)
          end
      end
  end.

Definition strings_Fields (s : string) : list string := fields 0 s EmptyString.

(** ** bufio.Scanner with the default split function and buffer *)

(** [bufio.MaxScanTokenSize]. *)
Definition MaxScanTokenSize : N := 65536.

(** [dropCR]: a token loses one trailing carriage return. *)
Definition dropCR_rev (r : string) : string :=
  match r with
  | String c r' => if Ascii.eqb c CR then r' else r
  | EmptyString => r
  end.

(** The tokens [Scan] delivers before it stops and the value of [Err()]
    then: a line is delivered whole; a line that does not fit the buffer
    stops the scan with [ErrTooLong]. [cur] holds the bytes of the current
    line in reverse and [n] counts them. *)
Fixpoint scan_lines (s cur : string) (n : N) : list string * option error :=
  match s with
  | EmptyString =>
      if N.eqb n 0 then ([], None) else ([string_rev (dropCR_rev cur)], None)
  | String c s' =>
      if Ascii.eqb c LF then
        let (ls, e) := scan_lines s' EmptyString 0 in
        (string_rev (dropCR_rev cur) :: ls, e)
      else if N.leb MaxScanTokenSize (N.succ n) then ([], Some bufio_ErrTooLong)
      else scan_lines s' (String c cur) (N.succ n)
  end.

Definition bufio_Scan (output : string) : list string * option error :=
  scan_lines output EmptyString 0.

(** ** State-passing computations *)

Definition M (S A : Type) : Type := S -> A * S.

Definition ret {S A : Type} (a : A) : M S A := fun s => (a, s).

Definition bind {S A B : Type} (c : M S A) (k : A -> M S B) : M S B :=
  fun s => let (a, s') := c s in k a s'.

Notation "'let*' p ':=' c1 'in' c2" := (bind c1 (fun p => c2))
  (at level 10, p pattern, c1 at level 100, c2 at level 200).

(** Library functions of which the code uses the result as it comes. *)
Class Libs : Type := {
  (** [strings.ToLower] *)
  strings_ToLower : string -> string;
  (** [semver.Compare] of golang.org/x/mod: negative, zero or positive *)
  semver_Compare : string -> string -> Z;
  (** [strconv.Quote], what the verb [%q] prints *)
  strconv_Quote : string -> string;
  (** [filepath.Join] *)
  filepath_Join : list string -> string;
  (** [filepath.Dir] *)
  filepath_Dir : string -> string;
  (** [os.UserHomeDir()] *)
  os_UserHomeDir : string * option error;
  (** [time.Now().UTC().Format(time.RFC3339Nano)] *)
  time_Now : string
}.

(** What the process reads from its environment. *)
Class Env : Type := {
  (** [os.Getenv] *)
  os_Getenv : string -> string;
  (** [runtime.GOOS] *)
  runtime_GOOS : string
}.

(** A decoded JSON value as far as the code looks at it: a string or
    something else. *)
Inductive json_any : Type :=
| json_string (s : string)
| json_other.

(** [json.Unmarshal] into a [map[string]string] and into a
    [map[string]any], and the compiled pattern of the apt provider. *)
Class Decoders : Type := {
  json_Unmarshal_strings : string -> gmap string string * option error;
  json_Unmarshal_any : string -> gmap string json_any * option error;
  (** [aptConfigRegex.FindStringSubmatch] *)
  aptConfigRegex_FindStringSubmatch : string -> list string
}.

(** * Package mode *)

Module mode.

(** [*exec.Cmd] as built by [exec.CommandContext]: the program and its
    arguments. *)
Definition Cmd : Type := list string.

(** [type Executor interface]. [Stat] drops the [os.FileInfo], which no
    caller reads. [ReadDir] is the method [XcodeProvider.Detect] calls, the
    read-directory capability of the executor boundary; it yields the names
    of the entries. *)
Record Executor (S : Type) : Type := {
  LookPath : string -> M S (string * option error);
  Output : Cmd -> M S (string * option error);
  Stat : string -> M S (option error);
  ReadDir : string -> M S (list string * option error)
}.
Arguments LookPath {S} _ _ _.
Arguments Output {S} _ _ _.
Arguments Stat {S} _ _ _.
Arguments ReadDir {S} _ _ _.

(** An interface value of type [Executor]: the methods with the state they
    act on. *)
Record ExecutorValue : Type := {
  ev_state : Type;
  ev_methods : Executor ev_state;
  ev_init : ev_state
}.

Record DetectRequest : Type := { DetectRequest_Exec : option ExecutorValue }.

Record PlanRequest : Type := {
  PlanRequest_Exec : option ExecutorValue;
  enabledModes : list string
}.

Record PlanResult : Type := {
  AddEnvs : gmap string string;
  MountPaths : list string;
  RemovePaths : list string
}.

(** [PlanResult{}] *)
Definition PlanResult_zero : PlanResult :=
  {| AddEnvs := ∅; MountPaths := []; RemovePaths := [] |}.

(** [type ModeProvider interface]. Providers hold no state of their own:
    what they return is a function of the request. *)
Record ModeProvider : Type := {
  Name : string;
  Detect : DetectRequest -> bool * option error;
  Plan : PlanRequest -> PlanResult * option error
}.

Definition Modes : Type := list ModeProvider.

(** What the Go runtime decides: the executor behind [DefaultExecutor{}],
    the order in which the goroutines of a batch finish and the order in
    which [range] visits the plans. Each order is a permutation. *)
Class Runtime : Type := {
  DefaultExecutor : ExecutorValue;
  detect_completion : Modes -> Modes;
  detect_completion_perm : forall modes, Permutation (detect_completion modes) modes;
  plan_completion : Modes -> Modes;
  plan_completion_perm : forall modes, Permutation (plan_completion modes) modes;
  range_plans : gmap string PlanResult -> list (string * PlanResult);
  range_plans_perm : forall plans, Permutation (range_plans plans) (map_to_list plans)
}.

(** [Modes.Names] *)
Definition Modes_Names (modes : Modes) : list string :=
  slices_Sort (List.map Name modes).

(** The loop of [Modes.Filter] over [include]. *)
Fixpoint Filter_loop (available : gmap string ModeProvider)
    (include : list string) (filtered : Modes) : Modes * option error :=
  match include with
  | [] => (filtered, None)
  | inc :: rest =>
      match available !! inc with
      | None => ([], Some (errors_New ("unknown mode: " ++ inc)))
      | Some mode => Filter_loop available rest (filtered ++ [mode])
      end
  end.

(** [Modes.Filter] *)
Definition Modes_Filter (modes : Modes) (include : list string) : Modes * option error :=
  if Nat.eqb (List.length modes) 0 then ([], None)
  else
    let available :=
      List.fold_left (fun avail mode => <[Name mode := mode]> avail) modes ∅ in
    Filter_loop available include [].

(** [errgroup.Group.Wait]: the first non-nil error returned, the goroutines
    being listed in the order they finish. *)
Fixpoint errgroup_Wait (errs : list (option error)) : option error :=
  match errs with
  | [] => None
  | Some err :: _ => Some err
  | None :: rest => errgroup_Wait rest
  end.

Section Registry.
Context {rt : Runtime}.

(** The function [Modes.Detect] hands to [eg.Go] for one mode: the error it
    returns and whether it appends the mode to [filtered]. *)
Definition Detect_task (req : DetectRequest) (mode : ModeProvider) : option error * bool :=
  let (detected, err) := Detect mode req in
  match err with
  | Some err => (Some (fmt_Errorf ("detecting " ++ Name mode) err), false)
  | None => (None, detected)
  end.

(** [if req.Exec == nil { req.Exec = DefaultExecutor{} }] *)
Definition DetectRequest_default (req : DetectRequest) : DetectRequest :=
  match DetectRequest_Exec req with
  | None => {| DetectRequest_Exec := Some DefaultExecutor |}
  | Some _ => req
  end.

(** [Modes.Detect]. Once a goroutine has returned an error the shared
    context is cancelled and what the others return is dropped: [Wait]
    keeps the first error and the caller gets no providers. *)
Definition Modes_Detect (modes : Modes) (req : DetectRequest) : Modes * option error :=
  let req := DetectRequest_default req in
  let finished := detect_completion modes in
  let filtered := List.filter (fun mode => snd (Detect_task req mode)) finished in
  match errgroup_Wait (List.map (fun mode => fst (Detect_task req mode)) finished) with
  | Some err => ([], Some err)
  | None => (filtered, None)
  end.

(** The function [Modes.Plan] hands to [eg.Go] for one mode: the error it
    returns and the plan it stores. *)
Definition Plan_task (req : PlanRequest) (mode : ModeProvider) : option error * option PlanResult :=
  let (result, err) := Plan mode req in
  match err with
  | Some err => (Some (fmt_Errorf ("planning " ++ Name mode) err), None)
  | None => (None, Some result)
  end.

(** The request as [Modes.Plan] passes it on: the enabled modes filled in
    and a nil executor replaced by [DefaultExecutor{}]. *)
Definition PlanRequest_prepare (modes : Modes) (req : PlanRequest) : PlanRequest :=
  {| PlanRequest_Exec :=
       match PlanRequest_Exec req with
       | None => Some DefaultExecutor
       | Some e => Some e
       end;
     enabledModes := Modes_Names modes |}.

(** [Modes.Plan] *)
Definition Modes_Plan (modes : Modes) (req : PlanRequest) : gmap string PlanResult * option error :=
  let req := PlanRequest_prepare modes req in
  let finished := plan_completion modes in
  let plans :=
    List.fold_left
      (fun plans mode =>
         match snd (Plan_task req mode) with
         | Some result => <[Name mode := result]> plans
         | None => plans
         end)
      finished ∅ in
  match errgroup_Wait (List.map (fun mode => fst (Plan_task req mode)) finished) with
  | Some err => (∅, Some err)
  | None => (plans, None)
  end.

End Registry.

(** ** The providers *)

Definition thin_space : string := bytes [226; 128; 137]%N.

Definition brewfile : string := "Brewfile".
Definition bunLockFile : string := "bun.lock".
Definition cocoapodsPodfile : string := "Podfile".
Definition composerJsonFile : string := "composer.json".
Definition denoLockFile : string := "deno.lock".
Definition goModFile : string := "go.mod".
Definition goWorkFile : string := "go.work".
Definition golangCILintCacheDirPrefix : string := "dir:".
Definition golangCILintDefaultCacheDir : string := "~/.cache/golangci-lint".
Definition golangCILintConfigYml : string := ".golangci.yml".
Definition golangCILintConfigYaml : string := ".golangci.yaml".
Definition gradlewFile : string := "gradlew".
Definition buildGradleFile : string := "build.gradle".
Definition mavenPomFile : string := "pom.xml".
Definition miseConfigFiles : list string :=
  [ "mise.toml"; ".mise.toml"; ".tool-versions"; "mise/config.toml";
    ".mise/config.toml"; ".config/mise.toml"; ".config/mise/config.toml" ].
Definition nixProjectFiles : list string := [ "flake.nix"; "shell.nix"; "default.nix" ].
Definition pnpmPackageImportMethodKey : string := "npm_config_package_import_method".
Definition pnpmPackageImportMethodValue : string := "copy".
Definition pnpmWarningFixVersion : string := "v9.7.0".
Definition pnpmWarningPrefix : string := thin_space ++ "WARN" ++ thin_space.
Definition pnpmLockFile : string := "pnpm-lock.yaml".
Definition poetryLockFile : string := "poetry.lock".
Definition pythonRequirementsFile : string := "requirements.txt".
Definition rubyGemfile : string := "Gemfile".
Definition rustCargoToml : string := "Cargo.toml".
Definition swiftPackageFile : string := "Package.swift".
Definition uvLockFile : string := "uv.lock".
Definition xcodeProjSuffix : string := ".xcodeproj".
Definition yarnV1Prefix : string := "1.".
Definition yarnLockFile : string := "yarn.lock".

Definition aptDirCacheKey : string := "Dir::Cache".
Definition aptDirCacheArchivesKey : string := "Dir::Cache::archives".
Definition aptDirEtcKey : string := "Dir::Etc".
Definition aptDirEtcPartsKey : string := "Dir::Etc::parts".
Definition cocoapodsCachePath : string := "~/Library/Caches/CocoaPods".
Definition denoDirKey : string := "denoDir".
Definition goCacheKey : string := "GOCACHE".
Definition goModeCacheKey : string := "GOMODCACHE".
Definition gradleCachesPath : string := "~/.gradle/caches".
Definition gradleWrapperPath : string := "~/.gradle/wrapper".
Definition mavenRepositoryPath : string := "~/.m2/repository".
Definition miseDataDirKey : string := "MISE_DATA_DIR".
Definition miseXdgDataHomeKey : string := "XDG_DATA_HOME".
Definition miseLocalAppDataKey : string := "LOCALAPPDATA".
Definition miseDefaultPath : string := "mise".
Definition nixCachePath : string := "~/.cache/nix".
Definition playwrightBrowsersPathKey : string := "PLAYWRIGHT_BROWSERS_PATH".
Definition playwrightDefaultCachePath : string := "~/.cache/ms-playwright".
Definition playwrightDarwinCachePath : string := "~/Library/Caches/ms-playwright".
Definition playwrightWindowsCachePath : string := "%USERPROFILE%\AppData\Local\ms-playwright".
Definition uvLinkModeKey : string := "UV_LINK_MODE".
Definition uvLinkModeValue : string := "symlink".
Definition xcodeCompilationCacheKey : string := "COMPILATION_CACHE_ENABLE_CACHING_DEFAULT".
Definition xcodeCompilationCacheValue : string := "YES".
Definition xcodeCachePath : string :=
  "~/Library/Developer/Xcode/DerivedData/CompilationCache.noindex".

Section Providers.
Context {libs : Libs} {S : Type} (Exec : Executor S).

(** The loop over marker files of [MiseProvider.Detect] and
    [NixProvider.Detect]. *)
Fixpoint Detect_files (files : list string) : M S (bool * option error) :=
  match files with
  | [] => ret (false, None)
  | file :: rest =>
      let* err := Stat Exec file in
      match err with
      | None => ret (true, None)
      | Some err =>
          if negb (errors_Is err os_ErrNotExist)
          then ret (false, Some (fmt_Errorf ("stat " ++ file) err))
          else Detect_files rest
      end
  end.

(** The loop over directory entries of [XcodeProvider.Detect]. *)
Fixpoint Detect_entries (entries : list string) : bool * option error :=
  match entries with
  | [] => (false, None)
  | entry :: rest =>
      if strings_HasSuffix entry xcodeProjSuffix then (true, None)
      else Detect_entries rest
  end.

Definition AptProvider_Detect : M S (bool * option error) :=
  let* (_, err) := LookPath Exec "apt-config" in
  match err with
  | Some err =>
      if errors_Is err exec_ErrNotFound then ret (false, None)
      else ret (false, Some (fmt_Errorf "lookpath apt-config" err))
  | None => ret (true, None)
  end.

Definition BrewProvider_Detect : M S (bool * option error) :=
  let* (_, err) := LookPath Exec "brew" in
  match err with
  | Some err =>
      if errors_Is err exec_ErrNotFound then ret (false, None)
      else ret (false, Some (fmt_Errorf "lookpath brew" err))
  | None =>
      let* err := Stat Exec brewfile in
      match err with
      | Some err =>
          if errors_Is err os_ErrNotExist then ret (false, None)
          else ret (false, Some (fmt_Errorf ("stat " ++ brewfile) err))
      | None => ret (true, None)
      end
  end.

Definition BunProvider_Detect : M S (bool * option error) :=
  let* (_, err) := LookPath Exec "bun" in
  match err with
  | Some err =>
      if errors_Is err exec_ErrNotFound then ret (false, None)
      else ret (false, Some (fmt_Errorf "lookpath bun" err))
  | None =>
      let* err := Stat Exec bunLockFile in
      match err with
      | Some err =>
          if errors_Is err os_ErrNotExist then ret (false, None)
          else ret (false, Some (fmt_Errorf ("stat " ++ bunLockFile) err))
      | None => ret (true, None)
      end
  end.

Definition CocoapodsProvider_Detect : M S (bool * option error) :=
  let* (_, err) := LookPath Exec "pod" in
  match err with
  | Some err =>
      if errors_Is err exec_ErrNotFound then ret (false, None)
      else ret (false, Some (fmt_Errorf "lookpath pod" err))
  | None =>
      let* err := Stat Exec cocoapodsPodfile in
      match err with
      | Some err =>
          if errors_Is err os_ErrNotExist then ret (false, None)
          else ret (false, Some (fmt_Errorf ("stat " ++ cocoapodsPodfile) err))
      | None => ret (true, None)
      end
  end.

Definition ComposerProvider_Detect : M S (bool * option error) :=
  let* (_, err) := LookPath Exec "composer" in
  match err with
  | Some err =>
      if errors_Is err exec_ErrNotFound then ret (false, None)
      else ret (false, Some (fmt_Errorf "lookpath composer" err))
  | None =>
      let* err := Stat Exec composerJsonFile in
      match err with
      | Some err =>
          if errors_Is err os_ErrNotExist then ret (false, None)
          else ret (false, Some (fmt_Errorf ("stat " ++ composerJsonFile) err))
      | None => ret (true, None)
      end
  end.

Definition DenoProvider_Detect : M S (bool * option error) :=
  let* (_, err) := LookPath Exec "deno" in
  match err with
  | Some err =>
      if errors_Is err exec_ErrNotFound then ret (false, None)
      else ret (false, Some (fmt_Errorf "lookpath deno" err))
  | None =>
      let* err := Stat Exec denoLockFile in
      match err with
      | Some err =>
          if errors_Is err os_ErrNotExist then ret (false, None)
          else ret (false, Some (fmt_Errorf ("stat " ++ denoLockFile) err))
      | None => ret (true, None)
      end
  end.

Definition GoProvider_Detect : M S (bool * option error) :=
  let* (_, err) := LookPath Exec "go" in
  match err with
  | Some err =>
      if errors_Is err exec_ErrNotFound then ret (false, None)
      else ret (false, Some (fmt_Errorf "lookpath go" err))
  | None =>
      let* err := Stat Exec goModFile in
      match err with
      | None => ret (true, None)
      | Some err =>
          if negb (errors_Is err os_ErrNotExist)
          then ret (false, Some (fmt_Errorf ("stat " ++ goModFile) err))
          else
            let* err := Stat Exec goWorkFile in
            match err with
            | None => ret (true, None)
            | Some err =>
                if negb (errors_Is err os_ErrNotExist)
                then ret (false, Some (fmt_Errorf ("stat " ++ goWorkFile) err))
                else ret (false, None)
            end
      end
  end.

Definition GolangCILintProvider_Detect : M S (bool * option error) :=
  let* (_, err) := LookPath Exec "golangci-lint" in
  match err with
  | Some err =>
      if errors_Is err exec_ErrNotFound then ret (false, None)
      else ret (false, Some (fmt_Errorf "lookpath golangci-lint" err))
  | None =>
      let* err := Stat Exec golangCILintConfigYml in
      match err with
      | None => ret (true, None)
      | Some err =>
          if negb (errors_Is err os_ErrNotExist)
          then ret (false, Some (fmt_Errorf ("stat " ++ golangCILintConfigYml) err))
          else
            let* err := Stat Exec golangCILintConfigYaml in
            match err with
            | None => ret (true, None)
            | Some err =>
                if negb (errors_Is err os_ErrNotExist)
                then ret (false, Some (fmt_Errorf ("stat " ++ golangCILintConfigYaml) err))
                else ret (false, None)
            end
      end
  end.

Definition GradleProvider_Detect : M S (bool * option error) :=
  let* (_, err) := LookPath Exec "gradle" in
  match err with
  | Some err =>
      if errors_Is err exec_ErrNotFound then ret (false, None)
      else ret (false, Some (fmt_Errorf "lookpath gradle" err))
  | None =>
      let* err := Stat Exec gradlewFile in
      match err with
      | None => ret (true, None)
      | Some err =>
          if negb (errors_Is err os_ErrNotExist)
          then ret (false, Some (fmt_Errorf ("stat " ++ gradlewFile) err))
          else
            let* err := Stat Exec buildGradleFile in
            match err with
            | None => ret (true, None)
            | Some err =>
                if negb (errors_Is err os_ErrNotExist)
                then ret (false, Some (fmt_Errorf ("stat " ++ buildGradleFile) err))
                else ret (false, None)
            end
      end
  end.

Definition MavenProvider_Detect : M S (bool * option error) :=
  let* (_, err) := LookPath Exec "mvn" in
  match err with
  | Some err =>
      if errors_Is err exec_ErrNotFound then ret (false, None)
      else ret (false, Some (fmt_Errorf "lookpath mvn" err))
  | None =>
      let* err := Stat Exec mavenPomFile in
      match err with
      | Some err =>
          if errors_Is err os_ErrNotExist then ret (false, None)
          else ret (false, Some (fmt_Errorf ("stat " ++ mavenPomFile) err))
      | None => ret (true, None)
      end
  end.

Definition MiseProvider_Detect : M S (bool * option error) :=
  let* (_, err) := LookPath Exec "mise" in
  match err with
  | Some err =>
      if errors_Is err exec_ErrNotFound then ret (false, None)
      else ret (false, Some (fmt_Errorf "lookpath mise" err))
  | None => Detect_files miseConfigFiles
  end.

Definition NixProvider_Detect : M S (bool * option error) :=
  let* (_, err) := LookPath Exec "nix" in
  match err with
  | Some err =>
      if errors_Is err exec_ErrNotFound then ret (false, None)
      else ret (false, Some (fmt_Errorf "lookpath nix" err))
  | None => Detect_files nixProjectFiles
  end.

Definition PlaywrightProvider_Detect : M S (bool * option error) :=
  let* (_, err) := LookPath Exec "playwright" in
  match err with
  | Some err =>
      if errors_Is err exec_ErrNotFound then ret (false, None)
      else ret (false, Some (fmt_Errorf "lookpath playwright" err))
  | None => ret (true, None)
  end.

Definition PnpmProvider_Detect : M S (bool * option error) :=
  let* (_, err) := LookPath Exec "pnpm" in
  match err with
  | Some err =>
      if errors_Is err exec_ErrNotFound then ret (false, None)
      else ret (false, Some (fmt_Errorf "lookpath pnpm" err))
  | None =>
      let* err := Stat Exec pnpmLockFile in
      match err with
      | Some err =>
          if errors_Is err os_ErrNotExist then ret (false, None)
          else ret (false, Some (fmt_Errorf ("stat " ++ pnpmLockFile) err))
      | None => ret (true, None)
      end
  end.

Definition PoetryProvider_Detect : M S (bool * option error) :=
  let* (_, err) := LookPath Exec "poetry" in
  match err with
  | Some err =>
      if errors_Is err exec_ErrNotFound then ret (false, None)
      else ret (false, Some (fmt_Errorf "lookpath poetry" err))
  | None =>
      let* err := Stat Exec poetryLockFile in
      match err with
      | Some err =>
          if errors_Is err os_ErrNotExist then ret (false, None)
          else ret (false, Some (fmt_Errorf ("stat " ++ poetryLockFile) err))
      | None => ret (true, None)
      end
  end.

Definition PythonProvider_Detect : M S (bool * option error) :=
  let* (_, err) := LookPath Exec "pip" in
  match err with
  | Some err =>
      if errors_Is err exec_ErrNotFound then ret (false, None)
      else ret (false, Some (fmt_Errorf "lookpath pip" err))
  | None =>
      let* err := Stat Exec pythonRequirementsFile in
      match err with
      | Some err =>
          if errors_Is err os_ErrNotExist then ret (false, None)
          else ret (false, Some (fmt_Errorf ("stat " ++ pythonRequirementsFile) err))
      | None => ret (true, None)
      end
  end.

Definition RubyProvider_Detect : M S (bool * option error) :=
  let* (_, err) := LookPath Exec "bundle" in
  match err with
  | Some err =>
      if errors_Is err exec_ErrNotFound then ret (false, None)
      else ret (false, Some (fmt_Errorf "lookpath bundle" err))
  | None =>
      let* err := Stat Exec rubyGemfile in
      match err with
      | Some err =>
          if errors_Is err os_ErrNotExist then ret (false, None)
          else ret (false, Some (fmt_Errorf ("stat " ++ rubyGemfile) err))
      | None => ret (true, None)
      end
  end.

Definition RustProvider_Detect : M S (bool * option error) :=
  let* (_, err) := LookPath Exec "cargo" in
  match err with
  | Some err =>
      if errors_Is err exec_ErrNotFound then ret (false, None)
      else ret (false, Some (fmt_Errorf "lookpath cargo" err))
  | None =>
      let* err := Stat Exec rustCargoToml in
      match err with
      | Some err =>
          if errors_Is err os_ErrNotExist then ret (false, None)
          else ret (false, Some (fmt_Errorf ("stat " ++ rustCargoToml) err))
      | None => ret (true, None)
      end
  end.

Definition SwiftPMProvider_Detect : M S (bool * option error) :=
  let* (_, err) := LookPath Exec "swift" in
  match err with
  | Some err =>
      if errors_Is err exec_ErrNotFound then ret (false, None)
      else ret (false, Some (fmt_Errorf "lookpath swift" err))
  | None =>
      let* err := Stat Exec swiftPackageFile in
      match err with
      | Some err =>
          if errors_Is err os_ErrNotExist then ret (false, None)
          else ret (false, Some (fmt_Errorf ("stat " ++ swiftPackageFile) err))
      | None => ret (true, None)
      end
  end.

Definition UVProvider_Detect : M S (bool * option error) :=
  let* (_, err) := LookPath Exec "uv" in
  match err with
  | Some err =>
      if errors_Is err exec_ErrNotFound then ret (false, None)
      else ret (false, Some (fmt_Errorf "lookpath uv" err))
  | None =>
      let* err := Stat Exec uvLockFile in
      match err with
      | Some err =>
          if errors_Is err os_ErrNotExist then ret (false, None)
          else ret (false, Some (fmt_Errorf ("stat " ++ uvLockFile) err))
      | None => ret (true, None)
      end
  end.

Definition XcodeProvider_Detect : M S (bool * option error) :=
  let* (_, err) := LookPath Exec "xcodebuild" in
  match err with
  | Some err =>
      if errors_Is err exec_ErrNotFound then ret (false, None)
      else ret (false, Some (fmt_Errorf "lookpath xcodebuild" err))
  | None =>
      let* (entries, err) := ReadDir Exec "." in
      match err with
      | Some err => ret (false, Some (fmt_Errorf "readdir" err))
      | None => ret (Detect_entries entries)
      end
  end.

Definition YarnProvider_Detect : M S (bool * option error) :=
  let* (_, err) := LookPath Exec "yarn" in
  match err with
  | Some err =>
      if errors_Is err exec_ErrNotFound then ret (false, None)
      else ret (false, Some (fmt_Errorf "lookpath yarn" err))
  | None =>
      let* err := Stat Exec yarnLockFile in
      match err with
      | Some err =>
          if errors_Is err os_ErrNotExist then ret (false, None)
          else ret (false, Some (fmt_Errorf ("stat " ++ yarnLockFile) err))
      | None => ret (true, None)
      end
  end.

(** [GolangCILintProvider.Plan]: the loop over the scanned lines; [None]
    when no line has the prefix. *)
Fixpoint golangCILint_find (lines : list string) : option string :=
  match lines with
  | [] => None
  | text :: rest =>
      let line := strings_TrimSpace text in
      if strings_HasPrefix (strings_ToLower line) golangCILintCacheDirPrefix
      then Some (strings_TrimSpace
                   (string_drop (String.length golangCILintCacheDirPrefix) line))
      else golangCILint_find rest
  end.

Definition GolangCILintProvider_Plan : M S (PlanResult * option error) :=
  let* (output, err) := Output Exec ["golangci-lint"; "cache"; "status"] in
  match err with
  | Some err => ret (PlanResult_zero, Some (fmt_Errorf "golangci-lint cache status" err))
  | None =>
      let (lines, scanErr) := bufio_Scan output in
      match golangCILint_find lines with
      | Some cacheDir =>
          ret ({| AddEnvs := ∅; MountPaths := [cacheDir]; RemovePaths := [] |}, None)
      | None =>
          match scanErr with
          | Some err =>
              ret (PlanResult_zero, Some (fmt_Errorf "scanning golangci-lint output" err))
          | None =>
              ret ({| AddEnvs := ∅; MountPaths := [golangCILintDefaultCacheDir];
                      RemovePaths := [] |}, None)
          end
      end
  end.

(** The lines of [output] that [PnpmProvider.Plan] keeps for an old pnpm. *)
Definition pnpm_filtered (output : string) : list string :=
  List.filter (fun line => negb (strings_HasPrefix line pnpmWarningPrefix))
    (strings_Split_LF output).

(** The version [PnpmProvider.Plan] reads off the output of [pnpm --version]. *)
Definition pnpm_version (versionOutput : string) : string :=
  let versionLines := strings_Split_LF (strings_TrimSpace versionOutput) in
  "v" ++ strings_TrimSpace (List.last versionLines EmptyString).

Definition PnpmProvider_Plan : M S (PlanResult * option error) :=
  let* (versionOutput, err) := Output Exec ["pnpm"; "--version"] in
  match err with
  | Some err => ret (PlanResult_zero, Some (fmt_Errorf "pnpm --version" err))
  | None =>
      let version := pnpm_version versionOutput in
      let* (output, err) := Output Exec ["pnpm"; "store"; "path"; "--loglevel"; "error"] in
      match err with
      | Some err => ret (PlanResult_zero, Some (fmt_Errorf "pnpm store path" err))
      | None =>
          let cacheDir := strings_TrimSpace output in
          let cacheDir :=
            if (semver_Compare version pnpmWarningFixVersion <? 0)%Z
            then strings_TrimSpace (strings_Join_LF (pnpm_filtered output))
            else cacheDir in
          if String.eqb cacheDir EmptyString
          then ret (PlanResult_zero, Some (errors_New "empty cache dir from pnpm store path"))
          else
            ret ({| AddEnvs := {[ pnpmPackageImportMethodKey := pnpmPackageImportMethodValue ]};
                    MountPaths := [cacheDir]; RemovePaths := [] |}, None)
      end
  end.

(** The command [YarnProvider.Plan] builds once it knows the version. *)
Definition yarn_cache_cmd (version : string) : Cmd :=
  if strings_HasPrefix version yarnV1Prefix
  then ["yarn"; "cache"; "dir"]
  else ["yarn"; "config"; "get"; "cacheFolder"].

Definition YarnProvider_Plan : M S (PlanResult * option error) :=
  let* (versionOutput, err) := Output Exec ["yarn"; "--version"] in
  match err with
  | Some err => ret (PlanResult_zero, Some (fmt_Errorf "yarn --version" err))
  | None =>
      let version := strings_TrimSpace versionOutput in
      let cmd := yarn_cache_cmd version in
      let* (output, err) := Output Exec cmd in
      match err with
      | Some err => ret (PlanResult_zero, Some (fmt_Errorf "yarn cache dir" err))
      | None =>
          let cacheDir := strings_TrimSpace output in
          if String.eqb cacheDir EmptyString
          then ret (PlanResult_zero, Some (errors_New "empty cache dir from yarn"))
          else ret ({| AddEnvs := ∅; MountPaths := [cacheDir]; RemovePaths := [] |}, None)
      end
  end.

(** The earlier revision of the Go providers kept in [mode.go]: detection
    on the binary alone, and a plan that fails when no line has the
    prefix. *)
Definition GoProvider_Detect_old : M S (bool * option error) :=
  let* (_, err) := LookPath Exec "go" in
  match err with
  | Some err =>
      if errors_Is err exec_ErrNotFound then ret (false, None)
      else ret (false, Some (fmt_Errorf "lookpath go" err))
  | None => ret (true, None)
  end.

Definition GolangCILintProvider_Detect_old : M S (bool * option error) :=
  let* (_, err) := LookPath Exec "golangci-lint" in
  match err with
  | Some err =>
      if errors_Is err exec_ErrNotFound then ret (false, None)
      else ret (false, Some (fmt_Errorf "lookpath golangci-lint" err))
  | None => ret (true, None)
  end.

Definition GolangCILintProvider_Plan_old : M S (PlanResult * option error) :=
  let* (output, err) := Output Exec ["golangci-lint"; "cache"; "status"] in
  match err with
  | Some err => ret (PlanResult_zero, Some (fmt_Errorf "golangci-lint cache status" err))
  | None =>
      let (lines, scanErr) := bufio_Scan output in
      let found := golangCILint_find lines in
      match found, scanErr with
      | None, Some err =>
          ret (PlanResult_zero, Some (fmt_Errorf "scanning golangci-lint output" err))
      | _, _ =>
          let cacheDir := default EmptyString found in
          if String.eqb cacheDir EmptyString
          then ret (PlanResult_zero,
                    Some (errors_New "cache dir not found in golangci-lint output"))
          else ret ({| AddEnvs := ∅; MountPaths := [cacheDir]; RemovePaths := [] |}, None)
      end
  end.

(** ** The plans *)

Context {env : Env} {dec : Decoders}.

(** The loop of [AptProvider.Plan] over the scanned lines: of the lines
    the pattern matches, those for the four keys are kept, a later line
    replacing an earlier one for the same key. *)
Fixpoint apt_scan (lines : list string) (aptConfig : gmap string string)
    : gmap string string :=
  match lines with
  | [] => aptConfig
  | text :: rest =>
      let line := strings_TrimSpace text in
      if String.eqb line EmptyString then apt_scan rest aptConfig
      else
        match aptConfigRegex_FindStringSubmatch line with
        | [_; key; value] =>
            if String.eqb key aptDirCacheKey || String.eqb key aptDirCacheArchivesKey
               || String.eqb key aptDirEtcKey || String.eqb key aptDirEtcPartsKey
            then apt_scan rest (<[key := value]> aptConfig)
            else apt_scan rest aptConfig
        | _ => apt_scan rest aptConfig
        end
  end.

(** [AptProvider.Plan]; [aptConfig[key]] of a missing key is the empty
    string. *)
Definition AptProvider_Plan : M S (PlanResult * option error) :=
  let* (output, err) := Output Exec ["apt-config"; "dump"] in
  match err with
  | Some err => ret (PlanResult_zero, Some err)
  | None =>
      let (lines, scanErr) := bufio_Scan output in
      let aptConfig := apt_scan lines ∅ in
      match scanErr with
      | Some err =>
          ret (PlanResult_zero, Some (fmt_Errorf "scanning apt-config output" err))
      | None =>
          match aptConfig !! aptDirCacheKey, aptConfig !! aptDirCacheArchivesKey with
          | None, _ =>
              ret (PlanResult_zero,
                   Some (errors_New (aptDirCacheKey ++ " not found in apt-config output")))
          | Some _, None =>
              ret (PlanResult_zero,
                   Some (errors_New (aptDirCacheArchivesKey
                                     ++ " not found in apt-config output")))
          | Some cache, Some archives =>
              let mountPaths := [("/" ++ cache ++ "/" ++ archives)%string] in
              let etc := default EmptyString (aptConfig !! aptDirEtcKey) in
              let parts := default EmptyString (aptConfig !! aptDirEtcPartsKey) in
              if negb (String.eqb etc EmptyString) && negb (String.eqb parts EmptyString)
              then
                let path := ("/" ++ etc ++ "/" ++ parts ++ "/docker-clean")%string in
                let* err := Stat Exec path in
                match err with
                | Some err =>
                    if negb (errors_Is err os_ErrNotExist)
                    then ret (PlanResult_zero,
                              Some (fmt_Errorf "stat docker-clean script" err))
                    else ret ({| AddEnvs := ∅; MountPaths := mountPaths;
                                 RemovePaths := [] |}, None)
                | None =>
                    ret ({| AddEnvs := ∅; MountPaths := mountPaths;
                            RemovePaths := [path] |}, None)
                end
              else ret ({| AddEnvs := ∅; MountPaths := mountPaths; RemovePaths := [] |}, None)
          end
      end
  end.

Definition BrewProvider_Plan : M S (PlanResult * option error) :=
  let* (output, err) := Output Exec ["brew"; "--cache"] in
  match err with
  | Some err => ret (PlanResult_zero, Some (fmt_Errorf "brew --cache" err))
  | None =>
      let cacheDir := strings_TrimSpace output in
      if String.eqb cacheDir EmptyString
      then ret (PlanResult_zero, Some (errors_New "empty cache dir from brew --cache"))
      else ret ({| AddEnvs := ∅; MountPaths := [cacheDir]; RemovePaths := [] |}, None)
  end.

Definition BunProvider_Plan : M S (PlanResult * option error) :=
  let* (output, err) := Output Exec ["bun"; "pm"; "cache"] in
  match err with
  | Some err => ret (PlanResult_zero, Some (fmt_Errorf "bun pm cache" err))
  | None =>
      let cacheDir := strings_TrimSpace output in
      if String.eqb cacheDir EmptyString
      then ret (PlanResult_zero, Some (errors_New "empty cache dir from bun pm cache"))
      else ret ({| AddEnvs := ∅; MountPaths := [cacheDir]; RemovePaths := [] |}, None)
  end.

Definition CocoapodsProvider_Plan : M S (PlanResult * option error) :=
  ret ({| AddEnvs := ∅; MountPaths := ["./Pods"; cocoapodsCachePath];
          RemovePaths := [] |}, None).

Definition ComposerProvider_Plan : M S (PlanResult * option error) :=
  let* (output, err) := Output Exec ["composer"; "config"; "--global"; "cache-files-dir"] in
  match err with
  | Some err =>
      ret (PlanResult_zero, Some (fmt_Errorf "composer config --global cache-files-dir" err))
  | None =>
      let cacheDir := strings_TrimSpace output in
      if String.eqb cacheDir EmptyString
      then ret (PlanResult_zero, Some (errors_New "empty cache dir from composer config"))
      else ret ({| AddEnvs := ∅; MountPaths := [cacheDir]; RemovePaths := [] |}, None)
  end.

Definition DenoProvider_Plan : M S (PlanResult * option error) :=
  let* (output, err) := Output Exec ["deno"; "info"; "--json"] in
  match err with
  | Some err => ret (PlanResult_zero, Some (fmt_Errorf "deno info --json" err))
  | None =>
      let (denoInfo, err) := json_Unmarshal_any output in
      match err with
      | Some err => ret (PlanResult_zero, Some (fmt_Errorf "parse deno info output" err))
      | None =>
          match denoInfo !! denoDirKey with
          | Some (json_string denoDir) =>
              if String.eqb denoDir EmptyString
              then ret (PlanResult_zero,
                        Some (errors_New "denoDir not found in deno info output"))
              else ret ({| AddEnvs := ∅; MountPaths := [denoDir]; RemovePaths := [] |}, None)
          | _ =>
              ret (PlanResult_zero, Some (errors_New "denoDir not found in deno info output"))
          end
      end
  end.

(** [GoProvider.Plan], the same in both revisions. *)
Definition GoProvider_Plan : M S (PlanResult * option error) :=
  let* (output, err) := Output Exec ["go"; "env"; "-json"; goCacheKey; goModeCacheKey] in
  match err with
  | Some err => ret (PlanResult_zero, Some (fmt_Errorf "go env" err))
  | None =>
      let (goEnv, err) := json_Unmarshal_strings output in
      match err with
      | Some err => ret (PlanResult_zero, Some (fmt_Errorf "parse go env output" err))
      | None =>
          match goEnv !! goCacheKey, goEnv !! goModeCacheKey with
          | None, _ =>
              ret (PlanResult_zero,
                   Some (errors_New (goCacheKey ++ " not found in go env output")))
          | Some _, None =>
              ret (PlanResult_zero,
                   Some (errors_New (goModeCacheKey ++ " not found in go env output")))
          | Some goCache, Some goModCache =>
              ret ({| AddEnvs := ∅; MountPaths := [goCache; goModCache];
                      RemovePaths := [] |}, None)
          end
      end
  end.

Definition GradleProvider_Plan : M S (PlanResult * option error) :=
  ret ({| AddEnvs := ∅; MountPaths := [gradleCachesPath; gradleWrapperPath];
          RemovePaths := [] |}, None).

Definition MavenProvider_Plan : M S (PlanResult * option error) :=
  ret ({| AddEnvs := ∅; MountPaths := [mavenRepositoryPath]; RemovePaths := [] |}, None).

(** The mount target [MiseProvider.Plan] reads off the environment; empty
    when the environment names none. *)
Definition mise_env_target : string :=
  if negb (String.eqb (os_Getenv miseDataDirKey) EmptyString)
  then os_Getenv miseDataDirKey
  else if negb (String.eqb (os_Getenv miseXdgDataHomeKey) EmptyString)
  then filepath_Join [os_Getenv miseXdgDataHomeKey; miseDefaultPath]
  else if String.eqb runtime_GOOS "windows"
  then
    if negb (String.eqb (os_Getenv miseLocalAppDataKey) EmptyString)
    then filepath_Join [os_Getenv miseLocalAppDataKey; miseDefaultPath]
    else EmptyString
  else EmptyString.

Definition MiseProvider_Plan : M S (PlanResult * option error) :=
  let mountTarget := mise_env_target in
  if String.eqb mountTarget EmptyString then
    let (homeDir, err) := os_UserHomeDir in
    match err with
    | Some err => ret (PlanResult_zero, Some (fmt_Errorf "get user home dir" err))
    | None =>
        ret ({| AddEnvs := ∅;
                MountPaths := [filepath_Join [homeDir; ".local"; "share"; miseDefaultPath]];
                RemovePaths := [] |}, None)
    end
  else ret ({| AddEnvs := ∅; MountPaths := [mountTarget]; RemovePaths := [] |}, None).

Definition NixProvider_Plan : M S (PlanResult * option error) :=
  ret ({| AddEnvs := ∅; MountPaths := [nixCachePath; "/nix"]; RemovePaths := [] |}, None).

Definition PlaywrightProvider_Plan : M S (PlanResult * option error) :=
  let browsersPath := os_Getenv playwrightBrowsersPathKey in
  if negb (String.eqb browsersPath EmptyString)
  then ret ({| AddEnvs := ∅; MountPaths := [browsersPath]; RemovePaths := [] |}, None)
  else
    let mountTarget :=
      if String.eqb runtime_GOOS "darwin" then playwrightDarwinCachePath
      else if String.eqb runtime_GOOS "windows" then playwrightWindowsCachePath
      else playwrightDefaultCachePath in
    ret ({| AddEnvs := ∅; MountPaths := [mountTarget]; RemovePaths := [] |}, None).

Definition PoetryProvider_Plan : M S (PlanResult * option error) :=
  let* (output, err) := Output Exec ["poetry"; "config"; "cache-dir"] in
  match err with
  | Some err => ret (PlanResult_zero, Some (fmt_Errorf "poetry config cache-dir" err))
  | None =>
      let cacheDir := strings_TrimSpace output in
      if String.eqb cacheDir EmptyString
      then ret (PlanResult_zero,
                Some (errors_New "empty cache dir from poetry config cache-dir"))
      else ret ({| AddEnvs := ∅; MountPaths := [cacheDir]; RemovePaths := [] |}, None)
  end.

Definition PythonProvider_Plan : M S (PlanResult * option error) :=
  let* (output, err) := Output Exec ["pip"; "cache"; "dir"] in
  match err with
  | Some err => ret (PlanResult_zero, Some (fmt_Errorf "pip cache dir" err))
  | None =>
      let cacheDir := strings_TrimSpace output in
      if String.eqb cacheDir EmptyString
      then ret (PlanResult_zero, Some (errors_New "empty cache dir from pip cache dir"))
      else ret ({| AddEnvs := ∅; MountPaths := [cacheDir]; RemovePaths := [] |}, None)
  end.

Definition RubyProvider_Plan : M S (PlanResult * option error) :=
  ret ({| AddEnvs := ∅; MountPaths := ["./vendor/bundle"; "./vendor/cache"];
          RemovePaths := [] |}, None).

Definition RustProvider_Plan : M S (PlanResult * option error) :=
  ret ({| AddEnvs := ∅;
          MountPaths := ["~/.cargo/registry"; "~/.cargo/git"; "./target";
                         "~/.cargo/.global-cache"];
          RemovePaths := [] |}, None).

(** [SwiftPMProvider.Plan]; [EnabledModes] is the field of the request
    that [Modes.Plan] fills with the names of the planned modes. *)
Definition SwiftPMProvider_Plan (EnabledModes : list string)
    : M S (PlanResult * option error) :=
  let mountPaths :=
    ["./.build"; "~/Library/Caches/org.swift.swiftpm"; "~/Library/org.swift.swiftpm"] in
  let mountPaths :=
    if negb (slices_Contains EnabledModes "xcode")
    then mountPaths ++ ["~/Library/Developer/Xcode/DerivedData/ModuleCache.noindex"]
    else mountPaths in
  ret ({| AddEnvs := ∅; MountPaths := mountPaths; RemovePaths := [] |}, None).

Definition UVProvider_Plan : M S (PlanResult * option error) :=
  let* (output, err) := Output Exec ["uv"; "cache"; "dir"] in
  match err with
  | Some err => ret (PlanResult_zero, Some (fmt_Errorf "uv cache dir" err))
  | None =>
      let cacheDir := strings_TrimSpace output in
      if String.eqb cacheDir EmptyString
      then ret (PlanResult_zero, Some (errors_New "empty cache dir from uv cache dir"))
      else
        ret ({| AddEnvs := {[ uvLinkModeKey := uvLinkModeValue ]};
                MountPaths := [cacheDir]; RemovePaths := [] |}, None)
  end.

Definition XcodeProvider_Plan : M S (PlanResult * option error) :=
  ret ({| AddEnvs := {[ xcodeCompilationCacheKey := xcodeCompilationCacheValue ]};
          MountPaths := [xcodeCachePath]; RemovePaths := [] |}, None).

End Providers.

(** The provider types of the package. *)
Inductive Provider : Type :=
| AptProvider | BrewProvider | BunProvider | CocoapodsProvider
| ComposerProvider | DenoProvider | GoProvider | GolangCILintProvider
| GradleProvider | MavenProvider | MiseProvider | NixProvider
| PlaywrightProvider | PnpmProvider | PoetryProvider | PythonProvider
| RubyProvider | RustProvider | SwiftPMProvider | UVProvider
| XcodeProvider | YarnProvider.

(** [p.Name()] *)
Definition Provider_Name (p : Provider) : string :=
  match p with
  | AptProvider => "apt" | BrewProvider => "brew" | BunProvider => "bun"
  | CocoapodsProvider => "cocoapods" | ComposerProvider => "composer"
  | DenoProvider => "deno" | GoProvider => "go"
  | GolangCILintProvider => "golangci-lint" | GradleProvider => "gradle"
  | MavenProvider => "maven" | MiseProvider => "mise" | NixProvider => "nix"
  | PlaywrightProvider => "playwright" | PnpmProvider => "pnpm"
  | PoetryProvider => "poetry" | PythonProvider => "python"
  | RubyProvider => "ruby" | RustProvider => "rust"
  | SwiftPMProvider => "swiftpm" | UVProvider => "uv"
  | XcodeProvider => "xcode" | YarnProvider => "yarn"
  end.

(** [p.Detect(ctx, req)], with [Exec] for [req.Exec]. *)
Definition Provider_Detect {S : Type} (Exec : Executor S) (p : Provider)
    : M S (bool * option error) :=
  match p with
  | AptProvider => AptProvider_Detect Exec
  | BrewProvider => BrewProvider_Detect Exec
  | BunProvider => BunProvider_Detect Exec
  | CocoapodsProvider => CocoapodsProvider_Detect Exec
  | ComposerProvider => ComposerProvider_Detect Exec
  | DenoProvider => DenoProvider_Detect Exec
  | GoProvider => GoProvider_Detect Exec
  | GolangCILintProvider => GolangCILintProvider_Detect Exec
  | GradleProvider => GradleProvider_Detect Exec
  | MavenProvider => MavenProvider_Detect Exec
  | MiseProvider => MiseProvider_Detect Exec
  | NixProvider => NixProvider_Detect Exec
  | PlaywrightProvider => PlaywrightProvider_Detect Exec
  | PnpmProvider => PnpmProvider_Detect Exec
  | PoetryProvider => PoetryProvider_Detect Exec
  | PythonProvider => PythonProvider_Detect Exec
  | RubyProvider => RubyProvider_Detect Exec
  | RustProvider => RustProvider_Detect Exec
  | SwiftPMProvider => SwiftPMProvider_Detect Exec
  | UVProvider => UVProvider_Detect Exec
  | XcodeProvider => XcodeProvider_Detect Exec
  | YarnProvider => YarnProvider_Detect Exec
  end.

(** [p.Plan(ctx, req)], with [Exec] for [req.Exec] and [EnabledModes] for
    the names [Modes.Plan] puts in the request. *)
Definition Provider_Plan {libs : Libs} {env : Env} {dec : Decoders} {S : Type}
    (Exec : Executor S) (EnabledModes : list string) (p : Provider)
    : M S (PlanResult * option error) :=
  match p with
  | AptProvider => AptProvider_Plan Exec
  | BrewProvider => BrewProvider_Plan Exec
  | BunProvider => BunProvider_Plan Exec
  | CocoapodsProvider => CocoapodsProvider_Plan
  | ComposerProvider => ComposerProvider_Plan Exec
  | DenoProvider => DenoProvider_Plan Exec
  | GoProvider => GoProvider_Plan Exec
  | GolangCILintProvider => GolangCILintProvider_Plan Exec
  | GradleProvider => GradleProvider_Plan
  | MavenProvider => MavenProvider_Plan
  | MiseProvider => MiseProvider_Plan
  | NixProvider => NixProvider_Plan
  | PlaywrightProvider => PlaywrightProvider_Plan
  | PnpmProvider => PnpmProvider_Plan Exec
  | PoetryProvider => PoetryProvider_Plan Exec
  | PythonProvider => PythonProvider_Plan Exec
  | RubyProvider => RubyProvider_Plan
  | RustProvider => RustProvider_Plan
  | SwiftPMProvider => SwiftPMProvider_Plan EnabledModes
  | UVProvider => UVProvider_Plan Exec
  | XcodeProvider => XcodeProvider_Plan
  | YarnProvider => YarnProvider_Plan Exec
  end.

(** The calls a recording double keeps. *)
Inductive Call : Type :=
| CallLookPath (file : string)
| CallOutput (cmd : Cmd)
| CallStat (name : string)
| CallReadDir (name : string).

(** An executor that also appends every call to a log, as the generated
    test double does. *)
Definition recording {S : Type} (E : Executor S) : Executor (S * list Call) :=
  {| LookPath file := fun st =>
       let (r, s') := LookPath E file (fst st) in (r, (s', snd st ++ [CallLookPath file]));
     Output cmd := fun st =>
       let (r, s') := Output E cmd (fst st) in (r, (s', snd st ++ [CallOutput cmd]));
     Stat name := fun st =>
       let (r, s') := Stat E name (fst st) in (r, (s', snd st ++ [CallStat name]));
     ReadDir name := fun st =>
       let (r, s') := ReadDir E name (fst st) in (r, (s', snd st ++ [CallReadDir name])) |}.

End mode.

(** * Package cache *)

Module cache.

Definition privateNamespaceDir : string := ".ns".
Definition metadataFilename : string := "cache-metadata.json".

Record MountRequest : Type := {
  DetectAllModes : bool;
  DetectModes : list string;
  ManualModes : list string;
  ManualPaths : list string
}.

Record MountResult : Type := {
  Mode : string;
  CachePath : string;
  MountPath : string;
  CacheHit : bool
}.

Record DiskUsage : Type := { Total : string; Used : string }.

Record MountResponseInput : Type := {
  Input_Modes : list string;
  Input_Paths : list string
}.

Record MountResponseOutput : Type := {
  Output_DestructiveMode : bool;
  Output_AddEnvs : gmap string string;
  Output_DiskUsage : option DiskUsage;
  Mounts : list MountResult;
  RemovedPaths : list string
}.

Record MountResponse : Type := {
  Input : MountResponseInput;
  Output : MountResponseOutput
}.

Record CacheMetadataEntry : Type := {
  CacheFramework : option string;
  MountTarget : list string;
  Source : string
}.

Record CacheMetadata : Type := {
  UpdatedAt : string;
  Version : Z;
  UserRequest : gmap string CacheMetadataEntry
}.

(** [json.MarshalIndent(metadata, "", "  ")] *)
Class Json : Type := {
  json_MarshalIndent : CacheMetadata -> string * option error
}.

(** [MountResult{}], [DiskUsage{}] and [MountResponse{}] *)
Definition MountResult_zero : MountResult :=
  {| Mode := EmptyString; CachePath := EmptyString; MountPath := EmptyString;
     CacheHit := false |}.

Definition DiskUsage_zero : DiskUsage :=
  {| Total := EmptyString; Used := EmptyString |}.

Definition MountResponse_zero : MountResponse :=
  {| Input := {| Input_Modes := []; Input_Paths := [] |};
     Output := {| Output_DestructiveMode := false; Output_AddEnvs := ∅;
                  Output_DiskUsage := None; Mounts := []; RemovedPaths := [] |} |}.

(** [type Executor interface]; [Stat] drops the [os.FileInfo], which no
    caller reads, and the permission bits are numbers. *)
Record Executor (S : Type) : Type := {
  Exec_DiskUsage : string -> M S (DiskUsage * option error);
  Exec_MkdirAll : string -> N -> M S (option error);
  Exec_Mount : string -> string -> M S (option error);
  Exec_RemoveAll : string -> M S (option error);
  Exec_Stat : string -> M S (option error);
  Exec_WriteFile : string -> string -> N -> M S (option error)
}.
Arguments Exec_DiskUsage {S} _ _ _.
Arguments Exec_MkdirAll {S} _ _ _ _.
Arguments Exec_Mount {S} _ _ _ _.
Arguments Exec_RemoveAll {S} _ _ _.
Arguments Exec_Stat {S} _ _ _.
Arguments Exec_WriteFile {S} _ _ _ _ _.

Record Mounter (S : Type) : Type := {
  DestructiveMode : bool;
  CacheRoot : string;
  Exec : Executor S;
  Modes : mode.Modes
}.
Arguments DestructiveMode {S} _.
Arguments CacheRoot {S} _.
Arguments Exec {S} _.
Arguments Modes {S} _.

(** Field updates of the response the mounter fills in through a pointer. *)
Definition set_Input_Modes (names : list string) (result : MountResponse) : MountResponse :=
  {| Input := {| Input_Modes := names; Input_Paths := Input_Paths (Input result) |};
     Output := Output result |}.

Definition append_Input_Paths (paths : list string) (result : MountResponse) : MountResponse :=
  {| Input := {| Input_Modes := Input_Modes (Input result);
                 Input_Paths := Input_Paths (Input result) ++ paths |};
     Output := Output result |}.

Definition append_Mounts (mount : MountResult) (result : MountResponse) : MountResponse :=
  {| Input := Input result;
     Output := {| Output_DestructiveMode := Output_DestructiveMode (Output result);
                  Output_AddEnvs := Output_AddEnvs (Output result);
                  Output_DiskUsage := Output_DiskUsage (Output result);
                  Mounts := Mounts (Output result) ++ [mount];
                  RemovedPaths := RemovedPaths (Output result) |} |}.

Definition set_AddEnv (k v : string) (result : MountResponse) : MountResponse :=
  {| Input := Input result;
     Output := {| Output_DestructiveMode := Output_DestructiveMode (Output result);
                  Output_AddEnvs := <[k := v]> (Output_AddEnvs (Output result));
                  Output_DiskUsage := Output_DiskUsage (Output result);
                  Mounts := Mounts (Output result);
                  RemovedPaths := RemovedPaths (Output result) |} |}.

Definition append_RemovedPaths (path : string) (result : MountResponse) : MountResponse :=
  {| Input := Input result;
     Output := {| Output_DestructiveMode := Output_DestructiveMode (Output result);
                  Output_AddEnvs := Output_AddEnvs (Output result);
                  Output_DiskUsage := Output_DiskUsage (Output result);
                  Mounts := Mounts (Output result);
                  RemovedPaths := RemovedPaths (Output result) ++ [path] |} |}.

Definition set_DiskUsage (usage : DiskUsage) (result : MountResponse) : MountResponse :=
  {| Input := Input result;
     Output := {| Output_DestructiveMode := Output_DestructiveMode (Output result);
                  Output_AddEnvs := Output_AddEnvs (Output result);
                  Output_DiskUsage := Some usage;
                  Mounts := Mounts (Output result);
                  RemovedPaths := RemovedPaths (Output result) |} |}.

Section Mounter.
Context {libs : Libs} {rt : mode.Runtime} {json : Json}.

(** [MountRequest.EnabledModes]; detection runs on [mode.DefaultExecutor{}]. *)
Definition EnabledModes (req : MountRequest) (available : mode.Modes)
    : mode.Modes * option error :=
  if negb (DetectAllModes req) && Nat.eqb (List.length (DetectModes req)) 0
     && Nat.eqb (List.length (ManualModes req)) 0
     && Nat.eqb (List.length (ManualPaths req)) 0
  then ([], Some (errors_New "at least one cache mode or path must be specified"))
  else
    let enabled := ManualModes req in
    let detect :=
      if DetectAllModes req then mode.Modes_Names available else DetectModes req in
    if Nat.ltb 0 (List.length detect) then
      let (filtered, err) := mode.Modes_Filter available detect in
      match err with
      | Some err => ([], Some err)
      | None =>
          let (detected, err) :=
            mode.Modes_Detect filtered
              {| mode.DetectRequest_Exec := Some mode.DefaultExecutor |} in
          match err with
          | Some err => ([], Some err)
          | None => mode.Modes_Filter available (enabled ++ mode.Modes_Names detected)
          end
      end
    else mode.Modes_Filter available enabled.

(** [resolveHome] *)
Definition resolveHome (path : string) : string * option error :=
  if negb (strings_HasPrefix path "~") then (path, None)
  else
    let (home, err) := os_UserHomeDir in
    match err with
    | Some err => (EmptyString, Some (fmt_Errorf "get user home dir" err))
    | None =>
        if String.eqb path "~" then (home, None)
        else if strings_HasPrefix path "~/"
        then (filepath_Join [home; string_drop 2 path], None)
        else (path, None)
    end.

Context {S : Type}.

(** [err == nil] *)
Definition is_nil (err : option error) : bool :=
  match err with
  | None => true
  | Some _ => false
  end.

(** [Mounter.mountPath] *)
Definition mountPath (m : Mounter S) (modeName path : string)
    : M S (MountResult * option error) :=
  let (path, err) := resolveHome path in
  match err with
  | Some err => ret (MountResult_zero, Some (fmt_Errorf "resolving path" err))
  | None =>
      let cachePath := filepath_Join [CacheRoot m; path] in
      let* err := Exec_Stat (Exec m) cachePath in
      let proceed : M S (MountResult * option error) :=
        let mount := {| Mode := modeName; CachePath := cachePath;
                        MountPath := path; CacheHit := is_nil err |} in
        if negb (DestructiveMode m) then ret (mount, None)
        else
          let* err := Exec_Mount (Exec m) cachePath path in
          match err with
          | Some err =>
              ret (MountResult_zero,
                   Some (fmt_Errorf ("mounting " ++ strconv_Quote cachePath ++ " to "
                                     ++ strconv_Quote path) err))
          | None => ret (mount, None)
          end in
      match err with
      | Some e =>
          if negb (errors_Is e os_ErrNotExist)
          then ret (MountResult_zero,
                    Some (fmt_Errorf ("stat cache path " ++ strconv_Quote cachePath) e))
          else proceed
      | None => proceed
      end
  end.

(** [Mounter.removePath] *)
Definition removePath (m : Mounter S) (path : string) (result : MountResponse)
    : M S (MountResponse * option error) :=
  let result := append_RemovedPaths path result in
  if negb (DestructiveMode m) then ret (result, None)
  else
    let* err := Exec_RemoveAll (Exec m) path in
    match err with
    | Some err => ret (result, Some (fmt_Errorf ("removing " ++ strconv_Quote path) err))
    | None => ret (result, None)
    end.

(** The loop of [Mounter.mountPaths]. *)
Fixpoint mountPaths_loop (m : Mounter S) (paths : list string) (result : MountResponse)
    : M S (MountResponse * option error) :=
  match paths with
  | [] => ret (result, None)
  | path :: rest =>
      let* (mount, err) := mountPath m EmptyString path in
      match err with
      | Some err =>
          ret (result, Some (fmt_Errorf ("mounting path " ++ strconv_Quote path) err))
      | None => mountPaths_loop m rest (append_Mounts mount result)
      end
  end.

(** [Mounter.mountPaths] *)
Definition mountPaths (m : Mounter S) (paths : list string) (result : MountResponse)
    : M S (MountResponse * option error) :=
  mountPaths_loop m paths (append_Input_Paths paths result).

(** The three loops of [Mounter.mountModes] over one mode's plan. *)
Fixpoint mountModes_mounts (m : Mounter S) (modeName : string) (paths : list string)
    (result : MountResponse) : M S (MountResponse * option error) :=
  match paths with
  | [] => ret (result, None)
  | path :: rest =>
      let* (mount, err) := mountPath m modeName path in
      match err with
      | Some err =>
          ret (result, Some (fmt_Errorf ("mounting mode path " ++ strconv_Quote path) err))
      | None => mountModes_mounts m modeName rest (append_Mounts mount result)
      end
  end.

(** The keys of one plan's [AddEnvs] are distinct, so the order in which
    [range] visits them does not show in the result. *)
Definition mountModes_envs (envs : gmap string string) (result : MountResponse)
    : MountResponse :=
  List.fold_left (fun result kv => set_AddEnv (fst kv) (snd kv) result)
    (map_to_list envs) result.

Fixpoint mountModes_removes (m : Mounter S) (paths : list string)
    (result : MountResponse) : M S (MountResponse * option error) :=
  match paths with
  | [] => ret (result, None)
  | path :: rest =>
      let* (result, err) := removePath m path result in
      match err with
      | Some err =>
          ret (result, Some (fmt_Errorf ("removing mode path " ++ strconv_Quote path) err))
      | None => mountModes_removes m rest result
      end
  end.

(** The loop of [Mounter.mountModes] over the plans, in the order [range]
    visits them. *)
Fixpoint mountModes_loop (m : Mounter S) (plan : list (string * mode.PlanResult))
    (result : MountResponse) : M S (MountResponse * option error) :=
  match plan with
  | [] => ret (result, None)
  | (modeName, p) :: rest =>
      let* (result, err) := mountModes_mounts m modeName (mode.MountPaths p) result in
      match err with
      | Some err => ret (result, Some err)
      | None =>
          let result := mountModes_envs (mode.AddEnvs p) result in
          let* (result, err) := mountModes_removes m (mode.RemovePaths p) result in
          match err with
          | Some err => ret (result, Some err)
          | None => mountModes_loop m rest result
          end
      end
  end.

(** [Mounter.mountModes] *)
Definition mountModes (m : Mounter S) (modes : mode.Modes) (result : MountResponse)
    : M S (MountResponse * option error) :=
  let result := set_Input_Modes (mode.Modes_Names modes) result in
  let (plan, err) :=
    mode.Modes_Plan modes {| mode.PlanRequest_Exec := None; mode.enabledModes := [] |} in
  match err with
  | Some err => ret (result, Some err)
  | None => mountModes_loop m (mode.range_plans plan) result
  end.

(** The [UserRequest] map [Mounter.writeMetadata] builds from the mounts. *)
Definition metadata_entries (mounts : list MountResult) : gmap string CacheMetadataEntry :=
  List.fold_left
    (fun entries mount =>
       let cacheFramework :=
         if negb (String.eqb (Mode mount) EmptyString) then Some (Mode mount) else None in
       <[CachePath mount := {| CacheFramework := cacheFramework;
                               MountTarget := [MountPath mount];
                               Source := "space" |}]> entries)
    mounts ∅.

(** [Mounter.writeMetadata] *)
Definition writeMetadata (m : Mounter S) (result : MountResponse) : M S (option error) :=
  let metadataPath := filepath_Join [CacheRoot m; privateNamespaceDir; metadataFilename] in
  if negb (DestructiveMode m) then ret None
  else
    let metadata := {| Version := 1; UpdatedAt := time_Now;
                       UserRequest := metadata_entries (Mounts (Output result)) |} in
    let (data, err) := json_MarshalIndent metadata in
    match err with
    | Some err => ret (Some (fmt_Errorf "marshaling metadata" err))
    | None =>
        let metadataDir := filepath_Dir metadataPath in
        let* err := Exec_MkdirAll (Exec m) metadataDir 493 in
        match err with
        | Some err => ret (Some (fmt_Errorf "creating metadata directory" err))
        | None =>
            let* err := Exec_WriteFile (Exec m) metadataPath data 420 in
            match err with
            | Some err => ret (Some (fmt_Errorf "writing metadata file" err))
            | None => ret None
            end
        end
    end.

(** [Mounter.Mount] *)
Definition Mount (m : Mounter S) (req : MountRequest) : M S (MountResponse * option error) :=
  let result :=
    {| Input := {| Input_Modes := []; Input_Paths := [] |};
       Output := {| Output_DestructiveMode := DestructiveMode m; Output_AddEnvs := ∅;
                    Output_DiskUsage := None; Mounts := []; RemovedPaths := [] |} |} in
  let (modes, err) := EnabledModes req (Modes m) in
  match err with
  | Some err => ret (MountResponse_zero, Some err)
  | None =>
      let* (result, err) := mountModes m modes result in
      match err with
      | Some err => ret (MountResponse_zero, Some err)
      | None =>
          let* (result, err) := mountPaths m (ManualPaths req) result in
          match err with
          | Some err => ret (MountResponse_zero, Some err)
          | None =>
              let* err := writeMetadata m result in
              match err with
              | Some err => ret (MountResponse_zero, Some err)
              | None =>
                  let* (usage, err) := Exec_DiskUsage (Exec m) (CacheRoot m) in
                  match err with
                  | None => ret (set_DiskUsage usage result, None)
                  | Some _ => ret (result, None)
                  end
              end
          end
      end
  end.

End Mounter.

(** What a recording double keeps of a call: the arguments and the error
    returned. *)
Inductive Event : Type :=
| EvDiskUsage (path : string) (err : option error)
| EvMkdirAll (path : string) (perm : N) (err : option error)
| EvMount (from to : string) (err : option error)
| EvRemoveAll (name : string) (err : option error)
| EvStat (name : string) (err : option error)
| EvWriteFile (name data : string) (perm : N) (err : option error).

(** An executor that also appends every call to a log, as the generated
    test double does. *)
Definition recording {S : Type} (E : Executor S) : Executor (S * list Event) :=
  {| Exec_DiskUsage path := fun st =>
       let (r, s') := Exec_DiskUsage E path (fst st) in
       (r, (s', snd st ++ [EvDiskUsage path (snd r)]));
     Exec_MkdirAll path perm := fun st =>
       let (r, s') := Exec_MkdirAll E path perm (fst st) in
       (r, (s', snd st ++ [EvMkdirAll path perm r]));
     Exec_Mount from to := fun st =>
       let (r, s') := Exec_Mount E from to (fst st) in
       (r, (s', snd st ++ [EvMount from to r]));
     Exec_RemoveAll name := fun st =>
       let (r, s') := Exec_RemoveAll E name (fst st) in
       (r, (s', snd st ++ [EvRemoveAll name r]));
     Exec_Stat name := fun st =>
       let (r, s') := Exec_Stat E name (fst st) in
       (r, (s', snd st ++ [EvStat name r]));
     Exec_WriteFile name data perm := fun st =>
       let (r, s') := Exec_WriteFile E name data perm (fst st) in
       (r, (s', snd st ++ [EvWriteFile name data perm r])) |}.

(** The mounter [m] with a recording executor. *)
Definition recorded {S : Type} (m : Mounter S) : Mounter (S * list Event) :=
  {| DestructiveMode := DestructiveMode m; CacheRoot := CacheRoot m;
     Exec := recording (Exec m); Modes := Modes m |}.

(** ** The default executor *)

(** The operating system as the default executor reaches it. Of a
    [os.FileInfo] the code reads [IsDir] only, of the entries of a directory
    their number, of the current user [Uid] and [Gid]. *)
Record OS (S : Type) : Type := {
  (** [os.Stat]: [IsDir] of the file, or the error *)
  os_Stat : string -> M S (bool * option error);
  (** [os.Lstat]: [IsDir] of the file, [None] for a nil [FileInfo] *)
  os_Lstat : string -> M S (option bool * option error);
  (** [os.ReadDir]: the number of entries *)
  os_ReadDir : string -> M S (nat * option error);
  (** [os.MkdirAll] *)
  os_MkdirAll : string -> N -> M S (option error);
  (** [os.WriteFile] *)
  os_WriteFile : string -> string -> N -> M S (option error);
  (** [exec.CommandContext(ctx, name, args...).Output()]: the output, or
      the error together with [Stderr] when the error is an
      [*exec.ExitError] *)
  cmd_Output : list string -> M S (string * option (error * option string));
  (** [user.Current()]: [Uid] and [Gid] *)
  user_Current : M S ((string * string) * option error);
  (** [filepath.Abs] *)
  filepath_Abs : string -> M S (string * option error)
}.
Arguments os_Stat {S} _ _ _.
Arguments os_Lstat {S} _ _ _.
Arguments os_ReadDir {S} _ _ _.
Arguments os_MkdirAll {S} _ _ _ _.
Arguments os_WriteFile {S} _ _ _ _ _.
Arguments cmd_Output {S} _ _ _.
Arguments user_Current {S} _ _.
Arguments filepath_Abs {S} _ _ _.

Section DefaultExecutor.
Context {libs : Libs} {S : Type} (os : OS S).

(** [run]: the output of the command; the text of the standard error is
    added to the error of a command that exited with a failure. *)
Definition run (cmd : list string) : M S (string * option error) :=
  let* (output, err) := cmd_Output os cmd in
  match err with
  | Some (err, Some stderr) =>
      ret (EmptyString, Some (Wrapped (Error err ++ ": " ++ stderr) err))
  | Some (err, None) => ret (EmptyString, Some err)
  | None => ret (output, None)
  end.

(** [DefaultExecutor.RemoveAll] *)
Definition DefaultExecutor_RemoveAll (name : string) : M S (option error) :=
  let* (_, err) := run ["sudo"; "rm"; "-rf"; name] in
  ret err.

(** [DefaultExecutor.DiskUsage] *)
Definition DefaultExecutor_DiskUsage (path : string) : M S (DiskUsage * option error) :=
  let* (output, err) := run ["df"; "-h"; path] in
  match err with
  | Some err => ret (DiskUsage_zero, Some (fmt_Errorf "running df" err))
  | None =>
      let lines := strings_Split_LF (strings_TrimSpace output) in
      if Nat.ltb (List.length lines) 2
      then ret (DiskUsage_zero, Some (errors_New "unexpected df output: missing data line"))
      else
        let columns := strings_Fields (List.nth 1 lines EmptyString) in
        if Nat.ltb (List.length columns) 3
        then ret (DiskUsage_zero,
                  Some (errors_New "unexpected df output: insufficient columns"))
        else ret ({| Total := List.nth 1 columns EmptyString;
                     Used := List.nth 2 columns EmptyString |}, None)
  end.

(** [absDir] *)
Definition absDir (path : string) : M S (string * option error) :=
  if String.eqb path EmptyString
  then ret (EmptyString, Some (errors_New "path is empty"))
  else
    let* (absPath, err) := filepath_Abs os path in
    match err with
    | Some err =>
        ret (EmptyString, Some (fmt_Errorf ("resolving path " ++ strconv_Quote path) err))
    | None =>
        let* (isDir, err) := os_Stat os absPath in
        match err with
        | Some err =>
            if errors_Is err os_ErrNotExist
            then ret (EmptyString,
                      Some (errors_New ("path " ++ strconv_Quote absPath ++ " does not exist")))
            else ret (EmptyString,
                      Some (fmt_Errorf ("stating path " ++ strconv_Quote absPath) err))
        | None =>
            if negb isDir
            then ret (EmptyString,
                      Some (errors_New ("path " ++ strconv_Quote absPath
                                        ++ " is not a directory")))
            else ret (absPath, None)
        end
    end.

(** [isEmptyDir] *)
Definition isEmptyDir (name : string) : M S (bool * option error) :=
  let* (files, err) := os_ReadDir os name in
  match err with
  | Some err =>
      if errors_Is err os_ErrNotExist then ret (true, None) else ret (false, Some err)
  | None => ret (Nat.eqb files 0, None)
  end.

(** [chownSelf] *)
Definition chownSelf (path : string) : M S (option error) :=
  let* (currentUser, err) := user_Current os in
  match err with
  | Some err => ret (Some (fmt_Errorf "getting current user" err))
  | None =>
      let* (_, err) :=
        run ["sudo"; "chown"; (fst currentUser ++ ":" ++ snd currentUser)%string; path] in
      match err with
      | Some err => ret (Some (fmt_Errorf "sudo chown failed" err))
      | None => ret None
      end
  end.

(** The first loop of [ancestors]. [filepath.Dir] returns a shorter path or
    one of the two paths that end the loop, so the loop makes at most one
    round for every byte of [path]; [fuel] is that bound. *)
Fixpoint ancestors_loop (fuel : nat) (path : string) (result : list string) : list string :=
  if String.eqb path "/" || String.eqb path "."
  then result
  else
    match fuel with
    | O => result
    | Datatypes.S fuel => ancestors_loop fuel (filepath_Dir path) (result ++ [path])
    end.

(** [ancestors]; the second loop reverses [result] in place. *)
Definition ancestors (path : string) : list string :=
  List.rev (ancestors_loop (Datatypes.S (String.length path)) path []).

(** The loop of [sudoMkdirP] over the directories that are left. *)
Fixpoint sudoMkdirP_loop (dirs : list string) : M S (option error) :=
  match dirs with
  | [] => ret None
  | p :: rest =>
      let* (_, err) := os_Stat os p in
      match err with
      | None => sudoMkdirP_loop rest
      | Some err =>
          if negb (errors_Is err os_ErrNotExist)
          then ret (Some (fmt_Errorf ("stat " ++ strconv_Quote p) err))
          else
            let* (_, err) := run ["sudo"; "mkdir"; p] in
            match err with
            | Some err =>
                ret (Some (fmt_Errorf ("sudo mkdir directory `" ++ p ++ "`") err))
            | None =>
                let* err := chownSelf p in
                match err with
                | Some err => ret (Some (fmt_Errorf ("chown " ++ strconv_Quote p) err))
                | None => sudoMkdirP_loop rest
                end
            end
      end
  end.

(** [sudoMkdirP] *)
Definition sudoMkdirP (path : string) : M S (option error) :=
  sudoMkdirP_loop (ancestors path).

(** [mount] of exec_mount.go, for every target but darwin. *)
Definition mount_bind (from to : string) : M S (option error) :=
  let* (mountPathInfo, err) := os_Lstat os to in
  match match err with
        | Some err =>
            if negb (errors_Is err os_ErrNotExist)
            then Some (fmt_Errorf ("stating to path " ++ strconv_Quote to) err)
            else None
        | None => None
        end
  with
  | Some err => ret (Some err)
  | None =>
    let* err :=
      match mountPathInfo with
      | Some false =>
          let* (_, err) := run ["sudo"; "rm"; "-rf"; to] in
          ret err
      | _ => ret None
      end in
    match err with
    | Some err =>
        ret (Some (fmt_Errorf ("removing non-directory to path " ++ strconv_Quote to) err))
    | None =>
        let* err := sudoMkdirP to in
        match err with
        | Some err => ret (Some err)
        | None =>
            let* (_, err) := run ["sudo"; "mount"; "--bind"; from; to] in
            match err with
            | Some err =>
                ret (Some (fmt_Errorf ("binding from " ++ strconv_Quote from ++ " to "
                                       ++ strconv_Quote to) err))
            | None => ret None
            end
        end
    end
  end.

(** [mount] of exec_mount_darwin.go. *)
Definition mount_symlink (from to : string) : M S (option error) :=
  let* err := sudoMkdirP (filepath_Dir to) in
  match err with
  | Some err => ret (Some err)
  | None =>
      let* (_, err) := run ["sudo"; "rm"; "-rf"; to] in
      match err with
      | Some err => ret (Some (fmt_Errorf ("removing to path " ++ strconv_Quote to) err))
      | None =>
          let* (_, err) := run ["sudo"; "ln"; "-sfn"; from; to] in
          match err with
          | Some err =>
              ret (Some (fmt_Errorf ("symlinking from " ++ strconv_Quote from ++ " to "
                                     ++ strconv_Quote to) err))
          | None => chownSelf to
          end
      end
  end.

(** [mount]: the build constraint [darwin] chooses the file. *)
Definition mount (darwin : bool) (from to : string) : M S (option error) :=
  if darwin then mount_symlink from to else mount_bind from to.

(** [DefaultExecutor.Mount]; whether the target is empty is only logged. *)
Definition DefaultExecutor_Mount (darwin : bool) (from to : string) : M S (option error) :=
  let* (_, err) := isEmptyDir to in
  match err with
  | Some err => ret (Some (fmt_Errorf "checking mount path content" err))
  | None =>
      let* err := os_MkdirAll os from 493 in
      match err with
      | Some err =>
          ret (Some (fmt_Errorf ("creating from path " ++ strconv_Quote from) err))
      | None => mount darwin from to
      end
  end.

(** [DefaultExecutor] as an [Executor]. *)
Definition DefaultExecutor (darwin : bool) : Executor S :=
  {| Exec_DiskUsage := DefaultExecutor_DiskUsage;
     Exec_MkdirAll := os_MkdirAll os;
     Exec_Mount := DefaultExecutor_Mount darwin;
     Exec_RemoveAll := DefaultExecutor_RemoveAll;
     Exec_Stat name := let* (_, err) := os_Stat os name in ret err;
     Exec_WriteFile := os_WriteFile os |}.

(** [NewMounter]; [defaultModes] is [mode.DefaultModes()]. With an error
    the zero [Mounter] is returned, which has no executor: [None]. *)
Definition NewMounter (darwin : bool) (defaultModes : mode.Modes) (cacheRoot : string)
  : M S (option (Mounter S) * option error) :=
  let* (cacheRoot, err) := absDir cacheRoot in
  match err with
  | Some err => ret (None, Some (fmt_Errorf "resolving cache root" err))
  | None =>
      ret (Some {| DestructiveMode := false; CacheRoot := cacheRoot;
                   Exec := DefaultExecutor darwin; Modes := defaultModes |}, None)
  end.

End DefaultExecutor.

(** What is kept of a call of the operating system: the arguments and the
    error returned. *)
Inductive OSEvent : Type :=
| OsStat (name : string) (err : option error)
| OsLstat (name : string) (info : option bool) (err : option error)
| OsReadDir (name : string) (err : option error)
| OsMkdirAll (path : string) (perm : N) (err : option error)
| OsWriteFile (name data : string) (perm : N) (err : option error)
| OsCommand (cmd : list string) (err : option error)
| OsCurrentUser (err : option error)
| OsAbs (path : string) (err : option error).

(** An operating system that also appends every call to a log. *)
Definition traced {S : Type} (os : OS S) : OS (S * list OSEvent) :=
  {| os_Stat name := fun st =>
       let (r, s') := os_Stat os name (fst st) in
       (r, (s', snd st ++ [OsStat name (snd r)]));
     os_Lstat name := fun st =>
       let (r, s') := os_Lstat os name (fst st) in
       (r, (s', snd st ++ [OsLstat name (fst r) (snd r)]));
     os_ReadDir name := fun st =>
       let (r, s') := os_ReadDir os name (fst st) in
       (r, (s', snd st ++ [OsReadDir name (snd r)]));
     os_MkdirAll path perm := fun st =>
       let (r, s') := os_MkdirAll os path perm (fst st) in
       (r, (s', snd st ++ [OsMkdirAll path perm r]));
     os_WriteFile name data perm := fun st =>
       let (r, s') := os_WriteFile os name data perm (fst st) in
       (r, (s', snd st ++ [OsWriteFile name data perm r]));
     cmd_Output cmd := fun st =>
       let (r, s') := cmd_Output os cmd (fst st) in
       (r, (s', snd st ++ [OsCommand cmd (option_map fst (snd r))]));
     user_Current := fun st =>
       let (r, s') := user_Current os (fst st) in
       (r, (s', snd st ++ [OsCurrentUser (snd r)]));
     filepath_Abs path := fun st =>
       let (r, s') := filepath_Abs os path (fst st) in
       (r, (s', snd st ++ [OsAbs path (snd r)])) |}.

End cache.

(** * Package cmd *)

Module cmd.

(** [isCI] *)
Definition isCI {env : Env} : bool :=
  String.eqb (os_Getenv "GITHUB_ACTIONS") "true"
  || String.eqb (os_Getenv "GITLAB_CI") "true".

(** The request the mount command builds from the values of its flags
    [--detect], [--mode] and [--path]. *)
Definition mount_request (detectModes manualModes manualPaths : list string)
    : cache.MountRequest :=
  {| cache.DetectAllModes :=
       Nat.eqb (List.length detectModes) 1
       && String.eqb (List.nth 0 detectModes EmptyString) "*";
     cache.DetectModes := detectModes;
     cache.ManualModes := manualModes;
     cache.ManualPaths := manualPaths |}.

End cmd.

(** * Reading the providers *)

(** The binary each provider's [Detect] passes to [LookPath]. *)
Definition binary (p : mode.Provider) : string :=
  match p with
  | mode.AptProvider => "apt-config" | mode.BrewProvider => "brew"
  | mode.BunProvider => "bun" | mode.CocoapodsProvider => "pod"
  | mode.ComposerProvider => "composer" | mode.DenoProvider => "deno"
  | mode.GoProvider => "go" | mode.GolangCILintProvider => "golangci-lint"
  | mode.GradleProvider => "gradle" | mode.MavenProvider => "mvn"
  | mode.MiseProvider => "mise" | mode.NixProvider => "nix"
  | mode.PlaywrightProvider => "playwright" | mode.PnpmProvider => "pnpm"
  | mode.PoetryProvider => "poetry" | mode.PythonProvider => "pip"
  | mode.RubyProvider => "bundle" | mode.RustProvider => "cargo"
  | mode.SwiftPMProvider => "swift" | mode.UVProvider => "uv"
  | mode.XcodeProvider => "xcodebuild" | mode.YarnProvider => "yarn"
  end.

(** The marker files each provider's [Detect] stats in the working
    directory, in the order it stats them; none for the providers that
    detect on the binary alone and for Xcode, which lists the directory. *)
Definition marker_files (p : mode.Provider) : list string :=
  match p with
  | mode.AptProvider | mode.PlaywrightProvider | mode.XcodeProvider => []
  | mode.BrewProvider => [mode.brewfile]
  | mode.BunProvider => [mode.bunLockFile]
  | mode.CocoapodsProvider => [mode.cocoapodsPodfile]
  | mode.ComposerProvider => [mode.composerJsonFile]
  | mode.DenoProvider => [mode.denoLockFile]
  | mode.GoProvider => [mode.goModFile; mode.goWorkFile]
  | mode.GolangCILintProvider => [mode.golangCILintConfigYml; mode.golangCILintConfigYaml]
  | mode.GradleProvider => [mode.gradlewFile; mode.buildGradleFile]
  | mode.MavenProvider => [mode.mavenPomFile]
  | mode.MiseProvider => mode.miseConfigFiles
  | mode.NixProvider => mode.nixProjectFiles
  | mode.PnpmProvider => [mode.pnpmLockFile]
  | mode.PoetryProvider => [mode.poetryLockFile]
  | mode.PythonProvider => [mode.pythonRequirementsFile]
  | mode.RubyProvider => [mode.rubyGemfile]
  | mode.RustProvider => [mode.rustCargoToml]
  | mode.SwiftPMProvider => [mode.swiftPackageFile]
  | mode.UVProvider => [mode.uvLockFile]
  | mode.YarnProvider => [mode.yarnLockFile]
  end.

(** The answers of successive [Stat] calls on [files], from state [s]. *)
Fixpoint stat_seq {S : Type} (Exec : mode.Executor S) (files : list string) (s : S)
    : list (option error) :=
  match files with
  | [] => []
  | file :: rest =>
      let (r, s') := mode.Stat Exec file s in r :: stat_seq Exec rest s'
  end.

(** A lookup that failed because the executable is not on the path. *)
Definition not_found (r : option error) : Prop :=
  exists e, r = Some e /\ errors_Is e exec_ErrNotFound = true.

(** A stat that failed because the file does not exist. *)
Definition absent (r : option error) : Prop :=
  exists e, r = Some e /\ errors_Is e os_ErrNotExist = true.

(** A name some provider of the registry has. *)
Definition known (modes : mode.Modes) (name : string) : Prop :=
  In name (List.map mode.Name modes).

(** * Reading the log of a recording executor *)

(** The stat calls of a log: the path and whether the stat succeeded. *)
Definition stat_view (log : list cache.Event) : list (string * bool) :=
  omap (fun ev =>
          match ev with
          | cache.EvStat name err => Some (name, cache.is_nil err)
          | _ => None
          end) log.

(** The cache path and the hit flag of each entry. *)
Definition hits (mounts : list cache.MountResult) : list (string * bool) :=
  List.map (fun mt => (cache.CachePath mt, cache.CacheHit mt)) mounts.

(** A stat that failed with an error other than not-exist. *)
Definition stat_failure (ev : cache.Event) : Prop :=
  match ev with
  | cache.EvStat _ (Some e) => errors_Is e os_ErrNotExist = false
  | _ => False
  end.

(** Every call of [Mount] comes right after the [Stat] of the path it
    mounts. *)
Definition stat_before_mount (log : list cache.Event) : Prop :=
  forall pre from to err post,
    log = pre ++ cache.EvMount from to err :: post ->
    exists pre' err', pre = pre' ++ [cache.EvStat from err'].

(** The calls that change nothing. *)
Definition read_only (ev : cache.Event) : Prop :=
  match ev with
  | cache.EvStat _ _ | cache.EvDiskUsage _ _ => True
  | _ => False
  end.


(** No stat of the log failed with an error other than not-exist. *)
Definition good_stats (evs : list cache.Event) : Prop :=
  Forall (fun ev => ~ stat_failure ev) evs.

(** What a step of the mounter adds to the log and to the mounts;
    [destructive] is the mode of the mounter. *)
Definition Step {S : Type} (destructive : bool) (result : cache.MountResponse)
    (log : list cache.Event)
    (out : cache.MountResponse * option error * (S * list cache.Event)) : Prop :=
  exists evs,
    snd (snd out) = log ++ evs
    /\ stat_before_mount evs
    /\ (destructive = false -> Forall read_only evs)
    /\ (snd (fst out) = None ->
        good_stats evs
        /\ exists new,
             cache.Mounts (cache.Output (fst (fst out)))
               = cache.Mounts (cache.Output result) ++ new
             /\ stat_view evs = hits new).

(** * Reading the output of pnpm *)

(** [line] does not start with the warning prefix. *)
Definition no_warning (line : string) : Prop :=
  strings_HasPrefix line mode.pnpmWarningPrefix = false.

(** No text that follows a line feed in [s] starts with the warning
    prefix. *)
Fixpoint no_warning_after_LF (s : string) : Prop :=
  match s with
  | EmptyString => True
  | String c s' => (Ascii.eqb c LF = true -> no_warning s') /\ no_warning_after_LF s'
  end.

(** [s] holds no line feed. *)
Fixpoint no_LF (s : string) : Prop :=
  match s with
  | EmptyString => True
  | String c s' => Ascii.eqb c LF = false /\ no_LF s'
  end.

(** * Doubles and sample environments *)

Fixpoint cmd_eqb (a b : mode.Cmd) : bool :=
  match a, b with
  | [], [] => true
  | x :: a', y :: b' => String.eqb x y && cmd_eqb a' b'
  | _, _ => false
  end.

Definition path_error (op name : string) (err : error) : error :=
  Wrapped (op ++ " " ++ name ++ ": " ++ Error err) err.

(** A stateless double of [mode.Executor]: the binaries on the path, the
    files of the working directory and the output of each command. *)
Definition fixed_exec (bins files : list string) (outputs : list (mode.Cmd * string))
    : mode.Executor unit :=
  {| mode.LookPath file := fun s =>
       if existsb (String.eqb file) bins
       then ((("/usr/bin/" ++ file)%string, None), s)
       else ((EmptyString, Some (path_error "exec:" file exec_ErrNotFound)), s);
     mode.Output cmd := fun s =>
       match List.find (fun kv => cmd_eqb (fst kv) cmd) outputs with
       | Some kv => ((snd kv, None), s)
       | None => ((EmptyString, Some (errors_New "exit status 1")), s)
       end;
     mode.Stat name := fun s =>
       if existsb (String.eqb name) files then (None, s)
       else (Some (path_error "stat" name os_ErrNotExist), s);
     mode.ReadDir name := fun s => ((files, None), s) |}.

(** An executor value for requests that reach no provider code. *)
Definition idle_executor : mode.ExecutorValue :=
  {| mode.ev_state := unit; mode.ev_methods := fixed_exec [] [] []; mode.ev_init := tt |}.

(** A runtime in which goroutines finish in the order they were started and
    [range] visits the plans in the order of [map_to_list]. *)
Definition fifo_runtime : mode.Runtime :=
  {| mode.DefaultExecutor := idle_executor;
     mode.detect_completion := fun modes => modes;
     mode.detect_completion_perm := fun modes => Permutation_refl modes;
     mode.plan_completion := fun modes => modes;
     mode.plan_completion_perm := fun modes => Permutation_refl modes;
     mode.range_plans := fun plans => map_to_list plans;
     mode.range_plans_perm := fun plans => Permutation_refl (map_to_list plans) |}.

(** A provider double with fixed answers. *)
Definition fixed_provider (name : string) (detected : bool * option error)
    (plan : mode.PlanResult * option error) : mode.ModeProvider :=
  {| mode.Name := name; mode.Detect := fun _ => detected; mode.Plan := fun _ => plan |}.

Definition plan_of (mounts : list string) : mode.PlanResult :=
  {| mode.AddEnvs := ∅; mode.MountPaths := mounts; mode.RemovePaths := [] |}.

(** Splitting and joining on a byte, for the sample path functions. *)
Fixpoint split_on (sep : ascii) (s : string) : list string :=
  match s with
  | EmptyString => [EmptyString]
  | String c s' =>
      if Ascii.eqb c sep then EmptyString :: split_on sep s'
      else
        match split_on sep s' with
        | l :: ls => String c l :: ls
        | [] => [String c EmptyString]
        end
  end.

Fixpoint join_with (sep : string) (elems : list string) : string :=
  match elems with
  | [] => EmptyString
  | [e] => e
  | e :: rest => e ++ sep ++ join_with sep rest
  end.

(** The rules of [filepath.Clean] on a Unix path: [stack] holds the
    components kept so far, innermost first. *)
Fixpoint clean_components (rooted : bool) (comps stack : list string) : list string :=
  match comps with
  | [] => List.rev stack
  | c :: rest =>
      if String.eqb c EmptyString || String.eqb c "." then clean_components rooted rest stack
      else if String.eqb c ".." then
        match stack with
        | top :: below =>
            if String.eqb top ".." then clean_components rooted rest (c :: stack)
            else clean_components rooted rest below
        | [] =>
            if rooted then clean_components rooted rest stack
            else clean_components rooted rest [c]
        end
      else clean_components rooted rest (c :: stack)
  end.

Definition path_Clean (path : string) : string :=
  let rooted := strings_HasPrefix path "/" in
  let body := join_with "/" (clean_components rooted (split_on "/" path) []) in
  let out := if rooted then ("/" ++ body)%string else body in
  if String.eqb out EmptyString then "." else out.

Definition path_Join (elems : list string) : string :=
  match List.filter (fun e => negb (String.eqb e EmptyString)) elems with
  | [] => EmptyString
  | kept => path_Clean (join_with "/" kept)
  end.

Definition path_Dir (path : string) : string :=
  path_Clean (join_with "/" (List.removelast (split_on "/" path)) ++ "/").

(** [strings.ToLower] on ASCII letters. *)
Definition ascii_lower (c : ascii) : ascii :=
  let n := N_of_ascii c in
  if (65 <=? n)%N && (n <=? 90)%N then ascii_of_N (n + 32) else c.

Fixpoint lower_ascii (s : string) : string :=
  match s with
  | EmptyString => EmptyString
  | String c s' => String (ascii_lower c) (lower_ascii s')
  end.

(** Decimal numbers and versions of the form vMAJOR.MINOR.PATCH. *)
Fixpoint digits_value (s : string) (acc : N) : option N :=
  match s with
  | EmptyString => Some acc
  | String c s' =>
      let n := N_of_ascii c in
      if (48 <=? n)%N && (n <=? 57)%N then digits_value s' (acc * 10 + (n - 48)) else None
  end.

Definition number (s : string) : option N :=
  match s with
  | EmptyString => None
  | _ => digits_value s 0
  end.

Definition parse_version (v : string) : option (N * N * N) :=
  match v with
  | String c rest =>
      if Ascii.eqb c "v" then
        match List.map number (split_on "." rest) with
        | [Some a; Some b; Some c] => Some (a, b, c)
        | _ => None
        end
      else None
  | EmptyString => None
  end.

(** [semver.Compare] on versions without pre-release or build suffix; a
    string that is not a version sorts before every version. *)
Definition compare_versions (v w : string) : Z :=
  match parse_version v, parse_version w with
  | None, None => 0
  | None, Some _ => -1
  | Some _, None => 1
  | Some (a, b, c), Some (a', b', c') =>
      match N.compare a a' with
      | Lt => -1 | Gt => 1
      | Eq =>
          match N.compare b b' with
          | Lt => -1 | Gt => 1
          | Eq => match N.compare c c' with Lt => -1 | Gt => 1 | Eq => 0 end
          end
      end
  end.

Definition double_quote : string := String (byte_of 34) EmptyString.

(** A Unix machine where the home directory is /home/u. *)
Definition unix_libs : Libs :=
  {| strings_ToLower := lower_ascii;
     semver_Compare := compare_versions;
     strconv_Quote := fun s => (double_quote ++ s ++ double_quote)%string;
     filepath_Join := path_Join;
     filepath_Dir := path_Dir;
     os_UserHomeDir := ("/home/u", None);
     time_Now := "2024-05-01T12:00:00Z" |}.

(** The same machine with $HOME unset. *)
Definition homeless_libs : Libs :=
  {| strings_ToLower := lower_ascii;
     semver_Compare := compare_versions;
     strconv_Quote := fun s => (double_quote ++ s ++ double_quote)%string;
     filepath_Join := path_Join;
     filepath_Dir := path_Dir;
     os_UserHomeDir := (EmptyString, Some (errors_New "$HOME is not defined"));
     time_Now := "2024-05-01T12:00:00Z" |}.

(** An encoder that writes the paths of the entries, one per line. *)
Definition lines_json : cache.Json :=
  {| cache.json_MarshalIndent := fun metadata =>
       (join_with (String LF EmptyString)
          (List.map fst (map_to_list (cache.UserRequest metadata))), None) |}.



(** A stateless double of [cache.Executor]: the cache paths that exist and
    the error of every [Mount]. *)
Definition fixed_cache_exec (existing : list string) (mountErr : option error)
    : cache.Executor unit :=
  {| cache.Exec_DiskUsage path := fun s =>
       ((cache.DiskUsage_zero, Some (errors_New "running df: exit status 1")), s);
     cache.Exec_MkdirAll path perm := fun s => (None, s);
     cache.Exec_Mount from to := fun s => (mountErr, s);
     cache.Exec_RemoveAll name := fun s => (None, s);
     cache.Exec_Stat name := fun s =>
       if existsb (String.eqb name) existing then (None, s)
       else (Some (path_error "stat" name os_ErrNotExist), s);
     cache.Exec_WriteFile name data perm := fun s => (None, s) |}.

(** [MountRequest{}] *)
Definition MountRequest_zero : cache.MountRequest :=
  {| cache.DetectAllModes := false; cache.DetectModes := [];
     cache.ManualModes := []; cache.ManualPaths := [] |}.


(** Two registries of doubles: in the first both providers succeed, in the
    second go fails in [Detect] and in [Plan]. *)
Definition apt_go_modes : mode.Modes :=
  [fixed_provider "apt" (true, None) (plan_of ["/var/cache/apt/archives"], None);
   fixed_provider "go" (true, None) (plan_of ["/go/cache"; "/go/mod"], None)].

Definition failing_modes : mode.Modes :=
  [fixed_provider "apt" (true, None) (plan_of ["/var/cache/apt/archives"], None);
   fixed_provider "go" (false, Some (errors_New "exit status 2"))
     (mode.PlanResult_zero, Some (errors_New "exit status 2"))].







(** Machines with an old and with a new pnpm; the old one prints a warning
    before the store path. *)
Definition old_pnpm_exec : mode.Executor unit :=
  fixed_exec ["pnpm"] ["pnpm-lock.yaml"]
    [ (["pnpm"; "--version"], "9.6.0" ++ String LF EmptyString);
      (["pnpm"; "store"; "path"; "--loglevel"; "error"],
       mode.pnpmWarningPrefix ++ " some warning" ++ String LF EmptyString
       ++ "/home/u/.local/share/pnpm/store/v3" ++ String LF EmptyString) ]%string.

Definition new_pnpm_exec : mode.Executor unit :=
  fixed_exec ["pnpm"] ["pnpm-lock.yaml"]
    [ (["pnpm"; "--version"], "9.7.0" ++ String LF EmptyString);
      (["pnpm"; "store"; "path"; "--loglevel"; "error"],
       "/home/u/.local/share/pnpm/store/v3" ++ String LF EmptyString) ]%string.

(** Machines with golangci-lint: one whose cache status names no
    directory, one whose cache status is a single line of 131072 bytes. *)
Definition lint_exec (status : string) : mode.Executor unit :=
  fixed_exec ["golangci-lint"] [".golangci.yml"]
    [ (["golangci-lint"; "cache"; "status"], status) ].

Definition size_only_status : string := ("Size: 123MB" ++ String LF EmptyString)%string.

Fixpoint doubled (n : nat) (s : string) : string :=
  match n with
  | O => s
  | Datatypes.S k => doubled k (s ++ s)
  end.

Definition long_status : string := doubled 17 "a".

(** A line has the prefix [GolangCILintProvider.Plan] looks for. *)
Definition names_dir {libs : Libs} (text : string) : bool :=
  strings_HasPrefix (strings_ToLower (strings_TrimSpace text))
    mode.golangCILintCacheDirPrefix.

(** * Reading white space *)

(** A string made of white-space runes only. *)
Inductive white : string -> Prop :=
| white_nil : white EmptyString
| white_cons (w s : string) :
    In w space_encodings -> white s -> white (w ++ s)%string.

(** [d] neither starts nor ends with a white-space rune. *)
Definition trimmed (d : string) : Prop :=
  leading_space d = None /\ trailing_space (string_rev d) = None.

(** * Reading the calls of a provider *)

(** What [Detect] looks at after the binary: the marker files it stats, or
    for Xcode the directory it lists. *)
Definition probes (p : mode.Provider) : list mode.Call :=
  match p with
  | mode.XcodeProvider => [mode.CallReadDir "."]
  | _ => List.map mode.CallStat (marker_files p)
  end.


(** A call [Plan] may make: a command, and for apt a stat. *)
Definition plan_call (p : mode.Provider) (c : mode.Call) : Prop :=
  match c with
  | mode.CallOutput _ => True
  | mode.CallStat _ => p = mode.AptProvider
  | _ => False
  end.

(** Ascending byte-wise order. *)
Definition string_le (a b : string) : Prop := String.leb a b = true.

(** * Reading a response *)

(** The mount paths of the plans with the mode that asks for each, the
    paths the plans ask to remove and the variables they set, in the order
    [plan] lists the plans; a plan listed later overrides the variables of
    the ones before it. *)
Definition plan_paths (plan : list (string * mode.PlanResult)) : list (string * string) :=
  List.flat_map (fun np => List.map (pair (fst np)) (mode.MountPaths (snd np))) plan.

Definition plan_removes (plan : list (string * mode.PlanResult)) : list string :=
  List.flat_map (fun np => mode.RemovePaths (snd np)) plan.

Definition plan_envs (plan : list (string * mode.PlanResult)) (envs : gmap string string)
    : gmap string string :=
  List.fold_left (fun acc np => mode.AddEnvs (snd np) ∪ acc) plan envs.

(** [mt] is an entry for the path [path] asked for by mode [modeName],
    with the cache root [root]: the mount path is [path] with the home
    directory resolved and the cache path is that path under the root. *)
Definition entry_for {libs : Libs} (root : string) (request : string * string)
    (mt : cache.MountResult) : Prop :=
  exists resolved,
    cache.resolveHome (snd request) = (resolved, None)
    /\ cache.Mode mt = fst request
    /\ cache.MountPath mt = resolved
    /\ cache.CachePath mt = filepath_Join [root; resolved].

(** The response [r] with more mounts, more removed paths and other
    variables. *)
Definition grown (new : list cache.MountResult) (removed : list string)
    (envs : gmap string string) (r : cache.MountResponse) : cache.MountResponse :=
  {| cache.Input := cache.Input r;
     cache.Output :=
       {| cache.Output_DestructiveMode := cache.Output_DestructiveMode (cache.Output r);
          cache.Output_AddEnvs := envs;
          cache.Output_DiskUsage := cache.Output_DiskUsage (cache.Output r);
          cache.Mounts := cache.Mounts (cache.Output r) ++ new;
          cache.RemovedPaths := cache.RemovedPaths (cache.Output r) ++ removed |} |}.

(** The [Mount] and the [RemoveAll] calls of a log, with their arguments. *)
Definition mount_calls (log : list cache.Event) : list (string * string) :=
  omap (fun ev =>
          match ev with
          | cache.EvMount from to _ => Some (from, to)
          | _ => None
          end) log.

Definition remove_calls (log : list cache.Event) : list string :=
  omap (fun ev =>
          match ev with
          | cache.EvRemoveAll name _ => Some name
          | _ => None
          end) log.

(** The calls of the mounting phase of a run that succeeds: stats, and
    mounts and removals that returned no error. *)
Definition mount_phase (ev : cache.Event) : Prop :=
  match ev with
  | cache.EvStat _ _ => True
  | cache.EvMount _ _ None => True
  | cache.EvRemoveAll _ None => True
  | _ => False
  end.

(** The cache path and the mount path of each entry. *)
Definition mounted (mounts : list cache.MountResult) : list (string * string) :=
  List.map (fun mt => (cache.CachePath mt, cache.MountPath mt)) mounts.

(** What the log of a destructive run has to do with the response, as long
    as the run succeeds. *)
Definition Logged (destructive : bool) (r : cache.MountResponse) (log : list cache.Event)
    : Prop :=
  Forall mount_phase log
  /\ (destructive = true ->
      mount_calls log = mounted (cache.Mounts (cache.Output r))
      /\ remove_calls log = cache.RemovedPaths (cache.Output r)).

(** The metadata entry [writeMetadata] stores for a mount. *)
Definition entry_of (mt : cache.MountResult) : cache.CacheMetadataEntry :=
  {| cache.CacheFramework :=
       if String.eqb (cache.Mode mt) EmptyString then None else Some (cache.Mode mt);
     cache.MountTarget := [cache.MountPath mt];
     cache.Source := "space" |}.

(** A request that names a mode or a path. *)
Definition asks (req : cache.MountRequest) : Prop :=
  cache.DetectAllModes req = true \/ cache.DetectModes req <> []
  \/ cache.ManualModes req <> [] \/ cache.ManualPaths req <> [].

(** No white-space rune starts anywhere in [s]. *)
Definition space_free (s : string) : Prop :=
  forall a b, s = (a ++ b)%string -> leading_space b = None.

(** * More doubles *)

Definition permission_denied : error := errors_New "permission denied".

(** A stateless double of [mode.Executor] whose lookups all return
    [lookErr] and whose stats return what [statErr] gives for the name. *)
Definition faulty_exec (lookErr : option error) (statErr : string -> option error)
    : mode.Executor unit :=
  {| mode.LookPath file := fun s =>
       match lookErr with
       | None => ((("/usr/bin/" ++ file)%string, None), s)
       | Some e => ((EmptyString, Some e), s)
       end;
     mode.Output cmd := fun s => ((EmptyString, Some (errors_New "exit status 1")), s);
     mode.Stat name := fun s => (statErr name, s);
     mode.ReadDir name := fun s => (([], None), s) |}.

(** A working directory with a go.work file that may not be read. *)
Definition unreadable_go_work (name : string) : option error :=
  if String.eqb name "go.mod" then Some (path_error "stat" name os_ErrNotExist)
  else Some (path_error "stat" name permission_denied).


(** A cache status of golangci-lint that names the directory on its second
    line. *)
Definition dir_status : string :=
  ("Size: 123MB" ++ String LF EmptyString
   ++ "Dir: /home/u/.cache/golangci-lint" ++ String LF EmptyString)%string.

(** A provider double that plans as [SwiftPMProvider.Plan] does, and a
    registry that holds it next to a provider named "xcode". *)
Definition swiftpm_provider : mode.ModeProvider :=
  {| mode.Name := "swiftpm";
     mode.Detect := fun _ => (true, None);
     mode.Plan := fun req =>
       fst (mode.SwiftPMProvider_Plan (S := unit) (mode.enabledModes req) tt) |}.

Definition swift_xcode_modes : mode.Modes :=
  [swiftpm_provider;
   fixed_provider "xcode" (true, None)
     (plan_of ["~/Library/Developer/Xcode/DerivedData/CompilationCache.noindex"], None)].

(** A request that names go as a manual mode and asks to detect it too, and
    the values of a [--detect] flag that holds the wildcard next to a
    name. *)
Definition go_twice_request : cache.MountRequest :=
  {| cache.DetectAllModes := false; cache.DetectModes := ["go"];
     cache.ManualModes := ["go"]; cache.ManualPaths := [] |}.

(** What df prints on the sample machine: a header and one line for the
    volume. *)
Definition df_output : string :=
  ("Filesystem      Size  Used Avail Use% Mounted on" ++ String LF EmptyString
   ++ "/dev/sda1        50G   12G   36G  25% /cache" ++ String LF EmptyString)%string.




(** A registry of doubles whose plans remove a path and set a variable,
    a mounter over it and a request for both modes and one path. *)
Definition apt_uv_modes : mode.Modes :=
  [fixed_provider "apt" (true, None)
     ({| mode.AddEnvs := ∅; mode.MountPaths := ["/var/cache/apt/archives"];
         mode.RemovePaths := ["/etc/apt/apt.conf.d/docker-clean"] |}, None);
   fixed_provider "uv" (true, None)
     ({| mode.AddEnvs := {[ "UV_LINK_MODE" := "symlink" ]};
         mode.MountPaths := ["/home/u/.cache/uv"]; mode.RemovePaths := [] |}, None)].

Definition apt_uv_mounter (destructive : bool) : cache.Mounter unit :=
  {| cache.DestructiveMode := destructive; cache.CacheRoot := "/cache";
     cache.Exec := fixed_cache_exec ["/cache/home/u/.cache/uv"] None;
     cache.Modes := apt_uv_modes |}.

Definition apt_uv_request : cache.MountRequest :=
  {| cache.DetectAllModes := false; cache.DetectModes := [];
     cache.ManualModes := ["apt"; "uv"]; cache.ManualPaths := ["~/.cache/x"] |}.

(** ** The traces of the default executor *)

(** A path at which the loop of [ancestors] stops. *)
Definition top_dir (p : string) : Prop := p = "/" \/ p = ".".

(** [filepath.Dir] never returns a longer path: the directory of a path
    is "/", "." or shorter than the path. *)
Definition Dir_shortens {libs : Libs} : Prop :=
  forall p : string,
    ~ top_dir p ->
    top_dir (filepath_Dir p) \/ String.length (filepath_Dir p) < String.length p.

(** The paths from [p] upwards, as the first loop of [ancestors] collects
    them. *)
Inductive descent {libs : Libs} : string -> list string -> Prop :=
| descent_top (p : string) : top_dir p -> descent p []
| descent_up (p : string) (d : list string) :
    ~ top_dir p -> descent (filepath_Dir p) d -> descent p (p :: d).

(** A bound on the rounds of the first loop of [ancestors]. *)
Definition rounds (p : string) : nat :=
  if String.eqb p "/" || String.eqb p "." then 0 else Datatypes.S (String.length p).

(** Every path of the list is the directory of the next one. *)
Fixpoint climbs {libs : Libs} (l : list string) : Prop :=
  match l with
  | a :: (b :: _) as rest => filepath_Dir b = a /\ climbs rest
  | _ => True
  end.

(** The files of which the log holds a [os.Stat], with the error. *)
Definition stats (log : list cache.OSEvent) : list (string * option error) :=
  flat_map (fun ev => match ev with
                      | cache.OsStat name err => [(name, err)]
                      | _ => []
                      end) log.

(** The files of which a [os.Stat] failed. *)
Definition missing (log : list cache.OSEvent) : list string :=
  map fst (List.filter (fun st => match snd st with Some _ => true | None => false end)
             (stats log)).

(** The commands of the log. *)
Definition commands (log : list cache.OSEvent) : list (list string) :=
  flat_map (fun ev => match ev with
                      | cache.OsCommand cmd _ => [cmd]
                      | _ => []
                      end) log.

(** The two commands that make a directory the user's own: [made] pairs the
    directory with the owner, uid:gid. *)
Definition provision (made : list (string * string)) : list (list string) :=
  flat_map (fun d => [["sudo"; "mkdir"; fst d]; ["sudo"; "chown"; snd d; fst d]]) made.

(** The calls after which the executor goes on: those without an error, and
    the look at a file that does not exist. *)
Definition tolerated (ev : cache.OSEvent) : Prop :=
  match ev with
  | cache.OsStat _ (Some e) | cache.OsLstat _ _ (Some e) | cache.OsReadDir _ (Some e) =>
      errors_Is e os_ErrNotExist = true
  | cache.OsMkdirAll _ _ (Some _) | cache.OsWriteFile _ _ _ (Some _)
  | cache.OsCommand _ (Some _) | cache.OsCurrentUser (Some _) | cache.OsAbs _ (Some _) =>
      False
  | _ => True
  end.

(** [filepath.Dir] on a clean path: the path without its last element. *)
Fixpoint drop_element (reversed : string) : string :=
  match reversed with
  | EmptyString => EmptyString
  | String c rest => if Ascii.eqb c "/" then rest else drop_element rest
  end.

Definition clean_Dir (path : string) : string :=
  if negb (existsb (Ascii.eqb "/") (list_ascii_of_string path)) then "."
  else
    let dir := string_rev (drop_element (string_rev path)) in
    if String.eqb dir EmptyString then "/" else dir.

Definition clean_libs : Libs :=
  {| strings_ToLower := lower_ascii;
     semver_Compare := compare_versions;
     strconv_Quote := fun s => (double_quote ++ s ++ double_quote)%string;
     filepath_Join := path_Join;
     filepath_Dir := clean_Dir;
     os_UserHomeDir := ("/home/u", None);
     time_Now := "2024-05-01T12:00:00Z" |}.

(** A machine of which the state is the list of its directories and the
    list of its other files: sudo mkdir and [os.MkdirAll] add a directory,
    sudo rm -rf removes a file, df prints [df_output], and the user is 1000
    of group 1000. *)
Definition machine : cache.OS (list string * list string) :=
  {| cache.os_Stat name := fun fs =>
       if existsb (String.eqb name) (fst fs) then ((true, None), fs)
       else if existsb (String.eqb name) (snd fs) then ((false, None), fs)
       else ((false, Some (path_error "stat" name os_ErrNotExist)), fs);
     cache.os_Lstat name := fun fs =>
       if existsb (String.eqb name) (fst fs) then ((Some true, None), fs)
       else if existsb (String.eqb name) (snd fs) then ((Some false, None), fs)
       else ((None, Some (path_error "lstat" name os_ErrNotExist)), fs);
     cache.os_ReadDir name := fun fs =>
       if existsb (String.eqb name) (fst fs) then ((0, None), fs)
       else ((0, Some (path_error "open" name os_ErrNotExist)), fs);
     cache.os_MkdirAll path perm := fun fs => (None, (fst fs ++ [path], snd fs));
     cache.os_WriteFile name data perm := fun fs => (None, fs);
     cache.cmd_Output cmd := fun fs =>
       match cmd with
       | [tool; arg; dir] =>
           if String.eqb tool "sudo" && String.eqb arg "mkdir"
           then ((EmptyString, None), (fst fs ++ [dir], snd fs))
           else if String.eqb tool "df" then ((df_output, None), fs)
           else ((EmptyString, None), fs)
       | [tool; arg; flag; file] =>
           if String.eqb tool "sudo" && String.eqb arg "rm"
           then ((EmptyString, None),
                 (List.filter (fun d => negb (String.eqb d file)) (fst fs),
                  List.filter (fun f => negb (String.eqb f file)) (snd fs)))
           else ((EmptyString, None), fs)
       | _ => ((EmptyString, None), fs)
       end;
     cache.user_Current := fun fs => ((("1000", "1000"), None), fs);
     cache.filepath_Abs path := fun fs => ((path, None), fs) |}.

(** The error of a call. *)
Definition event_error (ev : cache.OSEvent) : option error :=
  match ev with
  | cache.OsStat _ e | cache.OsLstat _ _ e | cache.OsReadDir _ e
  | cache.OsMkdirAll _ _ e | cache.OsWriteFile _ _ _ e | cache.OsCommand _ e
  | cache.OsCurrentUser e | cache.OsAbs _ e => e
  end.

(** [target] is [err] or is reached from it by [errors.Unwrap]. *)
Fixpoint unwraps_to (err target : error) : Prop :=
  err = target \/
  match err with
  | Wrapped _ inner => unwraps_to inner target
  | _ => False
  end.

(** The log of a run that went on after every call but the last one, and
    that returned an error exactly when the last call was not tolerated; the
    error then unwraps to the error of that call. *)
Definition fail_fast (r : option error) (evs : list cache.OSEvent) : Prop :=
  match r with
  | None => Forall tolerated evs
  | Some err =>
      exists init last e,
        evs = init ++ [last] /\ Forall tolerated init /\ ~ tolerated last
        /\ event_error last = Some e /\ unwraps_to err e
  end.

(** The log of a run of [sudoMkdirP] over [dirs] that made every directory
    that was missing. *)
Definition laid (dirs : list string) (evs : list cache.OSEvent) : Prop :=
  map fst (stats evs) = dirs
  /\ exists made, map fst made = missing evs /\ commands evs = provision made.

(** The run [out] added [evs] to the log, and [P] holds of its result and
    of [evs]. *)
Definition appends {A S : Type} (out : A * (S * list cache.OSEvent))
    (log : list cache.OSEvent) (P : A -> list cache.OSEvent -> Prop) : Prop :=
  exists evs, snd (snd out) = log ++ evs /\ P (fst out) evs.

(** The log of a bind mount that went through: the look at the target, the
    removal of a target that is no directory, the directories above the
    target and the target itself, and the mount. *)
Definition bound {libs : Libs} (from to : string) (evs : list cache.OSEvent) : Prop :=
  exists info err rest,
    evs = cache.OsLstat to info err :: rest
    /\ map fst (stats evs) = cache.ancestors to
    /\ exists made,
         map fst made = missing evs
         /\ commands evs
            = match info with
              | Some false => [["sudo"; "rm"; "-rf"; to]]
              | _ => []
              end
              ++ provision made ++ [["sudo"; "mount"; "--bind"; from; to]].

(** The log of a mount by symbolic link that went through: the directories
    above the target, the removal of the target, the link, and the change
    of its owner. *)
Definition linked {libs : Libs} (from to : string) (evs : list cache.OSEvent) : Prop :=
  map fst (stats evs) = cache.ancestors (filepath_Dir to)
  /\ exists made owner,
       map fst made = missing evs
       /\ commands evs
          = provision made
            ++ [["sudo"; "rm"; "-rf"; to]; ["sudo"; "ln"; "-sfn"; from; to];
                ["sudo"; "chown"; owner; to]].

(** ** The apt provider *)

(** The setting the loop of [AptProvider.Plan] keeps of a line of
    apt-config dump, if it keeps one. *)
Definition apt_line {dec : Decoders} (text : string) : option (string * string) :=
  let line := strings_TrimSpace text in
  if String.eqb line EmptyString then None
  else
    match aptConfigRegex_FindStringSubmatch line with
    | [_; key; value] =>
        if String.eqb key mode.aptDirCacheKey || String.eqb key mode.aptDirCacheArchivesKey
           || String.eqb key mode.aptDirEtcKey || String.eqb key mode.aptDirEtcPartsKey
        then Some (key, value)
        else None
    | _ => None
    end.

(** [value] is what the last line of [lines] with a setting of [key] gives. *)
Definition last_setting {dec : Decoders} (lines : list string) (key value : string) : Prop :=
  exists before text after,
    lines = before ++ text :: after
    /\ apt_line text = Some (key, value)
    /\ Forall (fun t => forall v, apt_line t <> Some (key, v)) after.

(** The pattern of the apt provider on a line with a single space, and what
    apt-config dump prints on the sample machine. *)
Definition apt_decoders : Decoders :=
  {| json_Unmarshal_strings := fun _ =>
       (∅, Some (errors_New "unexpected end of JSON input"));
     json_Unmarshal_any := fun _ =>
       (∅, Some (errors_New "unexpected end of JSON input"));
     aptConfigRegex_FindStringSubmatch := fun line =>
       match split_on " " line with
       | [key; quoted] =>
           if strings_HasPrefix quoted double_quote
              && strings_HasSuffix quoted (double_quote ++ ";")
              && Nat.leb 3 (String.length quoted)
           then [line; key; String.substring 1 (String.length quoted - 3) quoted]
           else []
       | _ => []
       end |}.

Definition apt_dump : string :=
  String.concat (String LF EmptyString)
    ["APT " ++ double_quote ++ double_quote ++ ";";
     "Dir::Cache " ++ double_quote ++ "var/cache/apt" ++ double_quote ++ ";";
     "Dir::Cache::archives " ++ double_quote ++ "archives" ++ double_quote ++ ";";
     "Dir::Etc " ++ double_quote ++ "etc/apt" ++ double_quote ++ ";";
     "Dir::Etc::parts " ++ double_quote ++ "apt.conf.d" ++ double_quote ++ ";";
     "Dir::Cache " ++ double_quote ++ "tmp/apt" ++ double_quote ++ ";";
     EmptyString]%string.

Definition apt_exec : mode.Executor unit :=
  fixed_exec ["apt-config"] ["/etc/apt/apt.conf.d/docker-clean"]
    [(["apt-config"; "dump"], apt_dump)].

(** * Properties *)

Lemma string_app_assoc (a b c : string) : ((a ++ b) ++ c = a ++ (b ++ c))%string.
Proof.
  induction a as [|x a IH]; [reflexivity|].
  change (String x ((a ++ b) ++ c) = String x (a ++ (b ++ c)))%string.
  f_equal. exact IH.
Qed.

Section ProviderDetect.
Context {S : Type} (Exec : mode.Executor S).

Ltac run_detect :=
  cbn [mode.Provider_Detect binary marker_files];
  unfold mode.AptProvider_Detect, mode.BrewProvider_Detect, mode.BunProvider_Detect,
    mode.CocoapodsProvider_Detect, mode.ComposerProvider_Detect,
    mode.DenoProvider_Detect, mode.GoProvider_Detect,
    mode.GolangCILintProvider_Detect, mode.GradleProvider_Detect,
    mode.MavenProvider_Detect, mode.MiseProvider_Detect, mode.NixProvider_Detect,
    mode.PlaywrightProvider_Detect, mode.PnpmProvider_Detect,
    mode.PoetryProvider_Detect, mode.PythonProvider_Detect,
    mode.RubyProvider_Detect, mode.RustProvider_Detect,
    mode.SwiftPMProvider_Detect, mode.UVProvider_Detect,
    mode.XcodeProvider_Detect, mode.YarnProvider_Detect,
    mode.GoProvider_Detect_old, mode.GolangCILintProvider_Detect_old,
    bind, ret.

(** C6. Whatever the provider, when looking up its binary fails with an
    error that is [exec.ErrNotFound], [Detect] returns [(false, nil)]; so
    do the two binary-only detectors of the earlier revision. *)
Theorem Detect_binary_not_found :
  forall (s s' : S) (path : string) (e : error),
    errors_Is e exec_ErrNotFound = true ->
    (forall p, mode.LookPath Exec (binary p) s = ((path, Some e), s') ->
               mode.Provider_Detect Exec p s = ((false, None), s'))
    /\ (mode.LookPath Exec "go" s = ((path, Some e), s') ->
        mode.GoProvider_Detect_old Exec s = ((false, None), s'))
    /\ (mode.LookPath Exec "golangci-lint" s = ((path, Some e), s') ->
        mode.GolangCILintProvider_Detect_old Exec s = ((false, None), s')).
Proof.
  intros s s' path e He. repeat split.
  - intros p Hl. destruct p; run_detect; cbn [binary] in Hl; rewrite Hl, He; reflexivity.
  - intros Hl. run_detect. rewrite Hl, He. reflexivity.
  - intros Hl. run_detect. rewrite Hl, He. reflexivity.
Qed.

Lemma absent_inv (e : error) : absent (Some e) <-> errors_Is e os_ErrNotExist = true.
Proof.
  split.
  - intros (e' & Heq & He). congruence.
  - intros He. exists e. auto.
Qed.

Lemma absent_None : ~ absent None.
Proof. intros (e & Heq & _). discriminate. Qed.

Lemma Detect_files_true (files : list string) (s : S) :
  fst (mode.Detect_files Exec files s) = (true, None) <->
  exists pre post, stat_seq Exec files s = pre ++ None :: post /\ Forall absent pre.
Proof.
  revert s. induction files as [|file rest IH]; intros s; cbn [mode.Detect_files stat_seq].
  - unfold ret. cbn. split; [discriminate|].
    intros (pre & post & Heq & _). destruct pre; discriminate.
  - unfold bind. destruct (mode.Stat Exec file s) as [[e|] s1].
    + destruct (errors_Is e os_ErrNotExist) eqn:He; cbn [negb].
      * rewrite IH. split.
        -- intros (pre & post & Heq & Hpre). exists (Some e :: pre), post.
           split; [cbn; congruence|]. constructor; [by apply absent_inv|done].
        -- intros (pre & post & Heq & Hpre). destruct pre as [|r pre]; [discriminate|].
           cbn in Heq. injection Heq as Hr Heq; subst r. inversion Hpre; subst. eauto.
      * unfold ret. cbn. split; [discriminate|].
        intros (pre & post & Heq & Hpre). destruct pre as [|r pre]; [discriminate|].
        cbn in Heq. injection Heq as Hr Heq; subst r. inversion Hpre as [|? ? Ha _]; subst.
        apply absent_inv in Ha. congruence.
    + unfold ret. cbn. split; [|done]. intros _. exists [], (stat_seq Exec rest s1).
      split; [done|constructor].
Qed.

Lemma Detect_files_false (files : list string) (s : S) :
  fst (mode.Detect_files Exec files s) = (false, None) <->
  Forall absent (stat_seq Exec files s).
Proof.
  revert s. induction files as [|file rest IH]; intros s; cbn [mode.Detect_files stat_seq].
  - unfold ret. cbn. split; [constructor|done].
  - unfold bind. destruct (mode.Stat Exec file s) as [[e|] s1].
    + destruct (errors_Is e os_ErrNotExist) eqn:He; cbn [negb].
      * rewrite IH. split.
        -- intros Hr. constructor; [by apply absent_inv|done].
        -- intros Hr. by inversion Hr.
      * unfold ret. cbn. split; [discriminate|].
        intros Hr. inversion Hr as [|? ? Ha _]; subst. apply absent_inv in Ha. congruence.
    + unfold ret. cbn. split; [discriminate|].
      intros Hr. inversion Hr as [|? ? Ha _]; subst. by apply absent_None in Ha.
Qed.

(** Every detector with marker files looks up its binary and then stats
    the files in turn. *)
Lemma Detect_as_files (p : mode.Provider) (s : S) :
  marker_files p <> [] ->
  mode.Provider_Detect Exec p s =
  (let (r, s1) := mode.LookPath Exec (binary p) s in
   match snd r with
   | Some err =>
       if errors_Is err exec_ErrNotFound then ((false, None), s1)
       else ((false, Some (fmt_Errorf ("lookpath " ++ binary p) err)), s1)
   | None => mode.Detect_files Exec (marker_files p) s1
   end).
Proof.
  intros Hm.
  destruct p; try (exfalso; apply Hm; reflexivity); run_detect;
    destruct (mode.LookPath Exec _ s) as [[path [e|]] s1]; cbn [snd];
    try reflexivity;
    try (destruct (errors_Is e exec_ErrNotFound); reflexivity);
    cbn [mode.Detect_files mode.miseConfigFiles mode.nixProjectFiles];
    unfold bind, ret;
    try reflexivity;
    repeat (match goal with
            | |- context [mode.Stat Exec ?f ?st] =>
                destruct (mode.Stat Exec f st) as [[?|] ?]
            | |- context [errors_Is ?x os_ErrNotExist] =>
                destruct (errors_Is x os_ErrNotExist)
            end; cbn [negb]; try reflexivity).
Qed.

(** C7, amended. For a provider with marker files, [Detect] returns
    [(true, nil)] exactly when the binary resolves and a marker file stats
    successfully, those before it being absent; it returns [(false, nil)]
    exactly when the binary is not found, or the binary resolves and every
    marker file is absent. With one marker file these read: the binary
    resolves and the file stats successfully; the binary is not found, or it
    resolves and the file is absent. *)
Theorem Detect_marker_files :
  forall (p : mode.Provider) (s : S),
    marker_files p <> [] ->
    let lookup := mode.LookPath Exec (binary p) s in
    let rs := stat_seq Exec (marker_files p) (snd lookup) in
    (fst (mode.Provider_Detect Exec p s) = (true, None) <->
       snd (fst lookup) = None /\
       exists pre post, rs = pre ++ None :: post /\ Forall absent pre)
    /\ (fst (mode.Provider_Detect Exec p s) = (false, None) <->
         not_found (snd (fst lookup)) \/
         (snd (fst lookup) = None /\ Forall absent rs)).
Proof.
  intros p s Hm lookup rs. subst lookup rs.
  rewrite (Detect_as_files p s Hm).
  destruct (mode.LookPath Exec (binary p) s) as [[path [e|]] s1]; cbn [fst snd].
  - destruct (errors_Is e exec_ErrNotFound) eqn:He; cbn [fst]; split; split.
    + discriminate.
    + intros [? _]. discriminate.
    + intros _. left. exists e. auto.
    + done.
    + discriminate.
    + intros [? _]. discriminate.
    + discriminate.
    + intros [(e' & Heq & He')|[? _]]; [|discriminate]. congruence.
  - rewrite Detect_files_true, Detect_files_false. split; split.
    + intros Hx. split; [done|exact Hx].
    + intros [_ Hx]. exact Hx.
    + intros Hx. right. split; [done|exact Hx].
    + intros [(e' & Heq & _)|[_ Hx]]; [discriminate|exact Hx].
Qed.

End ProviderDetect.

(** Witness of [Detect_binary_not_found]: apt on a machine without
    apt-config. *)
Lemma Detect_binary_not_found_witness :
  errors_Is (path_error "exec:" "apt-config" exec_ErrNotFound) exec_ErrNotFound = true
  /\ mode.Provider_Detect (fixed_exec [] [] []) mode.AptProvider tt = ((false, None), tt).
Proof.
  split; [reflexivity|].
  apply (proj1 (Detect_binary_not_found (fixed_exec [] [] []) tt tt EmptyString
                  (path_error "exec:" "apt-config" exec_ErrNotFound) eq_refl)
           mode.AptProvider).
  reflexivity.
Defined.

(** Witness of [Detect_marker_files]: brew with its Brewfile present. *)
Lemma Detect_marker_files_witness :
  marker_files mode.BrewProvider <> []
  /\ fst (mode.Provider_Detect (fixed_exec ["brew"] ["Brewfile"] []) mode.BrewProvider tt)
     = (true, None).
Proof.
  split; [discriminate|].
  apply (proj1 (Detect_marker_files (fixed_exec ["brew"] ["Brewfile"] [])
                  mode.BrewProvider tt ltac:(discriminate))).
  split; [reflexivity|]. exists [], []. split; [reflexivity|constructor].
Defined.

(** Counterexample to C7 as stated: without brew on the path [Detect] returns
    [(false, nil)] although the binary does not resolve. *)
Lemma Detect_marker_files_counterexample :
  let Exec := fixed_exec [] ["Brewfile"] [] in
  let lookup := mode.LookPath Exec "brew" tt in
  ~ (fst (mode.Provider_Detect Exec mode.BrewProvider tt) = (false, None) <->
     snd (fst lookup) = None /\ absent (fst (mode.Stat Exec mode.brewfile (snd lookup)))).
Proof.
  cbv zeta. intros [Hlr _].
  assert (Hd : fst (mode.Provider_Detect (fixed_exec [] ["Brewfile"] [])
                      mode.BrewProvider tt) = (false, None)) by reflexivity.
  destruct (Hlr Hd) as [Hres _]. discriminate Hres.
Qed.

Section Registry.
Context {rt : mode.Runtime}.

Lemma available_lookup (modes : mode.Modes) (acc : gmap string mode.ModeProvider)
    (name : string) (p : mode.ModeProvider) :
  List.fold_left (fun avail mode => <[mode.Name mode := mode]> avail) modes acc !! name
    = Some p ->
  acc !! name = Some p \/ (In p modes /\ mode.Name p = name).
Proof.
  revert acc. induction modes as [|m modes IH]; intros acc; cbn [List.fold_left].
  - auto.
  - intros Hl. destruct (IH _ Hl) as [Hacc|[Hin Hn]].
    + destruct (decide (mode.Name m = name)) as [<-|Hne].
      * rewrite lookup_insert_eq in Hacc. injection Hacc as <-. right. split; [left|]; done.
      * rewrite lookup_insert_ne in Hacc by done. auto.
    + right. split; [right|]; done.
Qed.

Lemma available_known (modes : mode.Modes) (acc : gmap string mode.ModeProvider)
    (name : string) :
  known modes name \/ is_Some (acc !! name) ->
  is_Some (List.fold_left (fun avail mode => <[mode.Name mode := mode]> avail) modes acc
             !! name).
Proof.
  unfold known. revert acc.
  induction modes as [|m modes IH]; intros acc; cbn [List.fold_left List.map].
  - intros [[]|Hacc]. exact Hacc.
  - intros Hk. apply IH.
    destruct (decide (mode.Name m = name)) as [<-|Hne].
    + right. rewrite lookup_insert_eq. eauto.
    + rewrite lookup_insert_ne by done.
      destruct Hk as [[Heq|Hin]|Hacc]; [done|left; exact Hin|right; exact Hacc].
Qed.

Lemma available_unknown (modes : mode.Modes) (acc : gmap string mode.ModeProvider)
    (name : string) :
  ~ known modes name ->
  List.fold_left (fun avail mode => <[mode.Name mode := mode]> avail) modes acc !! name
    = acc !! name.
Proof.
  unfold known. revert acc.
  induction modes as [|m modes IH]; intros acc Hk; cbn [List.fold_left]; [done|].
  rewrite IH.
  - apply lookup_insert_ne. intros Heq. apply Hk. left. exact Heq.
  - intros Hin. apply Hk. right. exact Hin.
Qed.

Lemma Filter_loop_known (modes : mode.Modes) (available : gmap string mode.ModeProvider)
    (include : list string) (filtered : mode.Modes) :
  (forall name p, available !! name = Some p -> In p modes /\ mode.Name p = name) ->
  (forall name, known modes name -> is_Some (available !! name)) ->
  Forall (known modes) include ->
  exists ps, mode.Filter_loop available include filtered = (filtered ++ ps, None)
             /\ List.map mode.Name ps = include /\ Forall (fun p => In p modes) ps.
Proof.
  intros Hsome Hknown. revert filtered.
  induction include as [|inc rest IH]; intros filtered Hall; cbn [mode.Filter_loop].
  - exists []. rewrite List.app_nil_r. repeat split; constructor.
  - inversion Hall as [|? ? Hinc Hrest]; subst.
    destruct (Hknown _ Hinc) as [p Hp]. rewrite Hp.
    destruct (IH (filtered ++ [p]) Hrest) as (ps & Heq & Hnames & Hin).
    exists (p :: ps). rewrite Heq, <- List.app_assoc. split; [reflexivity|].
    destruct (Hsome _ _ Hp) as [Hpin Hpn]. split.
    + cbn. congruence.
    + constructor; done.
Qed.

Lemma Filter_loop_unknown (modes : mode.Modes) (available : gmap string mode.ModeProvider)
    (pre post : list string) (name : string) (filtered : mode.Modes) :
  (forall name, known modes name -> is_Some (available !! name)) ->
  available !! name = None ->
  Forall (known modes) pre ->
  mode.Filter_loop available (pre ++ name :: post) filtered
    = ([], Some (errors_New ("unknown mode: " ++ name))).
Proof.
  intros Hknown Hnone. revert filtered.
  induction pre as [|inc pre IH]; intros filtered Hall; cbn [mode.Filter_loop app].
  - rewrite Hnone. reflexivity.
  - inversion Hall as [|? ? Hinc Hrest]; subst.
    destruct (Hknown _ Hinc) as [p Hp]. rewrite Hp. apply IH, Hrest.
Qed.

(** C5, amended. On a registry that is not empty, [Filter] returns one
    provider of the registry per requested name, in the order of the names,
    when every name is known; and when [name] is the first unknown name of
    the list it returns no providers and the error "unknown mode: name". On
    the empty registry it returns no providers and no error. *)
Theorem Filter_order_and_first_unknown :
  forall (modes : mode.Modes) (include : list string),
    (modes = [] -> mode.Modes_Filter modes include = ([], None))
    /\ (modes <> [] ->
        (Forall (known modes) include ->
         exists ps, mode.Modes_Filter modes include = (ps, None)
                    /\ List.map mode.Name ps = include
                    /\ Forall (fun p => In p modes) ps)
        /\ (forall pre name post,
              include = pre ++ name :: post ->
              Forall (known modes) pre -> ~ known modes name ->
              mode.Modes_Filter modes include
                = ([], Some (errors_New ("unknown mode: " ++ name))))).
Proof.
  intros modes include. split; [by intros ->|].
  intros Hne. unfold mode.Modes_Filter.
  destruct modes as [|m0 modes0]; [done|]. cbn [List.length Nat.eqb].
  set (modes := m0 :: modes0).
  set (available := List.fold_left _ modes ∅).
  assert (Hsome : forall name p, available !! name = Some p ->
                                 In p modes /\ mode.Name p = name).
  { intros name p Hl. apply available_lookup in Hl as [Hl|Hl]; [|exact Hl].
    rewrite lookup_empty in Hl. discriminate. }
  assert (Hknown : forall name, known modes name -> is_Some (available !! name)).
  { intros name Hk. apply available_known. left. exact Hk. }
  split.
  - intros Hall.
    destruct (Filter_loop_known modes available include [] Hsome Hknown Hall)
      as (ps & Heq & Hrest).
    exists ps. split; [exact Heq|exact Hrest].
  - intros pre name post -> Hpre Hun.
    apply (Filter_loop_unknown modes); [exact Hknown| |exact Hpre].
    subst available. rewrite available_unknown by exact Hun. apply lookup_empty.
Qed.

Lemma errgroup_Wait_some {A : Type} (f : A -> option error) (l : list A) :
  (exists x, In x l /\ f x <> None) ->
  exists x e, In x l /\ f x = Some e /\ mode.errgroup_Wait (List.map f l) = Some e.
Proof.
  induction l as [|y l IH]; intros (x & Hin & Hx); [destruct Hin|].
  cbn [List.map mode.errgroup_Wait].
  destruct (f y) as [e|] eqn:Hy.
  - exists y, e. split; [left; reflexivity|]. split; [exact Hy|reflexivity].
  - destruct Hin as [->|Hin]; [congruence|].
    destruct IH as (x' & e & Hin' & Hx' & Hw); [eauto|].
    exists x', e. split; [right; exact Hin'|]. split; [exact Hx'|exact Hw].
Qed.

Lemma Detect_task_error (req : mode.DetectRequest) (p : mode.ModeProvider) (err : error) :
  fst (mode.Detect_task req p) = Some err ->
  exists e, snd (mode.Detect p req) = Some e
            /\ err = fmt_Errorf ("detecting " ++ mode.Name p) e.
Proof.
  unfold mode.Detect_task. destruct (mode.Detect p req) as [d [e|]]; cbn.
  - intros [= <-]. eauto.
  - discriminate.
Qed.

Lemma Plan_task_error (req : mode.PlanRequest) (p : mode.ModeProvider) (err : error) :
  fst (mode.Plan_task req p) = Some err ->
  exists e, snd (mode.Plan p req) = Some e
            /\ err = fmt_Errorf ("planning " ++ mode.Name p) e.
Proof.
  unfold mode.Plan_task. destruct (mode.Plan p req) as [d [e|]]; cbn.
  - intros [= <-]. eauto.
  - discriminate.
Qed.

(** C4. When a provider of the registry fails in [Detect] (in [Plan]), the
    batch returns no providers (no plans) and the error of a failing
    provider [p], wrapped as "detecting p: msg" ("planning p: msg"): the
    first one to fail in the order the goroutines finish. *)
Theorem Registry_error_wraps_provider :
  forall (modes : mode.Modes) (dreq : mode.DetectRequest) (preq : mode.PlanRequest),
    ((exists p, In p modes /\ snd (mode.Detect p (mode.DetectRequest_default dreq)) <> None) ->
     exists p e,
       In p modes
       /\ snd (mode.Detect p (mode.DetectRequest_default dreq)) = Some e
       /\ mode.Modes_Detect modes dreq
          = ([], Some (fmt_Errorf ("detecting " ++ mode.Name p) e))
       /\ Error (fmt_Errorf ("detecting " ++ mode.Name p) e)
          = ("detecting " ++ mode.Name p ++ ": " ++ Error e)%string)
    /\ ((exists p, In p modes
                   /\ snd (mode.Plan p (mode.PlanRequest_prepare modes preq)) <> None) ->
        exists p e,
          In p modes
          /\ snd (mode.Plan p (mode.PlanRequest_prepare modes preq)) = Some e
          /\ mode.Modes_Plan modes preq
             = (∅, Some (fmt_Errorf ("planning " ++ mode.Name p) e))
          /\ Error (fmt_Errorf ("planning " ++ mode.Name p) e)
             = ("planning " ++ mode.Name p ++ ": " ++ Error e)%string).
Proof.
  intros modes dreq preq. split.
  - intros (p & Hin & Hp). unfold mode.Modes_Detect.
    set (req := mode.DetectRequest_default dreq) in *.
    destruct (errgroup_Wait_some (fun m => fst (mode.Detect_task req m))
                (mode.detect_completion modes)) as (x & err & Hx & Hfx & Hw).
    { exists p. split.
      - apply (Permutation_in _ (Permutation_sym (mode.detect_completion_perm modes))), Hin.
      - unfold mode.Detect_task. destruct (mode.Detect p req) as [d [e|]]; cbn in *; congruence. }
    rewrite Hw. apply Detect_task_error in Hfx as (e & He & ->).
    exists x, e. split.
    { apply (Permutation_in _ (mode.detect_completion_perm modes)), Hx. }
    split; [exact He|]. split; [reflexivity|].
    unfold fmt_Errorf. cbn [Error]. apply string_app_assoc.
  - intros (p & Hin & Hp). unfold mode.Modes_Plan.
    set (req := mode.PlanRequest_prepare modes preq) in *.
    destruct (errgroup_Wait_some (fun m => fst (mode.Plan_task req m))
                (mode.plan_completion modes)) as (x & err & Hx & Hfx & Hw).
    { exists p. split.
      - apply (Permutation_in _ (Permutation_sym (mode.plan_completion_perm modes))), Hin.
      - unfold mode.Plan_task. destruct (mode.Plan p req) as [d [e|]]; cbn in *; congruence. }
    rewrite Hw. apply Plan_task_error in Hfx as (e & He & ->).
    exists x, e. split.
    { apply (Permutation_in _ (mode.plan_completion_perm modes)), Hx. }
    split; [exact He|]. split; [reflexivity|].
    unfold fmt_Errorf. cbn [Error]. apply string_app_assoc.
Qed.

End Registry.

(** Witness of [Filter_order_and_first_unknown]: two known names, asked
    for in the reverse of the registry's order. *)
Lemma Filter_order_and_first_unknown_witness :
  apt_go_modes <> [] /\ Forall (known apt_go_modes) ["go"; "apt"]
  /\ exists ps, mode.Modes_Filter apt_go_modes ["go"; "apt"] = (ps, None)
                /\ List.map mode.Name ps = ["go"; "apt"]
                /\ Forall (fun p => In p apt_go_modes) ps.
Proof.
  assert (Hk : Forall (known apt_go_modes) ["go"; "apt"]).
  { constructor; [|constructor; [|constructor]]; unfold known; cbn; auto. }
  split; [discriminate|]. split; [exact Hk|].
  exact (proj1 (proj2 (Filter_order_and_first_unknown apt_go_modes ["go"; "apt"])
                  ltac:(discriminate)) Hk).
Defined.

(** Counterexample to C5 as stated: on the empty registry [Filter] returns no error for
    a name the registry does not have. *)
Lemma Filter_counterexample :
  ~ (forall (modes : mode.Modes) (include : list string) (name : string),
       In name include -> ~ known modes name ->
       snd (mode.Modes_Filter modes include) <> None).
Proof.
  intros Hclaim. apply (Hclaim [] ["x"] "x"); [left; reflexivity| |reflexivity].
  intros [].
Qed.

(** Witness of [Registry_error_wraps_provider]: the second of two providers
    fails. *)
Lemma Registry_error_wraps_provider_witness :
  let dreq := {| mode.DetectRequest_Exec := None |} in
  (exists p, In p failing_modes
             /\ snd (mode.Detect p (mode.DetectRequest_default (rt := fifo_runtime) dreq)) <> None)
  /\ exists p e,
       In p failing_modes
       /\ snd (mode.Detect p (mode.DetectRequest_default (rt := fifo_runtime) dreq)) = Some e
       /\ mode.Modes_Detect (rt := fifo_runtime) failing_modes dreq
          = ([], Some (fmt_Errorf ("detecting " ++ mode.Name p) e))
       /\ Error (fmt_Errorf ("detecting " ++ mode.Name p) e)
          = ("detecting " ++ mode.Name p ++ ": " ++ Error e)%string.
Proof.
  cbv zeta.
  assert (Hex : exists p,
             In p failing_modes
             /\ snd (mode.Detect p (mode.DetectRequest_default (rt := fifo_runtime)
                                      {| mode.DetectRequest_Exec := None |})) <> None).
  { eexists. split; [right; left; reflexivity|]. cbn. discriminate. }
  split; [exact Hex|].
  exact (proj1 (Registry_error_wraps_provider (rt := fifo_runtime) failing_modes
                  {| mode.DetectRequest_Exec := None |}
                  {| mode.PlanRequest_Exec := None; mode.enabledModes := [] |}) Hex).
Defined.

Section Mounter.
Context {libs : Libs} {rt : mode.Runtime} {json : cache.Json}.

(** C10, amended. When the home directory can be determined, a path that
    starts with a tilde, is not the tilde alone and does not start with a
    tilde and a slash is returned by [resolveHome] as it is, with no error;
    an entry [mountPath] returns for it has the join of the cache root and
    that very path as cache path and the path itself as mount path. When
    the home directory cannot be determined, [resolveHome] returns the
    error for every path that starts with a tilde. *)
Theorem resolveHome_other_tilde :
  forall (path : string),
    strings_HasPrefix path "~" = true ->
    (snd os_UserHomeDir = None ->
     path <> "~" ->
     strings_HasPrefix path "~/" = false ->
     cache.resolveHome path = (path, None)
     /\ forall (S : Type) (m : cache.Mounter S) (modeName : string) (s : S)
               (mount : cache.MountResult),
          fst (cache.mountPath m modeName path s) = (mount, None) ->
          cache.CachePath mount = filepath_Join [cache.CacheRoot m; path]
          /\ cache.MountPath mount = path)
    /\ (forall e, snd os_UserHomeDir = Some e ->
        cache.resolveHome path = (EmptyString, Some (fmt_Errorf "get user home dir" e))).
Proof.
  intros path Htilde. split.
  - intros Hhome Hne Hslash.
    assert (Hres : cache.resolveHome path = (path, None)).
    { unfold cache.resolveHome. rewrite Htilde. cbn [negb].
      destruct os_UserHomeDir as [home err]. cbn in Hhome. subst err.
      destruct (String.eqb_spec path "~") as [->|_]; [done|].
      rewrite Hslash. reflexivity. }
    split; [exact Hres|].
    intros S m modeName s mount. unfold cache.mountPath. rewrite Hres.
    unfold bind, ret.
    destruct (cache.Exec_Stat _ _ s) as [r s1].
    destruct r as [e|]; [destruct (errors_Is e os_ErrNotExist)|]; cbn [negb];
      destruct (cache.DestructiveMode m); cbn [negb fst];
      try destruct (cache.Exec_Mount _ _ _ s1) as [[e'|] s2]; cbn [fst];
      intros [= <-]; split; reflexivity.
  - intros e Hhome. unfold cache.resolveHome. rewrite Htilde. cbn [negb].
    destruct os_UserHomeDir as [home err]. cbn in Hhome. subst err. reflexivity.
Qed.

(** C2. On the empty request [Mount] returns the zero response with the
    error "at least one cache mode or path must be specified" and leaves
    the executor as it was; a recording executor has logged no call. *)
Theorem Mount_empty_request :
  forall (S : Type) (m : cache.Mounter S) (s : S),
    cache.Mount m MountRequest_zero s
      = ((cache.MountResponse_zero,
          Some (errors_New "at least one cache mode or path must be specified")), s)
    /\ snd (snd (cache.Mount (cache.recorded m) MountRequest_zero (s, []))) = [].
Proof.
  intros S m s. split; reflexivity.
Qed.

(** *** The log of a run *)

Lemma stat_before_mount_nil : stat_before_mount [].
Proof. intros pre from to err post Heq. destruct pre; discriminate. Qed.

Lemma stat_before_mount_app (a b : list cache.Event) :
  stat_before_mount a -> stat_before_mount b -> stat_before_mount (a ++ b).
Proof.
  intros Ha Hb pre from to err post Heq.
  apply List.app_eq_app in Heq as [l [[-> Hr]|[-> Hr]]].
  - destruct l as [|ev l].
    + cbn in Hr.
      destruct (Hb [] from to err post (eq_sym Hr)) as (pre' & err' & Hpre).
      destruct pre'; discriminate.
    + cbn in Hr. injection Hr as <- ->. apply (Ha pre from to err l). reflexivity.
  - destruct (Hb l from to err post Hr) as (pre' & err' & ->).
    exists (a ++ pre'), err'. by rewrite List.app_assoc.
Qed.

Lemma stat_before_mount_other (ev : cache.Event) :
  (forall from to err, ev <> cache.EvMount from to err) -> stat_before_mount [ev].
Proof.
  intros Hev pre from to err post Heq.
  destruct pre as [|ev' pre].
  - injection Heq as -> _. by destruct (Hev from to err).
  - destruct pre; discriminate.
Qed.


Lemma Step_here {S : Type} (d : bool) (result result' : cache.MountResponse)
    (err : option error) (s : S) (log : list cache.Event) :
  cache.Mounts (cache.Output result') = cache.Mounts (cache.Output result) ->
  Step d result log ((result', err), (s, log)).
Proof.
  intros Hm. exists []. cbn. rewrite List.app_nil_r. split; [done|].
  split; [apply stat_before_mount_nil|]. split; [constructor|].
  intros _. split; [constructor|].
  exists []. by rewrite List.app_nil_r.
Qed.

Lemma Step_trans {S : Type} (d : bool) (r0 r1 : cache.MountResponse)
    (l0 l1 : list cache.Event)
    (s1 : S) (out : cache.MountResponse * option error * (S * list cache.Event)) :
  Step d r0 l0 ((r1, None), (s1, l1)) -> Step d r1 l1 out -> Step d r0 l0 out.
Proof.
  intros (evs1 & Hl1 & Hb1 & Hro1 & H1) (evs2 & Hl2 & Hb2 & Hro2 & H2). cbn in Hl1, H1.
  destruct (H1 eq_refl) as (Hg1 & new1 & Hm1 & Hv1).
  exists (evs1 ++ evs2). split; [by rewrite Hl2, Hl1, List.app_assoc|].
  split; [by apply stat_before_mount_app|].
  split; [intros Hd; apply Forall_app; auto|].
  intros Hok. destruct (H2 Hok) as (Hg2 & new2 & Hm2 & Hv2).
  split; [by apply Forall_app|].
  exists (new1 ++ new2). split.
  - by rewrite Hm2, Hm1, List.app_assoc.
  - unfold stat_view, hits in *. by rewrite omap_app, List.map_app, Hv1, Hv2.
Qed.


Section Log.
Context {S : Type} (m : cache.Mounter S).


Lemma Step_event (d : bool) (result result' : cache.MountResponse) (err : option error)
    (s : S) (log : list cache.Event) (ev : cache.Event) :
  cache.Mounts (cache.Output result') = cache.Mounts (cache.Output result) ->
  (forall from to e, ev <> cache.EvMount from to e) ->
  (forall name e, ev <> cache.EvStat name e) ->
  (d = false -> read_only ev) ->
  Step d result log ((result', err), (s, log ++ [ev])).
Proof.
  intros Hm Hmount Hstat Hro. exists [ev]. cbn. split; [done|].
  split; [by apply stat_before_mount_other|].
  split; [intros Hd; constructor; [auto|constructor]|]. intros _. split.
  - constructor; [|constructor]. destruct ev as [| | | |name e|]; cbn; try tauto.
    by destruct (Hstat name e).
  - exists []. rewrite List.app_nil_r. split; [done|].
    destruct ev as [| | | |name e|]; cbn; try reflexivity. by destruct (Hstat name e).
Qed.









Lemma writeMetadata_Step (result : cache.MountResponse) (s : S) (log : list cache.Event) :
  let out := cache.writeMetadata (cache.recorded m) result (s, log) in
  Step (cache.DestructiveMode m) result log ((result, fst out), snd out).
Proof.
  cbv zeta. unfold cache.writeMetadata.
  cbn [cache.recorded cache.DestructiveMode cache.Exec cache.recording cache.CacheRoot
       cache.Exec_MkdirAll cache.Exec_WriteFile].
  destruct (cache.DestructiveMode m); cbn [negb]; [|by apply Step_here].
  destruct (cache.json_MarshalIndent _) as [data [e|]]; [by apply Step_here|].
  unfold bind, ret. cbn [fst snd].
  destruct (cache.Exec_MkdirAll (cache.Exec m) _ _ s) as [[e|] s1]; cbn [fst snd].
  - by apply Step_event.
  - match goal with
    | |- context [cache.EvMkdirAll ?d ?perm None] =>
        eapply (Step_trans _ _ result _ (log ++ [cache.EvMkdirAll d perm None]) s1);
        [by apply Step_event|]
    end.
    destruct (cache.Exec_WriteFile (cache.Exec m) _ _ _ s1) as [[e|] s2]; cbn [fst snd];
      by apply Step_event.
Qed.



End Log.

(** *** A dry run against a destructive run *)





Section DryRun.
Context {S : Type} (m : cache.Mounter S) (R : S -> S -> Prop).

Hypothesis Stat_related :
  forall name s s', R s s' ->
    fst (cache.Exec_Stat (cache.Exec m) name s) = fst (cache.Exec_Stat (cache.Exec m) name s')
    /\ R (snd (cache.Exec_Stat (cache.Exec m) name s))
         (snd (cache.Exec_Stat (cache.Exec m) name s')).
Hypothesis Mount_related :
  forall from to s s', R s s' -> R s (snd (cache.Exec_Mount (cache.Exec m) from to s')).
Hypothesis RemoveAll_related :
  forall name s s', R s s' -> R s (snd (cache.Exec_RemoveAll (cache.Exec m) name s')).







End DryRun.


End Mounter.

(** Witness of [resolveHome_other_tilde]: the path of another user's home. *)
Lemma resolveHome_other_tilde_witness :
  snd (os_UserHomeDir (Libs := unix_libs)) = None
  /\ strings_HasPrefix "~user/x" "~" = true
  /\ "~user/x" <> "~"
  /\ strings_HasPrefix "~user/x" "~/" = false
  /\ cache.resolveHome (libs := unix_libs) "~user/x" = ("~user/x", None).
Proof.
  split; [reflexivity|]. split; [reflexivity|]. split; [discriminate|].
  split; [reflexivity|].
  exact (proj1 (proj1 (resolveHome_other_tilde (libs := unix_libs) "~user/x" eq_refl)
                         eq_refl ltac:(discriminate) eq_refl)).
Defined.

(** Counterexample to C10 as stated: when the home directory cannot be determined,
    [resolveHome] returns an error for such a path. *)
Lemma resolveHome_counterexample :
  strings_HasPrefix "~user/x" "~" = true
  /\ "~user/x" <> "~"
  /\ strings_HasPrefix "~user/x" "~/" = false
  /\ cache.resolveHome (libs := homeless_libs) "~user/x"
     = (EmptyString,
        Some (fmt_Errorf "get user home dir" (errors_New "$HOME is not defined"))).
Proof. repeat split. discriminate. Qed.




(** *** Strings *)

Lemma append_cons (c : ascii) (a b : string) :
  (String c a ++ b)%string = String c (a ++ b)%string.
Proof. reflexivity. Qed.

Lemma append_nil_r (a : string) : (a ++ EmptyString)%string = a.
Proof. induction a as [|c a IH]; [reflexivity|]. rewrite append_cons. by rewrite IH. Qed.

Lemma string_rev_app_spec (s acc : string) :
  string_rev_app s acc = (string_rev s ++ acc)%string.
Proof.
  unfold string_rev. revert acc.
  induction s as [|c s IH]; intros acc; cbn [string_rev_app]; [reflexivity|].
  rewrite (IH (String c acc)), (IH (String c EmptyString)).
  by rewrite string_app_assoc.
Qed.

Lemma string_rev_cons (c : ascii) (s : string) :
  string_rev (String c s) = (string_rev s ++ String c EmptyString)%string.
Proof. unfold string_rev at 1. cbn [string_rev_app]. apply string_rev_app_spec. Qed.

Lemma string_rev_append (a b : string) :
  string_rev (a ++ b) = (string_rev b ++ string_rev a)%string.
Proof.
  induction a as [|c a IH].
  - cbn. by rewrite append_nil_r.
  - rewrite append_cons, !string_rev_cons, IH. by rewrite string_app_assoc.
Qed.

Lemma string_rev_involutive (s : string) : string_rev (string_rev s) = s.
Proof.
  induction s as [|c s IH]; [reflexivity|].
  rewrite string_rev_cons, string_rev_append, IH. reflexivity.
Qed.

Lemma prefix_nil (s : string) : String.prefix EmptyString s = true.
Proof. by destruct s. Qed.

Lemma prefix_append (w a b : string) :
  String.prefix w a = true -> String.prefix w (a ++ b) = true.
Proof.
  revert a. induction w as [|x w IH]; intros a; [intros _; apply prefix_nil|].
  destruct a as [|y a]; [discriminate|]. rewrite append_cons. cbn [String.prefix].
  destruct (ascii_dec x y); [apply IH|discriminate].
Qed.

Lemma prefix_of_append (w v a : string) :
  String.prefix (w ++ v) a = true -> String.prefix w a = true.
Proof.
  revert a. induction w as [|x w IH]; intros a; [intros _; apply prefix_nil|].
  destruct a as [|y a]; [discriminate|]. rewrite append_cons. cbn [String.prefix].
  destruct (ascii_dec x y); [apply IH|discriminate].
Qed.

(** A prefix that holds no byte [c] is a prefix of what came before [c]. *)
Lemma prefix_before (w a b : string) (c : ascii) :
  (forall x, In x (list_ascii_of_string w) -> x <> c) ->
  String.prefix w (a ++ String c b) = true -> String.prefix w a = true.
Proof.
  revert a. induction w as [|x w IH]; intros a Hw; [intros _; apply prefix_nil|].
  destruct a as [|y a].
  - change (EmptyString ++ String c b)%string with (String c b). cbn [String.prefix].
    destruct (ascii_dec x c) as [->|_]; [|discriminate].
    by destruct (Hw c (or_introl eq_refl)).
  - rewrite append_cons. cbn [String.prefix].
    destruct (ascii_dec x y); [|discriminate].
    apply IH. intros z Hz. apply Hw. right. exact Hz.
Qed.

Lemma no_warning_prefix (a b : string) : no_warning (a ++ b) -> no_warning a.
Proof.
  unfold no_warning, strings_HasPrefix. intros Hab.
  destruct (String.prefix mode.pnpmWarningPrefix a) eqn:Ha; [|reflexivity].
  by rewrite (prefix_append _ _ b Ha) in Hab.
Qed.

Lemma no_warning_before_LF (a b : string) :
  no_warning a -> no_warning (a ++ String LF b).
Proof.
  unfold no_warning, strings_HasPrefix. intros Ha.
  destruct (String.prefix mode.pnpmWarningPrefix (a ++ String LF b)) eqn:Hab; [|reflexivity].
  rewrite (prefix_before _ a b LF) in Ha; [discriminate| |exact Hab].
  intros x Hx. vm_compute in Hx.
  repeat (destruct Hx as [<-|Hx]; [discriminate|]). destruct Hx.
Qed.

Lemma no_warning_after_LF_prefix (a b : string) :
  no_warning_after_LF (a ++ b) -> no_warning_after_LF a.
Proof.
  induction a as [|c a IH]; [done|]. rewrite append_cons. cbn [no_warning_after_LF].
  intros [Hc Hrest]. split; [|by apply IH].
  intros Heq. apply (no_warning_prefix a b), Hc, Heq.
Qed.

Lemma no_warning_nil : no_warning EmptyString.
Proof. reflexivity. Qed.

Lemma Split_first_line (s : string) :
  exists l ls rest, strings_Split_LF s = l :: ls /\ s = (l ++ rest)%string.
Proof.
  induction s as [|c s (l & ls & rest & Hs & Heq)]; cbn [strings_Split_LF].
  - by exists EmptyString, [], EmptyString.
  - destruct (Ascii.eqb c LF).
    + by exists EmptyString, (strings_Split_LF s), (String c s).
    + rewrite Hs. exists (String c l), ls, rest. split; [done|].
      rewrite append_cons. by rewrite <- Heq.
Qed.

Lemma Split_no_LF (s : string) : Forall no_LF (strings_Split_LF s).
Proof.
  induction s as [|c s IH]; cbn [strings_Split_LF].
  - by repeat constructor.
  - destruct (Ascii.eqb c LF) eqn:Hc.
    + by constructor.
    + destruct (strings_Split_LF s) as [|l ls]; [by repeat constructor|].
      inversion IH; subst. by constructor.
Qed.

Lemma Split_tail_no_warning (s : string) :
  no_warning_after_LF s -> Forall no_warning (List.tl (strings_Split_LF s)).
Proof.
  induction s as [|c s IH]; cbn [strings_Split_LF no_warning_after_LF].
  - constructor.
  - intros [Hc Hrest]. destruct (Ascii.eqb c LF) eqn:Heq.
    + cbn [List.tl]. destruct (Split_first_line s) as (l & ls & rest & Hs & Hl).
      specialize (IH Hrest). rewrite Hs in *. constructor; [|exact IH].
      apply (no_warning_prefix l rest). rewrite <- Hl. by apply Hc.
    + specialize (IH Hrest). destruct (strings_Split_LF s) as [|l ls]; [constructor|].
      exact IH.
Qed.

Lemma Split_no_warning (s : string) :
  no_warning s -> no_warning_after_LF s -> Forall no_warning (strings_Split_LF s).
Proof.
  intros Hhead Hafter. pose proof (Split_tail_no_warning s Hafter) as Htl.
  destruct (Split_first_line s) as (l & ls & rest & Hs & Hl). rewrite Hs in *.
  constructor; [|exact Htl]. apply (no_warning_prefix l rest). by rewrite <- Hl.
Qed.

Lemma no_LF_after (s : string) : no_LF s -> no_warning_after_LF s.
Proof.
  induction s as [|c s IH]; [done|]. cbn [no_LF no_warning_after_LF].
  intros [Hc Hs]. split; [congruence|by apply IH].
Qed.

Lemma no_warning_after_LF_app (e rest : string) :
  no_LF e -> no_warning rest -> no_warning_after_LF rest ->
  no_warning_after_LF (e ++ String LF rest).
Proof.
  induction e as [|c e IH]; intros He Hw Hafter.
  - change (no_warning_after_LF (String LF rest)). cbn [no_warning_after_LF]. auto.
  - rewrite append_cons. cbn [no_LF no_warning_after_LF] in *. destruct He as [Hc He].
    split; [congruence|by apply IH].
Qed.

Lemma Join_no_warning (elems : list string) :
  Forall no_LF elems -> Forall no_warning elems ->
  no_warning (strings_Join_LF elems) /\ no_warning_after_LF (strings_Join_LF elems).
Proof.
  induction elems as [|e rest IH]; intros HLF Hw; cbn [strings_Join_LF].
  - split; [apply no_warning_nil|done].
  - inversion HLF as [|? ? He HLF']; inversion Hw as [|? ? Hwe Hw']; subst.
    destruct rest as [|e' rest].
    + split; [exact Hwe|by apply no_LF_after].
    + destruct (IH HLF' Hw') as [Hj Hja]. split.
      * by apply no_warning_before_LF.
      * by apply no_warning_after_LF_app.
Qed.

Lemma pnpm_filtered_no_warning (output : string) :
  no_warning (strings_Join_LF (mode.pnpm_filtered output))
  /\ no_warning_after_LF (strings_Join_LF (mode.pnpm_filtered output)).
Proof.
  apply Join_no_warning; unfold mode.pnpm_filtered.
  - apply List.Forall_forall. intros line Hin. apply List.filter_In in Hin as [Hin _].
    pose proof (Split_no_LF output) as HLF. by apply (proj1 (List.Forall_forall _ _) HLF).
  - apply List.Forall_forall. intros line Hin. apply List.filter_In in Hin as [_ Hline].
    unfold no_warning. by destruct (strings_HasPrefix line mode.pnpmWarningPrefix).
Qed.

(** *** Trimming *)

Lemma leading_space_positive (s : string) (n : nat) :
  leading_space s = Some n -> 0 < n.
Proof.
  unfold leading_space.
  destruct (List.find _ space_encodings) as [w|] eqn:Hf; [|discriminate].
  intros [= <-]. apply List.find_some in Hf as [Hin _].
  vm_compute in Hin. repeat (destruct Hin as [<-|Hin]; [cbn; lia|]). destruct Hin.
Qed.

Lemma leading_space_none (s : string) : leading_space s = None -> no_warning s.
Proof.
  unfold leading_space.
  destruct (List.find _ space_encodings) as [w|] eqn:Hf; [discriminate|]. intros _.
  assert (Hthin : String.prefix mode.thin_space s = false).
  { apply (List.find_none _ _ Hf). vm_compute. do 18 right. left. reflexivity. }
  unfold no_warning, strings_HasPrefix.
  destruct (String.prefix mode.pnpmWarningPrefix s) eqn:Hp; [|reflexivity].
  unfold mode.pnpmWarningPrefix in Hp. apply prefix_of_append in Hp. congruence.
Qed.

Lemma trim_left_head (skip : nat) (s : string) : no_warning (trim_left skip s).
Proof.
  revert skip. induction s as [|c s IH]; intros skip; cbn [trim_left].
  - apply no_warning_nil.
  - destruct skip as [|k]; [|apply IH].
    destruct (leading_space (String c s)) as [[|k]|] eqn:Hl.
    + apply leading_space_positive in Hl. lia.
    + apply IH.
    + by apply leading_space_none.
Qed.

Lemma trim_left_after (skip : nat) (s : string) :
  no_warning_after_LF s -> no_warning_after_LF (trim_left skip s).
Proof.
  revert skip. induction s as [|c s IH]; intros skip Hs; cbn [trim_left]; [done|].
  pose proof Hs as Hs0. cbn [no_warning_after_LF] in Hs. destruct Hs as [_ Hrest].
  destruct skip as [|k]; [|by apply IH].
  destruct (leading_space (String c s)) as [[|k]|].
  - exact Hs0.
  - by apply IH.
  - exact Hs0.
Qed.

Lemma trim_right_rev_suffix (skip : nat) (r : string) :
  exists pre, r = (pre ++ trim_right_rev skip r)%string.
Proof.
  revert skip. induction r as [|c r IH]; intros skip; cbn [trim_right_rev].
  - by exists EmptyString.
  - assert (Hdrop : forall k, exists pre, String c r = (pre ++ trim_right_rev k r)%string).
    { intros k. destruct (IH k) as [pre Hpre]. exists (String c pre).
      rewrite append_cons. by rewrite <- Hpre. }
    destruct skip as [|k]; [|apply Hdrop].
    destruct (trailing_space (String c r)) as [[|k]|].
    + by exists EmptyString.
    + apply Hdrop.
    + by exists EmptyString.
Qed.

Lemma TrimRight_prefix (s : string) :
  exists post, s = (strings_TrimRight s ++ post)%string.
Proof.
  unfold strings_TrimRight.
  destruct (trim_right_rev_suffix 0 (string_rev s)) as [pre Hpre].
  exists (string_rev pre).
  rewrite <- string_rev_append, <- Hpre. by rewrite string_rev_involutive.
Qed.

Lemma TrimSpace_no_warning (s : string) :
  no_warning_after_LF s ->
  Forall no_warning (strings_Split_LF (strings_TrimSpace s)).
Proof.
  intros Hs. unfold strings_TrimSpace.
  destruct (TrimRight_prefix (strings_TrimLeft s)) as [post Hpost].
  apply Split_no_warning.
  - apply (no_warning_prefix _ post). rewrite <- Hpost. apply trim_left_head.
  - apply (no_warning_after_LF_prefix _ post). rewrite <- Hpost. by apply trim_left_after.
Qed.

Section Plans.
Context {libs : Libs} {S : Type} (Exec : mode.Executor S).

(** C8, amended. pnpm: after [pnpm --version] the provider always runs
    [pnpm store path --loglevel error]; when the version read off the
    first output compares below v9.7.0, the cache path of a plan is the
    trimmed join of the lines without the warning prefix, and no line of it
    starts with that prefix; otherwise it is the trimmed output, unfiltered.
    yarn: after [yarn --version] the provider runs [yarn cache dir] when the
    trimmed version starts with "1." and [yarn config get cacheFolder]
    otherwise; the cache path of a plan is the trimmed output of that
    command, unfiltered. *)
Theorem version_gated_plans :
  forall (s s1 s2 : S) (versionOutput output : string),
    (mode.Output Exec ["pnpm"; "--version"] s = ((versionOutput, None), s1) ->
     mode.Output Exec ["pnpm"; "store"; "path"; "--loglevel"; "error"] s1
       = ((output, None), s2) ->
     snd (snd (mode.PnpmProvider_Plan (mode.recording Exec) (s, [])))
       = [mode.CallOutput ["pnpm"; "--version"];
          mode.CallOutput ["pnpm"; "store"; "path"; "--loglevel"; "error"]]
     /\ ((semver_Compare (mode.pnpm_version versionOutput) mode.pnpmWarningFixVersion < 0)%Z ->
         forall r, fst (mode.PnpmProvider_Plan Exec s) = (r, None) ->
           mode.MountPaths r
             = [strings_TrimSpace (strings_Join_LF (mode.pnpm_filtered output))]
           /\ Forall no_warning
                (strings_Split_LF
                   (strings_TrimSpace (strings_Join_LF (mode.pnpm_filtered output)))))
     /\ ((0 <= semver_Compare (mode.pnpm_version versionOutput) mode.pnpmWarningFixVersion)%Z ->
         forall r, fst (mode.PnpmProvider_Plan Exec s) = (r, None) ->
           mode.MountPaths r = [strings_TrimSpace output]))
    /\ (mode.Output Exec ["yarn"; "--version"] s = ((versionOutput, None), s1) ->
        let cmd := if strings_HasPrefix (strings_TrimSpace versionOutput) mode.yarnV1Prefix
                   then ["yarn"; "cache"; "dir"]
                   else ["yarn"; "config"; "get"; "cacheFolder"] in
        snd (snd (mode.YarnProvider_Plan (mode.recording Exec) (s, [])))
          = [mode.CallOutput ["yarn"; "--version"]; mode.CallOutput cmd]
        /\ (mode.Output Exec cmd s1 = ((output, None), s2) ->
            forall r, fst (mode.YarnProvider_Plan Exec s) = (r, None) ->
              mode.MountPaths r = [strings_TrimSpace output])).
Proof.
  intros s s1 s2 versionOutput output. split.
  - intros Hv Ho. split; [|split].
    + unfold mode.PnpmProvider_Plan, bind, ret. cbn [mode.recording mode.Output fst snd].
      rewrite Hv. cbn [fst snd]. rewrite Ho. cbn [fst snd app].
      destruct (semver_Compare _ _ <? 0)%Z;
        match goal with |- context [String.eqb ?a ?b] => destruct (String.eqb a b) end;
        reflexivity.
    + intros Hlt r. unfold mode.PnpmProvider_Plan, bind, ret. rewrite Hv, Ho.
      apply Z.ltb_lt in Hlt. rewrite Hlt.
      destruct (String.eqb _ EmptyString); cbn [fst]; [discriminate|].
      intros [= <-]. split; [reflexivity|].
      apply TrimSpace_no_warning, pnpm_filtered_no_warning.
    + intros Hge r. unfold mode.PnpmProvider_Plan, bind, ret. rewrite Hv, Ho.
      apply Z.ltb_ge in Hge. rewrite Hge.
      destruct (String.eqb _ EmptyString); cbn [fst]; [discriminate|].
      intros [= <-]. reflexivity.
  - intros Hv cmd. subst cmd. split.
    + unfold mode.YarnProvider_Plan, bind, ret, mode.yarn_cache_cmd.
      cbn [mode.recording mode.Output fst snd]. rewrite Hv. cbn [fst snd app].
      destruct (mode.Output Exec _ s1) as [[out [e|]] s3]; cbn [fst snd]; [reflexivity|].
      destruct (String.eqb (strings_TrimSpace out) EmptyString); reflexivity.
    + intros Ho r. unfold mode.YarnProvider_Plan, bind, ret, mode.yarn_cache_cmd.
      rewrite Hv. cbv beta iota zeta.
      destruct (strings_HasPrefix (strings_TrimSpace versionOutput) mode.yarnV1Prefix);
        rewrite Ho;
        (destruct (String.eqb _ EmptyString); cbn [fst]; [discriminate|]);
        intros [= <-]; reflexivity.
Qed.

(** C9, amended. When [golangci-lint cache status] succeeds and no scanned
    line has the prefix: if the scanner reaches the end of the output
    without an error, the plan is the default cache directory, with no
    error; if the scanner stops with an error, the plan is that error. *)
Theorem GolangCILint_default_cache_dir :
  forall (s s' : S) (output : string) (lines : list string) (scanErr : option error),
    mode.Output Exec ["golangci-lint"; "cache"; "status"] s = ((output, None), s') ->
    bufio_Scan output = (lines, scanErr) ->
    Forall (fun text => names_dir text = false) lines ->
    mode.GolangCILintProvider_Plan Exec s
      = (match scanErr with
         | None =>
             ({| mode.AddEnvs := ∅; mode.MountPaths := ["~/.cache/golangci-lint"];
                 mode.RemovePaths := [] |}, None)
         | Some err =>
             (mode.PlanResult_zero, Some (fmt_Errorf "scanning golangci-lint output" err))
         end, s').
Proof.
  intros s s' output lines scanErr Ho Hscan Hlines.
  unfold mode.GolangCILintProvider_Plan, bind, ret. rewrite Ho, Hscan.
  assert (Hfind : mode.golangCILint_find lines = None).
  { clear Hscan. induction lines as [|text rest IH]; [reflexivity|].
    inversion Hlines as [|? ? Htext Hrest]; subst. cbn [mode.golangCILint_find].
    unfold names_dir in Htext. rewrite Htext. by apply IH. }
  rewrite Hfind. destruct scanErr; reflexivity.
Qed.

End Plans.

(** Witness of [version_gated_plans]: an old pnpm that prints a warning. *)
Lemma version_gated_plans_witness :
  (semver_Compare (Libs := unix_libs) (mode.pnpm_version ("9.6.0" ++ String LF EmptyString))
     mode.pnpmWarningFixVersion < 0)%Z
  /\ fst (mode.PnpmProvider_Plan (libs := unix_libs) old_pnpm_exec tt)
     = ({| mode.AddEnvs := {[ "npm_config_package_import_method" := "copy" ]};
           mode.MountPaths := ["/home/u/.local/share/pnpm/store/v3"];
           mode.RemovePaths := [] |}, None)
  /\ Forall no_warning (strings_Split_LF "/home/u/.local/share/pnpm/store/v3").
Proof.
  split; [reflexivity|]. split; [vm_compute; reflexivity|].
  exact (proj2 (proj1 (proj2 (proj1
           (version_gated_plans (libs := unix_libs) old_pnpm_exec tt tt tt _ _)
           eq_refl eq_refl)) eq_refl _ eq_refl)).
Defined.

(** Counterexample to C8 as stated for pnpm: on both sides of the threshold the
    provider runs the same second command. *)
Lemma version_gated_plans_counterexample :
  (compare_versions "v9.6.0" mode.pnpmWarningFixVersion < 0)%Z
  /\ (0 <= compare_versions "v9.7.0" mode.pnpmWarningFixVersion)%Z
  /\ snd (snd (mode.PnpmProvider_Plan (libs := unix_libs) (mode.recording old_pnpm_exec)
                 (tt, [])))
     = snd (snd (mode.PnpmProvider_Plan (libs := unix_libs) (mode.recording new_pnpm_exec)
                   (tt, []))).
Proof. split; [reflexivity|]. split; [discriminate|]. vm_compute. reflexivity. Qed.

(** Witness of [GolangCILint_default_cache_dir]: a status that only gives
    the size. *)
Lemma GolangCILint_default_cache_dir_witness :
  bufio_Scan size_only_status = (["Size: 123MB"], None)
  /\ Forall (fun text => names_dir (libs := unix_libs) text = false) ["Size: 123MB"]
  /\ mode.GolangCILintProvider_Plan (libs := unix_libs) (lint_exec size_only_status) tt
     = (({| mode.AddEnvs := ∅; mode.MountPaths := ["~/.cache/golangci-lint"];
            mode.RemovePaths := [] |}, None), tt).
Proof.
  assert (Hl : Forall (fun text => names_dir (libs := unix_libs) text = false)
                 ["Size: 123MB"]) by (constructor; [reflexivity|constructor]).
  split; [reflexivity|]. split; [exact Hl|].
  exact (GolangCILint_default_cache_dir (libs := unix_libs) (lint_exec size_only_status)
           tt tt size_only_status ["Size: 123MB"] None eq_refl eq_refl Hl).
Defined.

(** Counterexample to C9 as stated: on a status of one line too long for the scanner,
    no line has the prefix and the plan is an error. *)
Lemma GolangCILint_counterexample :
  forallb (fun text => negb (names_dir (libs := unix_libs) text))
    (strings_Split_LF long_status) = true
  /\ fst (mode.GolangCILintProvider_Plan (libs := unix_libs) (lint_exec long_status) tt)
     = (mode.PlanResult_zero,
        Some (fmt_Errorf "scanning golangci-lint output" bufio_ErrTooLong)).
Proof. split; vm_compute; reflexivity. Qed.

(** The earlier revision of the plan has no default: the same status that
    only gives the size is an error there. *)
Lemma GolangCILint_old_has_no_default :
  fst (mode.GolangCILintProvider_Plan_old (libs := unix_libs) (lint_exec size_only_status) tt)
  = (mode.PlanResult_zero, Some (errors_New "cache dir not found in golangci-lint output")).
Proof. vm_compute. reflexivity. Qed.

(** * Further properties of the code *)

(** ** White space *)

Lemma prefix_split (w s : string) :
  String.prefix w s = true -> s = (w ++ string_drop (String.length w) s)%string.
Proof.
  revert s. induction w as [|x w IH]; intros s; [reflexivity|].
  destruct s as [|y s]; [discriminate|]. cbn [String.prefix String.length string_drop].
  destruct (ascii_dec x y) as [->|]; [|discriminate].
  intros Hp. rewrite append_cons. f_equal. by apply IH.
Qed.

Lemma prefix_app_same (w s : string) : String.prefix w (w ++ s) = true.
Proof.
  induction w as [|x w IH]; [apply prefix_nil|]. rewrite append_cons.
  cbn [String.prefix]. by destruct (ascii_dec x x).
Qed.

Lemma prefix_iff (w s : string) :
  String.prefix w s = true <-> exists rest, s = (w ++ rest)%string.
Proof.
  split.
  - intros Hp. eexists. by apply prefix_split.
  - intros [rest ->]. apply prefix_app_same.
Qed.


Lemma string_length_app (a b : string) :
  String.length (a ++ b) = String.length a + String.length b.
Proof.
  induction a as [|x a IH]; [reflexivity|]. rewrite append_cons. cbn [String.length].
  by rewrite IH.
Qed.

Lemma string_app_inv_head (a b c : string) : (a ++ b = a ++ c)%string -> b = c.
Proof.
  induction a as [|x a IH]; [done|]. rewrite !append_cons. intros [= Heq]. by apply IH.
Qed.

Lemma white_one (w : string) : In w space_encodings -> white w.
Proof.
  intros Hw. rewrite <- (append_nil_r w). apply white_cons; [exact Hw|constructor].
Qed.

Lemma white_app (a b : string) : white a -> white b -> white (a ++ b).
Proof.
  induction 1 as [|w s Hw Hs IH]; intros Hb; [exact Hb|].
  rewrite string_app_assoc. apply white_cons; [exact Hw|by apply IH].
Qed.

Lemma space_encoding_length (w : string) :
  In w space_encodings -> 0 < String.length w.
Proof.
  intros Hin. vm_compute in Hin.
  repeat (destruct Hin as [<-|Hin]; [cbn; lia|]). destruct Hin.
Qed.


Lemma leading_space_some (s : string) (n : nat) :
  leading_space s = Some n ->
  exists w, In w space_encodings /\ String.prefix w s = true /\ String.length w = n.
Proof.
  unfold leading_space.
  destruct (List.find _ space_encodings) as [w|] eqn:Hf; [|discriminate].
  intros [= <-]. apply List.find_some in Hf as [Hin Hp]. eauto.
Qed.

Lemma leading_space_prefix (w s : string) :
  In w space_encodings -> String.prefix w s = true -> leading_space s <> None.
Proof.
  intros Hin Hp. unfold leading_space.
  destruct (List.find _ space_encodings) as [w'|] eqn:Hf; [discriminate|].
  pose proof (List.find_none _ _ Hf w Hin) as Hn. cbn in Hn. congruence.
Qed.


Lemma leading_space_app_none (a b : string) :
  leading_space (a ++ b) = None -> leading_space a = None.
Proof.
  intros Hab. destruct (leading_space a) as [n|] eqn:Ha; [|reflexivity].
  apply leading_space_some in Ha as (w & Hin & Hp & _).
  by destruct (leading_space_prefix w (a ++ b) Hin (prefix_append w a b Hp)).
Qed.

Lemma trailing_space_some (r : string) (n : nat) :
  trailing_space r = Some n ->
  exists w, In w space_encodings /\ String.prefix (string_rev w) r = true
            /\ String.length w = n.
Proof.
  unfold trailing_space.
  destruct (List.find _ space_encodings) as [w|] eqn:Hf; [|discriminate].
  intros [= <-]. apply List.find_some in Hf as [Hin Hp]. eauto.
Qed.

Lemma string_rev_length (s : string) : String.length (string_rev s) = String.length s.
Proof.
  induction s as [|c s IH]; [reflexivity|].
  rewrite string_rev_cons, string_length_app, IH. cbn. lia.
Qed.

Lemma trim_left_skip (k : nat) (s : string) :
  trim_left k s = trim_left 0 (string_drop k s).
Proof.
  revert k. induction s as [|c s IH]; intros k.
  - by destruct k.
  - destruct k as [|k]; [reflexivity|]. cbn [trim_left string_drop]. apply IH.
Qed.

Lemma trim_right_rev_skip (k : nat) (r : string) :
  trim_right_rev k r = trim_right_rev 0 (string_drop k r).
Proof.
  revert k. induction r as [|c r IH]; intros k.
  - by destruct k.
  - destruct k as [|k]; [reflexivity|]. cbn [trim_right_rev string_drop]. apply IH.
Qed.

Lemma trim_left_step (s : string) :
  match leading_space s with
  | Some n => trim_left 0 s = trim_left 0 (string_drop n s)
  | None => trim_left 0 s = s
  end.
Proof.
  destruct s as [|c s]; [reflexivity|]. cbn [trim_left].
  destruct (leading_space (String c s)) as [[|k]|] eqn:Hl; try reflexivity.
  - apply leading_space_positive in Hl. lia.
  - rewrite trim_left_skip. reflexivity.
Qed.

Lemma trim_right_rev_step (r : string) :
  match trailing_space r with
  | Some n => trim_right_rev 0 r = trim_right_rev 0 (string_drop n r)
  | None => trim_right_rev 0 r = r
  end.
Proof.
  destruct r as [|c r]; [reflexivity|]. cbn [trim_right_rev].
  destruct (trailing_space (String c r)) as [[|k]|] eqn:Hl; try reflexivity.
  - apply trailing_space_some in Hl as (w & Hin & _ & Hk).
    apply space_encoding_length in Hin. lia.
  - rewrite trim_right_rev_skip. reflexivity.
Qed.

Lemma trim_left_spec (s : string) :
  exists pre, s = (pre ++ trim_left 0 s)%string /\ white pre
              /\ leading_space (trim_left 0 s) = None.
Proof.
  remember (String.length s) as n eqn:Hn. revert s Hn.
  induction n as [n IH] using lt_wf_ind. intros s Hn.
  pose proof (trim_left_step s) as Hstep.
  destruct (leading_space s) as [k|] eqn:Hl.
  - apply leading_space_some in Hl as (w & Hin & Hp & Hk). subst k.
    pose proof (prefix_split w s Hp) as Hs.
    pose proof (space_encoding_length w Hin) as Hpos.
    destruct (IH (String.length (string_drop (String.length w) s))) with
      (s := string_drop (String.length w) s) as (pre & Hpre & Hwhite & Hlead);
      [|reflexivity|].
    { subst n. rewrite Hs at 2. rewrite string_length_app. lia. }
    exists (w ++ pre)%string. rewrite Hstep. split; [|split].
    + rewrite string_app_assoc, <- Hpre. exact Hs.
    + by apply white_cons.
    + exact Hlead.
  - exists EmptyString. rewrite Hstep. split; [reflexivity|]. split; [constructor|exact Hl].
Qed.

Lemma trim_right_rev_spec (r : string) :
  exists pre, r = (pre ++ trim_right_rev 0 r)%string /\ white (string_rev pre)
              /\ trailing_space (trim_right_rev 0 r) = None.
Proof.
  remember (String.length r) as n eqn:Hn. revert r Hn.
  induction n as [n IH] using lt_wf_ind. intros r Hn.
  pose proof (trim_right_rev_step r) as Hstep.
  destruct (trailing_space r) as [k|] eqn:Hl.
  - apply trailing_space_some in Hl as (w & Hin & Hp & Hk). subst k.
    pose proof (prefix_split _ r Hp) as Hs. rewrite string_rev_length in Hs.
    pose proof (space_encoding_length w Hin) as Hpos.
    destruct (IH (String.length (string_drop (String.length w) r))) with
      (r := string_drop (String.length w) r) as (pre & Hpre & Hwhite & Hlead);
      [|reflexivity|].
    { subst n. rewrite Hs at 2. rewrite string_length_app, string_rev_length. lia. }
    exists (string_rev w ++ pre)%string. rewrite Hstep. split; [|split].
    + rewrite string_app_assoc, <- Hpre. exact Hs.
    + rewrite string_rev_append, string_rev_involutive.
      apply white_app; [exact Hwhite|by apply white_one].
    + exact Hlead.
  - exists EmptyString. rewrite Hstep. split; [reflexivity|]. split; [constructor|exact Hl].
Qed.


(** [strings.TrimSpace] takes a run of white-space runes off each end,
    and what is left neither starts nor ends with one. *)
Lemma TrimSpace_spec (s : string) :
  exists pre post,
    s = (pre ++ strings_TrimSpace s ++ post)%string
    /\ white pre /\ white post /\ trimmed (strings_TrimSpace s).
Proof.
  unfold strings_TrimSpace, strings_TrimLeft, strings_TrimRight.
  destruct (trim_left_spec s) as (pre & Hs & Hpre & Hlead).
  set (u := trim_left 0 s) in *.
  destruct (trim_right_rev_spec (string_rev u)) as (post & Hu & Hpost & Htrail).
  set (t := trim_right_rev 0 (string_rev u)) in *.
  assert (Hu' : u = (string_rev t ++ string_rev post)%string).
  { rewrite <- string_rev_append, <- Hu. by rewrite string_rev_involutive. }
  exists pre, (string_rev post). split; [by rewrite <- Hu'|].
  split; [exact Hpre|]. split; [exact Hpost|]. split.
  - apply (leading_space_app_none _ (string_rev post)). by rewrite <- Hu'.
  - by rewrite string_rev_involutive.
Qed.



(** ** The detectors *)

Section MoreDetect.
Context {S : Type} (Exec : mode.Executor S).

Ltac run_detect' :=
  cbn [mode.Provider_Detect binary marker_files probes];
  unfold mode.AptProvider_Detect, mode.BrewProvider_Detect, mode.BunProvider_Detect,
    mode.CocoapodsProvider_Detect, mode.ComposerProvider_Detect,
    mode.DenoProvider_Detect, mode.GoProvider_Detect,
    mode.GolangCILintProvider_Detect, mode.GradleProvider_Detect,
    mode.MavenProvider_Detect, mode.MiseProvider_Detect, mode.NixProvider_Detect,
    mode.PlaywrightProvider_Detect, mode.PnpmProvider_Detect,
    mode.PoetryProvider_Detect, mode.PythonProvider_Detect,
    mode.RubyProvider_Detect, mode.RustProvider_Detect,
    mode.SwiftPMProvider_Detect, mode.UVProvider_Detect,
    mode.XcodeProvider_Detect, mode.YarnProvider_Detect,
    mode.GoProvider_Detect_old, mode.GolangCILintProvider_Detect_old,
    bind, ret.

(** X5. Whatever the provider, when looking up its binary fails with an
    error that is not [exec.ErrNotFound], [Detect] returns [false] and that
    error wrapped as "lookpath <binary>: ...", and leaves the executor as
    the lookup left it; so do the two binary-only detectors of the earlier
    revision. *)
Theorem Detect_lookup_failure :
  forall (s s' : S) (path : string) (e : error),
    errors_Is e exec_ErrNotFound = false ->
    (forall p, mode.LookPath Exec (binary p) s = ((path, Some e), s') ->
               mode.Provider_Detect Exec p s
                 = ((false, Some (fmt_Errorf ("lookpath " ++ binary p) e)), s')
               /\ snd (snd (mode.Provider_Detect (mode.recording Exec) p (s, [])))
                  = [mode.CallLookPath (binary p)])
    /\ (mode.LookPath Exec "go" s = ((path, Some e), s') ->
        mode.GoProvider_Detect_old Exec s
          = ((false, Some (fmt_Errorf "lookpath go" e)), s'))
    /\ (mode.LookPath Exec "golangci-lint" s = ((path, Some e), s') ->
        mode.GolangCILintProvider_Detect_old Exec s
          = ((false, Some (fmt_Errorf "lookpath golangci-lint" e)), s')).
Proof.
  intros s s' path e He. split; [|split].
  - intros p Hl. split.
    + destruct p; run_detect'; cbn [binary] in Hl; rewrite Hl, He; reflexivity.
    + destruct p; run_detect'; cbn [binary] in Hl;
        cbn [mode.recording mode.LookPath fst snd]; rewrite Hl, He; reflexivity.
  - intros Hl. run_detect'. rewrite Hl, He. reflexivity.
  - intros Hl. run_detect'. rewrite Hl, He. reflexivity.
Qed.

Lemma Detect_files_failure (files : list string) (s : S) (pre post : list (option error))
    (e : error) :
  stat_seq Exec files s = pre ++ Some e :: post ->
  Forall absent pre ->
  errors_Is e os_ErrNotExist = false ->
  fst (mode.Detect_files Exec files s)
    = (false, Some (fmt_Errorf ("stat " ++ List.nth (List.length pre) files EmptyString) e)).
Proof.
  revert s pre. induction files as [|file rest IH]; intros s pre Hseq Hpre He;
    cbn [mode.Detect_files stat_seq] in *.
  - destruct pre; discriminate.
  - unfold bind. destruct (mode.Stat Exec file s) as [r s1].
    destruct pre as [|r0 pre]; cbn [app List.length List.nth] in *.
    + injection Hseq as -> _. rewrite He. reflexivity.
    + injection Hseq as -> Hseq. inversion Hpre as [|? ? Ha Hpre']; subst.
      destruct r0 as [e0|]; [|by apply absent_None in Ha].
      apply absent_inv in Ha. rewrite Ha. cbn [negb]. by apply IH.
Qed.

(** X6. For a provider with marker files: when the binary resolves and
    the stat of a marker file fails with an error that is not not-exist,
    the files before it being absent, [Detect] returns [false] and that
    error wrapped as "stat <file>: ...". *)
Theorem Detect_marker_stat_failure :
  forall (p : mode.Provider) (s : S) (pre post : list (option error)) (e : error),
    marker_files p <> [] ->
    let lookup := mode.LookPath Exec (binary p) s in
    snd (fst lookup) = None ->
    stat_seq Exec (marker_files p) (snd lookup) = pre ++ Some e :: post ->
    Forall absent pre ->
    errors_Is e os_ErrNotExist = false ->
    fst (mode.Provider_Detect Exec p s)
      = (false,
         Some (fmt_Errorf
                 ("stat " ++ List.nth (List.length pre) (marker_files p) EmptyString) e)).
Proof.
  intros p s pre post e Hm lookup Hres Hseq Hpre He. subst lookup.
  rewrite (Detect_as_files Exec p s Hm).
  destruct (mode.LookPath Exec (binary p) s) as [[path r] s1]. cbn [fst snd] in *.
  subst r. by apply (Detect_files_failure _ _ pre post).
Qed.

Lemma Detect_files_calls (files : list string) (s : S) (log : list mode.Call) :
  exists n,
    snd (snd (mode.Detect_files (mode.recording Exec) files (s, log)))
      = log ++ List.map mode.CallStat (List.firstn n files).
Proof.
  revert s log. induction files as [|file rest IH]; intros s log;
    cbn [mode.Detect_files].
  - exists 0. unfold ret. cbn. by rewrite List.app_nil_r.
  - unfold bind. cbn [mode.recording mode.Stat fst snd].
    destruct (mode.Stat Exec file s) as [[e|] s1].
    + destruct (errors_Is e os_ErrNotExist); cbn [negb].
      * destruct (IH s1 (log ++ [mode.CallStat file])) as [n Hn].
        exists (Datatypes.S n). rewrite Hn. cbn [List.firstn List.map].
        by rewrite <- List.app_assoc.
      * exists 1. reflexivity.
    + exists 1. reflexivity.
Qed.

(** X4. The calls of [Detect], whatever the provider: first the lookup of
    its binary, then some of its probes in their order (the stats of its
    marker files, or for Xcode the listing of the working directory) and
    nothing else; in particular no command is run. *)
Theorem Detect_calls :
  forall (p : mode.Provider) (s : S),
    exists n,
      snd (snd (mode.Provider_Detect (mode.recording Exec) p (s, [])))
        = mode.CallLookPath (binary p) :: List.firstn n (probes p).
Proof.
  intros p s.
  destruct (decide (marker_files p = [])) as [Hnil|Hm].
  - destruct p; try discriminate Hnil; run_detect';
      cbn [mode.recording mode.LookPath mode.ReadDir fst snd];
      destruct (mode.LookPath Exec _ s) as [[path [e|]] s1]; cbn [fst snd app];
      try (destruct (errors_Is e exec_ErrNotFound); exists 0; reflexivity);
      try (exists 0; reflexivity).
    destruct (mode.ReadDir Exec "." s1) as [[entries [e|]] s2]; cbn [fst snd app].
    + exists 1. reflexivity.
    + exists 1. destruct (mode.Detect_entries entries). reflexivity.
  - rewrite (Detect_as_files (mode.recording Exec) p (s, []) Hm).
    cbn [mode.recording mode.LookPath fst snd].
    destruct (mode.LookPath Exec (binary p) s) as [[path [e|]] s1]; cbn [fst snd app].
    + exists 0. destruct (errors_Is e exec_ErrNotFound); reflexivity.
    + destruct (Detect_files_calls (marker_files p) s1 [mode.CallLookPath (binary p)])
        as [n Hn].
      exists n.
      change (mode.Detect_files
                {| mode.LookPath := mode.LookPath (mode.recording Exec);
                   mode.Output := mode.Output (mode.recording Exec);
                   mode.Stat := mode.Stat (mode.recording Exec);
                   mode.ReadDir := mode.ReadDir (mode.recording Exec) |})
        with (mode.Detect_files (mode.recording Exec)).
      rewrite Hn. cbn [app]. f_equal.
      destruct p; try (exfalso; apply Hm; reflexivity); cbn [probes];
        symmetry; apply List.firstn_map.
Qed.

Lemma HasSuffix_iff (s suffix : string) :
  strings_HasSuffix s suffix = true <-> exists stem, s = (stem ++ suffix)%string.
Proof.
  unfold strings_HasSuffix. rewrite prefix_iff. split.
  - intros [rest Hr]. exists (string_rev rest).
    rewrite <- (string_rev_involutive s), Hr, string_rev_append.
    by rewrite string_rev_involutive.
  - intros [stem ->]. exists (string_rev stem). apply string_rev_append.
Qed.

Lemma Detect_entries_spec (entries : list string) :
  exists d, mode.Detect_entries entries = (d, None)
            /\ (d = true <->
                exists entry stem,
                  In entry entries /\ entry = (stem ++ mode.xcodeProjSuffix)%string).
Proof.
  induction entries as [|entry rest (d & Hd & Hiff)]; cbn [mode.Detect_entries].
  - exists false. split; [reflexivity|]. split; [discriminate|].
    intros (entry & stem & [] & _).
  - destruct (strings_HasSuffix entry mode.xcodeProjSuffix) eqn:Hs.
    + exists true. split; [reflexivity|]. split; [|reflexivity].
      intros _. apply HasSuffix_iff in Hs as [stem Hs].
      exists entry, stem. split; [by left|exact Hs].
    + exists d. split; [exact Hd|]. rewrite Hiff. split.
      * intros (entry' & stem & Hin & He). exists entry', stem. split; [by right|exact He].
      * intros (entry' & stem & [<-|Hin] & He).
        -- assert (Ht : strings_HasSuffix entry mode.xcodeProjSuffix = true)
             by (apply HasSuffix_iff; eauto).
           congruence.
        -- eauto.
Qed.

(** X7. Xcode: when xcodebuild resolves and the working directory can be
    listed, [Detect] returns no error and detects the mode exactly when
    the name of some entry ends with ".xcodeproj"; when the listing fails,
    [Detect] returns [false] and the error wrapped as "readdir: ...". *)
Theorem Xcode_Detect_project :
  forall (s s1 s2 : S) (path : string) (entries : list string) (r : option error),
    mode.LookPath Exec "xcodebuild" s = ((path, None), s1) ->
    mode.ReadDir Exec "." s1 = ((entries, r), s2) ->
    match r with
    | None =>
        exists d, mode.Provider_Detect Exec mode.XcodeProvider s = ((d, None), s2)
                  /\ (d = true <->
                      exists entry stem,
                        In entry entries /\ entry = (stem ++ ".xcodeproj")%string)
    | Some e =>
        mode.Provider_Detect Exec mode.XcodeProvider s
          = ((false, Some (fmt_Errorf "readdir" e)), s2)
    end.
Proof.
  intros s s1 s2 path entries r Hl Hr. run_detect'. rewrite Hl, Hr.
  destruct r as [e|]; [reflexivity|].
  destruct (Detect_entries_spec entries) as (d & Hd & Hiff).
  exists d. rewrite Hd. split; [reflexivity|exact Hiff].
Qed.

End MoreDetect.

(** ** The plans *)


Section MorePlans.
Context {libs : Libs} {env : Env} {dec : Decoders} {S : Type} (Exec : mode.Executor S).

Ltac run_plan :=
  cbn [mode.Provider_Plan];
  unfold mode.AptProvider_Plan, mode.BrewProvider_Plan, mode.BunProvider_Plan,
    mode.CocoapodsProvider_Plan, mode.ComposerProvider_Plan, mode.DenoProvider_Plan,
    mode.GoProvider_Plan, mode.GolangCILintProvider_Plan, mode.GradleProvider_Plan,
    mode.MavenProvider_Plan, mode.MiseProvider_Plan, mode.NixProvider_Plan,
    mode.PlaywrightProvider_Plan, mode.PnpmProvider_Plan, mode.PoetryProvider_Plan,
    mode.PythonProvider_Plan, mode.RubyProvider_Plan, mode.RustProvider_Plan,
    mode.SwiftPMProvider_Plan, mode.UVProvider_Plan, mode.XcodeProvider_Plan,
    mode.YarnProvider_Plan, bind, ret.


Lemma golangCILint_find_first (pre post : list string) (text : string) :
  Forall (fun t => names_dir t = false) pre ->
  names_dir text = true ->
  mode.golangCILint_find (pre ++ text :: post)
    = Some (strings_TrimSpace (string_drop 4 (strings_TrimSpace text))).
Proof.
  intros Hpre Htext. induction pre as [|t pre IH]; cbn [app mode.golangCILint_find].
  - unfold names_dir in Htext. rewrite Htext. reflexivity.
  - inversion Hpre as [|? ? Ht Hpre']; subst. unfold names_dir in Ht. rewrite Ht.
    by apply IH.
Qed.

(** X10. golangci-lint: the first scanned line that has the prefix
    "dir:" (after trimming, whatever the case of its letters) decides the
    plan, whatever the lines after it hold and even when the scanner fails
    on a later line: the mount path is what follows the prefix on that
    line, without the white space around it. *)
Theorem GolangCILint_first_dir_line :
  forall (s s' : S) (output : string) (pre post : list string) (text : string)
         (scanErr : option error),
    mode.Output Exec ["golangci-lint"; "cache"; "status"] s = ((output, None), s') ->
    bufio_Scan output = (pre ++ text :: post, scanErr) ->
    Forall (fun t => names_dir t = false) pre ->
    names_dir text = true ->
    let d := strings_TrimSpace (string_drop 4 (strings_TrimSpace text)) in
    mode.GolangCILintProvider_Plan Exec s
      = (({| mode.AddEnvs := ∅; mode.MountPaths := [d]; mode.RemovePaths := [] |}, None), s')
    /\ trimmed d.
Proof.
  intros s s' output pre post text scanErr Ho Hscan Hpre Htext d. split.
  - unfold mode.GolangCILintProvider_Plan, bind, ret. rewrite Ho, Hscan.
    by rewrite (golangCILint_find_first pre post text Hpre Htext).
  - subst d. destruct (TrimSpace_spec (string_drop 4 (strings_TrimSpace text)))
      as (a & b & _ & _ & _ & Ht). exact Ht.
Qed.

(** X11. The calls of [Plan], whatever the provider: commands, at most
    two, and for apt possibly one stat; no lookup of a binary and no
    listing of a directory. And whenever [Plan] returns an error, the plan
    it returns with it is the zero value. *)
Theorem Plan_calls :
  forall (p : mode.Provider) (enabled : list string) (s : S),
    let out := mode.Provider_Plan (mode.recording Exec) enabled p (s, []) in
    Forall (plan_call p) (snd (snd out))
    /\ List.length (snd (snd out)) <= 2
    /\ (snd (fst out) <> None -> fst (fst out) = mode.PlanResult_zero).
Proof.
  intros p enabled s. cbv zeta.
  destruct p; run_plan; unfold mode.yarn_cache_cmd;
    cbn [mode.recording mode.Output mode.Stat fst snd app];
    repeat (match goal with
            | |- context [mode.Output Exec ?c ?st] =>
                destruct (mode.Output Exec c st) as [[? [?|]] ?]
            | |- context [mode.Stat Exec ?c ?st] =>
                destruct (mode.Stat Exec c st) as [[?|] ?]
            | |- context [bufio_Scan ?o] => destruct (bufio_Scan o) as [? [?|]]
            | |- context [json_Unmarshal_any ?o] =>
                destruct (json_Unmarshal_any o) as [? [?|]]
            | |- context [json_Unmarshal_strings ?o] =>
                destruct (json_Unmarshal_strings o) as [? [?|]]
            | |- context [os_UserHomeDir] => destruct os_UserHomeDir as [? [?|]]
            | |- context [mode.golangCILint_find ?l] => destruct (mode.golangCILint_find l)
            | |- context [@lookup _ _ _ _ ?k ?m] => destruct (@lookup _ _ _ _ k m)
            | |- context [match ?x with json_string _ => _ | json_other => _ end] =>
                destruct x
            | |- context [if ?b then _ else _] => destruct b
            end; cbn [fst snd app negb andb default]);
    (split; [repeat constructor|split; [cbn; lia|cbn; first [done|congruence]]]).
Qed.

End MorePlans.

(** ** The registry *)

Lemma sort_insert_perm (x : string) (l : list string) :
  Permutation (sort_insert x l) (x :: l).
Proof.
  induction l as [|y l IH]; cbn [sort_insert]; [reflexivity|].
  destruct (String.leb x y); [reflexivity|].
  rewrite IH. apply perm_swap.
Qed.

Lemma slices_Sort_perm (l : list string) : Permutation (slices_Sort l) l.
Proof.
  unfold slices_Sort. induction l as [|x l IH]; cbn [List.fold_right]; [reflexivity|].
  rewrite sort_insert_perm. by constructor.
Qed.

Lemma sort_insert_sorted (x : string) (l : list string) :
  Sorted string_le l -> Sorted string_le (sort_insert x l).
Proof.
  induction l as [|y l IH]; intros Hl; cbn [sort_insert].
  - repeat constructor.
  - destruct (String.leb x y) eqn:Hxy.
    + constructor; [exact Hl|]. by constructor.
    + apply Sorted_inv in Hl as [Hl Hhd]. constructor; [by apply IH|].
      assert (Hyx : string_le y x).
      { unfold string_le. destruct (String.leb_total x y); congruence. }
      destruct l as [|z l]; cbn [sort_insert].
      * by constructor.
      * destruct (String.leb x z); constructor; [exact Hyx|].
        by inversion Hhd.
Qed.

Lemma slices_Sort_sorted (l : list string) : Sorted string_le (slices_Sort l).
Proof.
  unfold slices_Sort. induction l as [|x l IH]; cbn [List.fold_right]; [constructor|].
  by apply sort_insert_sorted.
Qed.

(** X1. [Names] returns the names of the providers, one per provider, in
    ascending order. *)
Theorem Names_sorted_permutation :
  forall (modes : mode.Modes),
    Permutation (mode.Modes_Names modes) (List.map mode.Name modes)
    /\ Sorted string_le (mode.Modes_Names modes).
Proof.
  intros modes. split; [apply slices_Sort_perm|apply slices_Sort_sorted].
Qed.

Lemma Names_known (modes : mode.Modes) (name : string) :
  In name (mode.Modes_Names modes) <-> known modes name.
Proof.
  unfold known. split; apply Permutation_in;
    [|symmetry]; apply slices_Sort_perm.
Qed.

Lemma slices_Contains_In (l : list string) (v : string) :
  slices_Contains l v = true <-> In v l.
Proof.
  unfold slices_Contains. rewrite List.existsb_exists. split.
  - intros (x & Hin & Heq). apply String.eqb_eq in Heq. by subst.
  - intros Hin. exists v. split; [exact Hin|apply String.eqb_refl].
Qed.

Lemma errgroup_Wait_none {A : Type} (f : A -> option error) (l : list A) :
  (forall x, In x l -> f x = None) -> mode.errgroup_Wait (List.map f l) = None.
Proof.
  induction l as [|y l IH]; intros Hall; cbn [List.map mode.errgroup_Wait]; [reflexivity|].
  rewrite (Hall y (or_introl eq_refl)). apply IH. intros x Hx. apply Hall. by right.
Qed.

Lemma filter_perm {A : Type} (f : A -> bool) (l l' : list A) :
  Permutation l l' -> Permutation (List.filter f l) (List.filter f l').
Proof.
  induction 1 as [|x l l' _ IH|x y l|l l' l'' _ IH1 _ IH2]; cbn [List.filter].
  - reflexivity.
  - destruct (f x); [by constructor|exact IH].
  - destruct (f x), (f y); try reflexivity. apply perm_swap.
  - by etransitivity.
Qed.

Section MoreRegistry.
Context {rt : mode.Runtime}.

(** X2. When no provider of the registry fails in [Detect], the batch
    returns no error and exactly the providers that reported the mode
    present, each as often as it is in the registry; their order is the
    order in which the goroutines finished. *)
Theorem Modes_Detect_success :
  forall (modes : mode.Modes) (req : mode.DetectRequest),
    (forall p, In p modes -> snd (mode.Detect p (mode.DetectRequest_default req)) = None) ->
    exists ps,
      mode.Modes_Detect modes req = (ps, None)
      /\ Permutation ps
           (List.filter (fun p => fst (mode.Detect p (mode.DetectRequest_default req)))
              modes).
Proof.
  intros modes req Hok. unfold mode.Modes_Detect.
  set (req' := mode.DetectRequest_default req) in *.
  assert (Htask : forall p, In p modes ->
                            mode.Detect_task req' p = (None, fst (mode.Detect p req'))).
  { intros p Hin. specialize (Hok p Hin). unfold mode.Detect_task.
    destruct (mode.Detect p req') as [d e]. cbn in *. by subst e. }
  assert (Hfin : forall p, In p (mode.detect_completion modes) -> In p modes).
  { intros p. apply Permutation_in, mode.detect_completion_perm. }
  rewrite errgroup_Wait_none.
  2:{ intros p Hin. by rewrite Htask by auto. }
  eexists. split; [reflexivity|].
  rewrite <- (filter_perm _ _ _ (mode.detect_completion_perm modes)).
  apply Permutation_refl'. apply List.filter_ext_in.
  intros p Hin. by rewrite Htask by auto.
Qed.

Lemma plans_lookup (req : mode.PlanRequest) (finished : mode.Modes)
    (acc : gmap string mode.PlanResult) (name : string) (r : mode.PlanResult) :
  List.fold_left
    (fun plans m =>
       match snd (mode.Plan_task req m) with
       | Some result => <[mode.Name m := result]> plans
       | None => plans
       end) finished acc !! name = Some r ->
  acc !! name = Some r
  \/ exists p, In p finished /\ mode.Name p = name /\ mode.Plan p req = (r, None).
Proof.
  revert acc. induction finished as [|m finished IH]; intros acc; cbn [List.fold_left].
  - auto.
  - intros Hl. destruct (IH _ Hl) as [Hacc|(p & Hin & Hn & Hp)].
    + unfold mode.Plan_task in Hacc.
      destruct (mode.Plan m req) as [result [e|]] eqn:Hm; cbn [snd] in Hacc; [by left|].
      destruct (decide (mode.Name m = name)) as [<-|Hne].
      * rewrite lookup_insert_eq in Hacc. injection Hacc as ->.
        right. exists m. split; [by left|done].
      * rewrite lookup_insert_ne in Hacc by done. by left.
    + right. exists p. split; [by right|done].
Qed.

Lemma plans_known (req : mode.PlanRequest) (finished : mode.Modes)
    (acc : gmap string mode.PlanResult) (name : string) :
  (forall p, In p finished -> snd (mode.Plan p req) = None) ->
  known finished name \/ is_Some (acc !! name) ->
  is_Some (List.fold_left
             (fun plans m =>
                match snd (mode.Plan_task req m) with
                | Some result => <[mode.Name m := result]> plans
                | None => plans
                end) finished acc !! name).
Proof.
  unfold known. revert acc.
  induction finished as [|m finished IH]; intros acc Hok; cbn [List.fold_left List.map].
  - intros [[]|Hacc]. exact Hacc.
  - intros Hk. apply IH; [intros p Hp; apply Hok; by right|].
    pose proof (Hok m (or_introl eq_refl)) as Hm. unfold mode.Plan_task.
    destruct (mode.Plan m req) as [result e]. cbn in Hm. subst e. cbn [snd].
    destruct (decide (mode.Name m = name)) as [<-|Hne].
    + right. rewrite lookup_insert_eq. eauto.
    + rewrite lookup_insert_ne by done.
      destruct Hk as [[Heq|Hin]|Hacc]; [done|by left|by right].
Qed.

Lemma Modes_Plan_ok (modes : mode.Modes) (req : mode.PlanRequest) :
  (forall p, In p modes -> snd (mode.Plan p (mode.PlanRequest_prepare modes req)) = None) ->
  exists plans,
    mode.Modes_Plan modes req = (plans, None)
    /\ (forall name, is_Some (plans !! name) <-> known modes name)
    /\ (forall name r, plans !! name = Some r ->
          exists p, In p modes /\ mode.Name p = name
                    /\ mode.Plan p (mode.PlanRequest_prepare modes req) = (r, None)).
Proof.
  intros Hok. unfold mode.Modes_Plan.
  set (req' := mode.PlanRequest_prepare modes req) in *.
  assert (Hfin : forall p, In p (mode.plan_completion modes) <-> In p modes).
  { intros p. split; apply Permutation_in;
      [|symmetry]; apply mode.plan_completion_perm. }
  rewrite errgroup_Wait_none.
  2:{ intros p Hin. apply Hfin in Hin. specialize (Hok p Hin). unfold mode.Plan_task.
      destruct (mode.Plan p req') as [result e]. cbn in *. by subst e. }
  eexists. split; [reflexivity|]. split.
  - intros name. split.
    + intros [r Hr]. apply plans_lookup in Hr as [Hr|(p & Hin & Hn & _)].
      * rewrite lookup_empty in Hr. discriminate.
      * unfold known. rewrite <- Hn. apply List.in_map, Hfin, Hin.
    + intros Hk. apply plans_known.
      * intros p Hp. apply Hok, Hfin, Hp.
      * left. unfold known in *. apply List.in_map_iff in Hk as (p & Hn & Hin).
        apply List.in_map_iff. exists p. split; [exact Hn|by apply Hfin].
  - intros name r Hr. apply plans_lookup in Hr as [Hr|(p & Hin & Hn & Hp)].
    + rewrite lookup_empty in Hr. discriminate.
    + exists p. split; [by apply Hfin|done].
Qed.

(** X3. When no provider of the registry fails in [Plan], the batch
    returns no error and a map whose keys are exactly the names of the
    providers; under each name it holds the plan a provider of that name
    returned for the request [Modes.Plan] prepared, the one that carries
    the sorted names of the batch as enabled modes. *)
Theorem Modes_Plan_success :
  forall (modes : mode.Modes) (req : mode.PlanRequest),
    (forall p, In p modes ->
               snd (mode.Plan p (mode.PlanRequest_prepare modes req)) = None) ->
    mode.enabledModes (mode.PlanRequest_prepare modes req) = mode.Modes_Names modes
    /\ exists plans,
         mode.Modes_Plan modes req = (plans, None)
         /\ (forall name, is_Some (plans !! name) <-> known modes name)
         /\ (forall name r, plans !! name = Some r ->
               exists p, In p modes /\ mode.Name p = name
                         /\ mode.Plan p (mode.PlanRequest_prepare modes req) = (r, None)).
Proof.
  intros modes req Hok. split; [reflexivity|]. by apply Modes_Plan_ok.
Qed.

(** X9. swiftpm planned next to other modes: when the providers of the
    batch named "swiftpm" plan as [SwiftPMProvider.Plan] does and no
    provider fails, the plan stored under "swiftpm" has the three SwiftPM
    paths, and after them the module cache of Xcode's derived data exactly
    when no provider of the batch is named "xcode". *)
Theorem SwiftPM_plan_next_to_xcode :
  forall (modes : mode.Modes) (req : mode.PlanRequest),
    known modes "swiftpm" ->
    (forall p preq, In p modes -> mode.Name p = "swiftpm" ->
       mode.Plan p preq
         = fst (mode.SwiftPMProvider_Plan (S := unit) (mode.enabledModes preq) tt)) ->
    (forall p, In p modes ->
               snd (mode.Plan p (mode.PlanRequest_prepare modes req)) = None) ->
    exists plans plan,
      mode.Modes_Plan modes req = (plans, None)
      /\ plans !! "swiftpm" = Some plan
      /\ (known modes "xcode" ->
          mode.MountPaths plan
            = ["./.build"; "~/Library/Caches/org.swift.swiftpm";
               "~/Library/org.swift.swiftpm"])
      /\ (~ known modes "xcode" ->
          mode.MountPaths plan
            = ["./.build"; "~/Library/Caches/org.swift.swiftpm";
               "~/Library/org.swift.swiftpm";
               "~/Library/Developer/Xcode/DerivedData/ModuleCache.noindex"]).
Proof.
  intros modes req Hswift Hplan Hok.
  destruct (Modes_Plan_ok modes req Hok) as (plans & Hrun & Hdom & Hval).
  destruct (proj2 (Hdom "swiftpm") Hswift) as [plan Hl].
  exists plans, plan. split; [exact Hrun|]. split; [exact Hl|].
  destruct (Hval _ _ Hl) as (p & Hin & Hn & Hp).
  rewrite (Hplan p _ Hin Hn) in Hp. unfold mode.SwiftPMProvider_Plan, ret in Hp.
  cbn [fst mode.PlanRequest_prepare mode.enabledModes] in Hp.
  destruct (slices_Contains (mode.Modes_Names modes) "xcode") eqn:Hc; cbn [negb] in Hp;
    injection Hp as <-; cbn [mode.MountPaths]; split; intros Hx; try reflexivity.
  - exfalso. apply Hx, Names_known, slices_Contains_In, Hc.
  - apply Names_known, slices_Contains_In in Hx. congruence.
Qed.

End MoreRegistry.

(** ** The mounter *)

Lemma grown_nothing (r : cache.MountResponse) :
  r = grown [] [] (cache.Output_AddEnvs (cache.Output r)) r.
Proof.
  destruct r as [i [d a u ms rp]]. unfold grown. cbn. by rewrite !List.app_nil_r.
Qed.

Lemma grown_grown (n1 n2 : list cache.MountResult) (r1 r2 : list string)
    (e1 e2 : gmap string string) (r : cache.MountResponse) :
  grown n2 r2 e2 (grown n1 r1 e1 r) = grown (n1 ++ n2) (r1 ++ r2) e2 r.
Proof. unfold grown. cbn. by rewrite !List.app_assoc. Qed.

Lemma append_Mounts_grown (mt : cache.MountResult) (r : cache.MountResponse) :
  cache.append_Mounts mt r = grown [mt] [] (cache.Output_AddEnvs (cache.Output r)) r.
Proof. unfold grown, cache.append_Mounts. by rewrite List.app_nil_r. Qed.

Lemma append_RemovedPaths_grown (path : string) (r : cache.MountResponse) :
  cache.append_RemovedPaths path r
    = grown [] [path] (cache.Output_AddEnvs (cache.Output r)) r.
Proof. unfold grown, cache.append_RemovedPaths. by rewrite List.app_nil_r. Qed.

Lemma fold_insert_union (l : list (string * string)) (acc : gmap string string) :
  NoDup (l.*1) ->
  List.fold_left (fun acc kv => <[fst kv := snd kv]> acc) l acc
    = (list_to_map l : gmap string string) ∪ acc.
Proof.
  revert acc. induction l as [|[k v] l IH]; intros acc Hnd; cbn [List.fold_left].
  - by rewrite list_to_map_nil, (left_id_L ∅ (∪)).
  - inversion Hnd as [|? ? Hk Hnd']; subst. rewrite IH by done.
    rewrite list_to_map_cons. cbn [fst snd].
    rewrite <- insert_union_l. symmetry. apply insert_union_r.
    by apply not_elem_of_list_to_map_1.
Qed.

Lemma mountModes_envs_grown (envs : gmap string string) (r : cache.MountResponse) :
  cache.mountModes_envs envs r = grown [] [] (envs ∪ cache.Output_AddEnvs (cache.Output r)) r.
Proof.
  unfold cache.mountModes_envs.
  assert (Hgen : forall l (r0 : cache.MountResponse),
             List.fold_left (fun result kv => cache.set_AddEnv (fst kv) (snd kv) result) l r0
             = grown [] []
                 (List.fold_left (fun acc kv => <[fst kv := snd kv]> acc) l
                    (cache.Output_AddEnvs (cache.Output r0))) r0).
  { induction l as [|kv l IH]; intros r0; cbn [List.fold_left].
    - apply grown_nothing.
    - rewrite IH. unfold grown, cache.set_AddEnv. cbn. reflexivity. }
  rewrite Hgen, fold_insert_union.
  - by rewrite list_to_map_to_list.
  - apply (NoDup_fst_map_to_list envs).
Qed.

Section MoreMounter.
Context {libs : Libs} {rt : mode.Runtime} {json : cache.Json}.

Section Shape.
Context {S : Type} (m : cache.Mounter S).

Lemma mountPath_entry (modeName path : string) (s s' : S) (mt : cache.MountResult) :
  cache.mountPath m modeName path s = ((mt, None), s') ->
  entry_for (cache.CacheRoot m) (modeName, path) mt.
Proof.
  unfold cache.mountPath, entry_for. cbn [fst snd].
  destruct (cache.resolveHome path) as [resolved [e|]]; [discriminate|].
  unfold bind, ret.
  destruct (cache.Exec_Stat (cache.Exec m) _ s) as [r s1].
  destruct r as [e|]; [destruct (errors_Is e os_ErrNotExist)|]; cbn [negb];
    try discriminate;
    (destruct (cache.DestructiveMode m); cbn [negb];
     [destruct (cache.Exec_Mount (cache.Exec m) _ _ s1) as [[e'|] s2]; [discriminate|]|]);
    intros [= <- <-]; exists resolved; auto.
Qed.

Lemma mountModes_mounts_grown (modeName : string) (paths : list string)
    (r r' : cache.MountResponse) (s s' : S) :
  cache.mountModes_mounts m modeName paths r s = ((r', None), s') ->
  exists new,
    r' = grown new [] (cache.Output_AddEnvs (cache.Output r)) r
    /\ Forall2 (entry_for (cache.CacheRoot m)) (List.map (pair modeName) paths) new.
Proof.
  revert r s. induction paths as [|path rest IH]; intros r s;
    cbn [cache.mountModes_mounts List.map].
  - unfold ret. intros [= <- <-]. exists []. split; [apply grown_nothing|constructor].
  - unfold bind.
    destruct (cache.mountPath m modeName path s) as [[mt [e|]] s1] eqn:Hmt; [discriminate|].
    intros Hrest. apply IH in Hrest as (new & -> & Hnew).
    exists (mt :: new). split.
    + rewrite append_Mounts_grown, grown_grown. reflexivity.
    + constructor; [by eapply mountPath_entry|exact Hnew].
Qed.

Lemma mountPaths_loop_grown (paths : list string) (r r' : cache.MountResponse) (s s' : S) :
  cache.mountPaths_loop m paths r s = ((r', None), s') ->
  exists new,
    r' = grown new [] (cache.Output_AddEnvs (cache.Output r)) r
    /\ Forall2 (entry_for (cache.CacheRoot m)) (List.map (pair EmptyString) paths) new.
Proof.
  revert r s. induction paths as [|path rest IH]; intros r s;
    cbn [cache.mountPaths_loop List.map].
  - unfold ret. intros [= <- <-]. exists []. split; [apply grown_nothing|constructor].
  - unfold bind.
    destruct (cache.mountPath m EmptyString path s) as [[mt [e|]] s1] eqn:Hmt;
      [discriminate|].
    intros Hrest. apply IH in Hrest as (new & -> & Hnew).
    exists (mt :: new). split.
    + rewrite append_Mounts_grown, grown_grown. reflexivity.
    + constructor; [by eapply mountPath_entry|exact Hnew].
Qed.

Lemma mountModes_removes_grown (paths : list string) (r r' : cache.MountResponse)
    (s s' : S) :
  cache.mountModes_removes m paths r s = ((r', None), s') ->
  r' = grown [] paths (cache.Output_AddEnvs (cache.Output r)) r.
Proof.
  revert r s. induction paths as [|path rest IH]; intros r s;
    cbn [cache.mountModes_removes].
  - unfold ret. intros [= <- <-]. apply grown_nothing.
  - unfold bind, cache.removePath.
    destruct (cache.DestructiveMode m); cbn [negb]; unfold bind, ret.
    + destruct (cache.Exec_RemoveAll (cache.Exec m) path s) as [[e|] s1]; [discriminate|].
      intros Hrest. apply IH in Hrest as ->.
      rewrite append_RemovedPaths_grown, grown_grown. reflexivity.
    + intros Hrest. apply IH in Hrest as ->.
      rewrite append_RemovedPaths_grown, grown_grown. reflexivity.
Qed.

Lemma mountModes_loop_grown (plan : list (string * mode.PlanResult))
    (r r' : cache.MountResponse) (s s' : S) :
  cache.mountModes_loop m plan r s = ((r', None), s') ->
  exists new,
    r' = grown new (plan_removes plan)
           (plan_envs plan (cache.Output_AddEnvs (cache.Output r))) r
    /\ Forall2 (entry_for (cache.CacheRoot m)) (plan_paths plan) new.
Proof.
  revert r s. induction plan as [|[modeName p] rest IH]; intros r s;
    cbn [cache.mountModes_loop plan_removes plan_envs plan_paths List.flat_map
         List.fold_left fst snd].
  - unfold ret. intros [= <- <-]. exists []. split; [apply grown_nothing|constructor].
  - unfold bind.
    destruct (cache.mountModes_mounts m modeName _ r s) as [[r1 [e|]] s1] eqn:H1;
      [discriminate|].
    apply mountModes_mounts_grown in H1 as (new1 & -> & Hnew1).
    destruct (cache.mountModes_removes m _ _ s1) as [[r2 [e|]] s2] eqn:H2; [discriminate|].
    apply mountModes_removes_grown in H2 as ->.
    intros Hrest. apply IH in Hrest as (new2 & -> & Hnew2).
    exists (new1 ++ new2). split.
    + rewrite mountModes_envs_grown, !grown_grown. unfold grown.
      cbn [cache.Output cache.Output_AddEnvs cache.Input cache.Mounts cache.RemovedPaths
           cache.Output_DestructiveMode cache.Output_DiskUsage app].
      by rewrite ?List.app_nil_r.
    + by apply Forall2_app.
Qed.

End Shape.

Lemma plan_envs_lookup (plan : list (string * mode.PlanResult)) (acc : gmap string string)
    (k v : string) :
  plan_envs plan acc !! k = Some v ->
  acc !! k = Some v \/ exists np, In np plan /\ mode.AddEnvs (snd np) !! k = Some v.
Proof.
  unfold plan_envs. revert acc.
  induction plan as [|np plan IH]; intros acc; cbn [List.fold_left]; [auto|].
  intros Hl. apply IH in Hl as [Hl|(np' & Hin & Hl)].
  - apply lookup_union_Some_raw in Hl as [Hl|[_ Hl]]; [|by left].
    right. exists np. split; [by left|exact Hl].
  - right. exists np'. split; [by right|exact Hl].
Qed.

Lemma plan_envs_is_Some (plan : list (string * mode.PlanResult)) (acc : gmap string string)
    (k : string) :
  is_Some (acc !! k) \/ (exists np, In np plan /\ is_Some (mode.AddEnvs (snd np) !! k)) ->
  is_Some (plan_envs plan acc !! k).
Proof.
  unfold plan_envs. revert acc.
  induction plan as [|np plan IH]; intros acc; cbn [List.fold_left].
  - intros [Hacc|(np & [] & _)]. exact Hacc.
  - intros Hk. apply IH.
    destruct Hk as [Hacc|(np' & [<-|Hin] & Hs)].
    + left. apply lookup_union_is_Some. by right.
    + left. apply lookup_union_is_Some. by left.
    + right. eauto.
Qed.

Lemma range_plans_In (plans : gmap string mode.PlanResult) (np : string * mode.PlanResult) :
  In np (mode.range_plans plans) <-> plans !! fst np = Some (snd np).
Proof.
  destruct np as [name p]. cbn [fst snd].
  rewrite <- elem_of_map_to_list, <- list_elem_of_In.
  by rewrite (mode.range_plans_perm plans).
Qed.

Lemma Mount_shape {S : Type} (m : cache.Mounter S) (req : cache.MountRequest) (s s' : S)
    (r : cache.MountResponse) :
  cache.Mount m req s = ((r, None), s') ->
  exists modes plans new,
    cache.EnabledModes req (cache.Modes m) = (modes, None)
    /\ mode.Modes_Plan modes
         {| mode.PlanRequest_Exec := None; mode.enabledModes := [] |} = (plans, None)
    /\ cache.Input r = {| cache.Input_Modes := mode.Modes_Names modes;
                          cache.Input_Paths := cache.ManualPaths req |}
    /\ cache.Output_DestructiveMode (cache.Output r) = cache.DestructiveMode m
    /\ cache.Mounts (cache.Output r) = new
    /\ Forall2 (entry_for (cache.CacheRoot m))
         (plan_paths (mode.range_plans plans)
          ++ List.map (pair EmptyString) (cache.ManualPaths req)) new
    /\ cache.RemovedPaths (cache.Output r) = plan_removes (mode.range_plans plans)
    /\ cache.Output_AddEnvs (cache.Output r) = plan_envs (mode.range_plans plans) ∅.
Proof.
  unfold cache.Mount.
  destruct (cache.EnabledModes req (cache.Modes m)) as [modes [e|]] eqn:He; [discriminate|].
  unfold bind, cache.mountModes.
  destruct (mode.Modes_Plan modes _) as [plans [e|]] eqn:Hp; [discriminate|].
  destruct (cache.mountModes_loop m _ _ s) as [[r1 [e|]] s1] eqn:H1; [discriminate|].
  apply mountModes_loop_grown in H1 as (new1 & -> & Hnew1).
  unfold cache.mountPaths.
  destruct (cache.mountPaths_loop m _ _ s1) as [[r2 [e|]] s2] eqn:H2; [discriminate|].
  apply mountPaths_loop_grown in H2 as (new2 & -> & Hnew2).
  destruct (cache.writeMetadata m _ s2) as [[e|] s3]; [discriminate|].
  destruct (cache.Exec_DiskUsage (cache.Exec m) (cache.CacheRoot m) s3)
    as [[usage [e|]] s4]; unfold ret; intros [= <- <-];
    exists modes, plans, (new1 ++ new2);
    (split; [first [exact He|reflexivity]|]); (split; [exact Hp|]);
    (split; [reflexivity|]); (split; [reflexivity|]);
    (split; [reflexivity|]); (split; [by apply Forall2_app|]);
    (split; [cbn; by rewrite List.app_nil_r|reflexivity]).
Qed.

(** X12. The layout of a response of [Mount] that succeeds: [Input] echoes
    the sorted names of the enabled modes and the manual paths as they
    were given; [DestructiveMode] is the mounter's; [Mounts] holds one
    entry per mount path of the plans, in the order the plans are ranged
    over and within a plan in the plan's order, each with the name of its
    mode, and after them one entry per manual path, in the order given,
    with an empty mode. In every entry the mount path is the requested
    path with the home directory resolved and the cache path is that
    mount path joined under the cache root. *)
Theorem Mount_response_layout :
  forall (S : Type) (m : cache.Mounter S) (req : cache.MountRequest) (s s' : S)
         (r : cache.MountResponse),
    cache.Mount m req s = ((r, None), s') ->
    exists modes plans,
      cache.EnabledModes req (cache.Modes m) = (modes, None)
      /\ mode.Modes_Plan modes
           {| mode.PlanRequest_Exec := None; mode.enabledModes := [] |} = (plans, None)
      /\ cache.Input_Modes (cache.Input r) = mode.Modes_Names modes
      /\ cache.Input_Paths (cache.Input r) = cache.ManualPaths req
      /\ cache.Output_DestructiveMode (cache.Output r) = cache.DestructiveMode m
      /\ Forall2 (entry_for (cache.CacheRoot m))
           (plan_paths (mode.range_plans plans)
            ++ List.map (pair EmptyString) (cache.ManualPaths req))
           (cache.Mounts (cache.Output r)).
Proof.
  intros S m req s s' r Hrun.
  destruct (Mount_shape m req s s' r Hrun)
    as (modes & plans & new & He & Hp & Hi & Hd & Hm & Hnew & _).
  exists modes, plans. rewrite Hi, Hm. auto 10.
Qed.

(** X13. The removed paths of a response of [Mount] that succeeds are the
    paths the plans of the enabled modes ask to remove, in the order the
    plans are ranged over: a path is listed exactly when some plan asks
    for its removal, in a dry run as in a destructive one. *)
Theorem Mount_removed_paths :
  forall (S : Type) (m : cache.Mounter S) (req : cache.MountRequest) (s s' : S)
         (r : cache.MountResponse),
    cache.Mount m req s = ((r, None), s') ->
    exists modes plans,
      cache.EnabledModes req (cache.Modes m) = (modes, None)
      /\ mode.Modes_Plan modes
           {| mode.PlanRequest_Exec := None; mode.enabledModes := [] |} = (plans, None)
      /\ cache.RemovedPaths (cache.Output r) = plan_removes (mode.range_plans plans)
      /\ forall path,
           In path (cache.RemovedPaths (cache.Output r)) <->
           exists name plan, plans !! name = Some plan /\ In path (mode.RemovePaths plan).
Proof.
  intros S m req s s' r Hrun.
  destruct (Mount_shape m req s s' r Hrun)
    as (modes & plans & new & He & Hp & _ & _ & _ & _ & Hr & _).
  exists modes, plans. split; [exact He|]. split; [exact Hp|]. split; [exact Hr|].
  intros path. rewrite Hr. unfold plan_removes. rewrite List.in_flat_map. split.
  - intros ([name plan] & Hin & Hpath). apply range_plans_In in Hin. eauto.
  - intros (name & plan & Hl & Hpath). exists (name, plan).
    split; [by apply range_plans_In|exact Hpath].
Qed.

(** X14. The variables of a response of [Mount] that succeeds are those of
    the plans of the enabled modes, taken together: a variable is set
    exactly when some plan sets it, and its value is the value one of the
    plans gives it (the plan ranged over last among those that set it). *)
Theorem Mount_add_envs :
  forall (S : Type) (m : cache.Mounter S) (req : cache.MountRequest) (s s' : S)
         (r : cache.MountResponse),
    cache.Mount m req s = ((r, None), s') ->
    exists modes plans,
      cache.EnabledModes req (cache.Modes m) = (modes, None)
      /\ mode.Modes_Plan modes
           {| mode.PlanRequest_Exec := None; mode.enabledModes := [] |} = (plans, None)
      /\ cache.Output_AddEnvs (cache.Output r) = plan_envs (mode.range_plans plans) ∅
      /\ (forall k,
            is_Some (cache.Output_AddEnvs (cache.Output r) !! k) <->
            exists name plan,
              plans !! name = Some plan /\ is_Some (mode.AddEnvs plan !! k))
      /\ (forall k v,
            cache.Output_AddEnvs (cache.Output r) !! k = Some v ->
            exists name plan,
              plans !! name = Some plan /\ mode.AddEnvs plan !! k = Some v).
Proof.
  intros S m req s s' r Hrun.
  destruct (Mount_shape m req s s' r Hrun)
    as (modes & plans & new & He & Hp & _ & _ & _ & _ & _ & Henv).
  exists modes, plans. split; [exact He|]. split; [exact Hp|]. split; [exact Henv|].
  assert (Hval : forall k v,
            cache.Output_AddEnvs (cache.Output r) !! k = Some v ->
            exists name plan,
              plans !! name = Some plan /\ mode.AddEnvs plan !! k = Some v).
  { intros k v. rewrite Henv. intros Hl.
    apply plan_envs_lookup in Hl as [Hl|([name plan] & Hin & Hl)].
    - rewrite lookup_empty in Hl. discriminate.
    - apply range_plans_In in Hin. eauto. }
  split; [|exact Hval].
  intros k. split.
  - intros [v Hv]. destruct (Hval k v Hv) as (name & plan & Hl & Hk). eauto.
  - intros (name & plan & Hl & Hk). rewrite Henv. apply plan_envs_is_Some.
    right. exists (name, plan). split; [by apply range_plans_In|exact Hk].
Qed.

End MoreMounter.

(** *** The calls of a destructive run *)

Lemma Logged_same (d : bool) (r r' : cache.MountResponse) (log : list cache.Event) :
  cache.Mounts (cache.Output r') = cache.Mounts (cache.Output r) ->
  cache.RemovedPaths (cache.Output r') = cache.RemovedPaths (cache.Output r) ->
  Logged d r log -> Logged d r' log.
Proof. unfold Logged. intros -> ->. done. Qed.

Lemma Logged_stat (d : bool) (r : cache.MountResponse) (log : list cache.Event)
    (name : string) (e : option error) :
  Logged d r log -> Logged d r (log ++ [cache.EvStat name e]).
Proof.
  intros [Hphase Hcalls]. split.
  - apply Forall_app. split; [exact Hphase|]. by repeat constructor.
  - intros Hd. destruct (Hcalls Hd) as [Hm Hr].
    unfold mount_calls, remove_calls in *. rewrite !omap_app, Hm, Hr. cbn.
    by rewrite !List.app_nil_r.
Qed.

Lemma Logged_mount (r : cache.MountResponse) (log : list cache.Event)
    (mt : cache.MountResult) :
  Logged true r log ->
  Logged true (cache.append_Mounts mt r)
    (log ++ [cache.EvMount (cache.CachePath mt) (cache.MountPath mt) None]).
Proof.
  intros [Hphase Hcalls]. split.
  - apply Forall_app. split; [exact Hphase|]. by repeat constructor.
  - intros _. destruct (Hcalls eq_refl) as [Hm Hr].
    unfold mount_calls, remove_calls, mounted in *. rewrite !omap_app, Hm, Hr. cbn.
    by rewrite List.map_app, List.app_nil_r.
Qed.

Lemma Logged_remove (r : cache.MountResponse) (log : list cache.Event) (path : string) :
  Logged true r log ->
  Logged true (cache.append_RemovedPaths path r) (log ++ [cache.EvRemoveAll path None]).
Proof.
  intros [Hphase Hcalls]. split.
  - apply Forall_app. split; [exact Hphase|]. by repeat constructor.
  - intros _. destruct (Hcalls eq_refl) as [Hm Hr].
    unfold mount_calls, remove_calls in *. rewrite !omap_app, Hm, Hr. cbn.
    by rewrite List.app_nil_r.
Qed.

Lemma Logged_dry (r r' : cache.MountResponse) (log : list cache.Event) :
  Logged false r log -> Logged false r' log.
Proof. intros [Hphase _]. split; [exact Hphase|discriminate]. Qed.

Section MoreLog.
Context {libs : Libs} {rt : mode.Runtime} {json : cache.Json}.
Context {S : Type} (m : cache.Mounter S).

Lemma mountPath_Logged (modeName path : string) (r : cache.MountResponse)
    (s s' : S) (log log' : list cache.Event) (mt : cache.MountResult) :
  cache.mountPath (cache.recorded m) modeName path (s, log) = ((mt, None), (s', log')) ->
  Logged (cache.DestructiveMode m) r log ->
  Logged (cache.DestructiveMode m) (cache.append_Mounts mt r) log'.
Proof.
  unfold cache.mountPath.
  destruct (cache.resolveHome path) as [resolved [e|]]; [discriminate|].
  unfold bind, ret. cbn [cache.recorded cache.Exec cache.recording cache.Exec_Stat
                         cache.Exec_Mount cache.CacheRoot cache.DestructiveMode fst snd].
  destruct (cache.Exec_Stat (cache.Exec m) _ s) as [st s1].
  set (cachePath := filepath_Join [cache.CacheRoot m; resolved]).
  destruct st as [e|]; [destruct (errors_Is e os_ErrNotExist); [|discriminate]|];
    cbn [negb];
    (destruct (cache.DestructiveMode m) eqn:Hd; cbn [negb fst snd];
     [destruct (cache.Exec_Mount (cache.Exec m) cachePath resolved s1) as [[e'|] s2];
      cbn [fst snd]; [discriminate|];
      intros [= <- <- <-] HL;
      match goal with
      | |- Logged true (cache.append_Mounts ?mt r) _ => apply (Logged_mount r _ mt)
      end; by apply Logged_stat
     |intros [= <- <- <-] HL; apply (Logged_dry r); by apply Logged_stat]).
Qed.

Lemma mountModes_mounts_Logged (modeName : string) (paths : list string)
    (r r' : cache.MountResponse) (s s' : S) (log log' : list cache.Event) :
  cache.mountModes_mounts (cache.recorded m) modeName paths r (s, log)
    = ((r', None), (s', log')) ->
  Logged (cache.DestructiveMode m) r log -> Logged (cache.DestructiveMode m) r' log'.
Proof.
  revert r s log. induction paths as [|path rest IH]; intros r s log;
    cbn [cache.mountModes_mounts].
  - unfold ret. by intros [= <- <- <-].
  - unfold bind.
    destruct (cache.mountPath (cache.recorded m) modeName path (s, log))
      as [[mt [e|]] [s1 l1]] eqn:Hmt; [discriminate|].
    intros Hrest HL. apply (IH _ _ _ Hrest). by apply (mountPath_Logged _ _ _ _ _ _ _ _ Hmt).
Qed.

Lemma mountPaths_loop_Logged (paths : list string)
    (r r' : cache.MountResponse) (s s' : S) (log log' : list cache.Event) :
  cache.mountPaths_loop (cache.recorded m) paths r (s, log) = ((r', None), (s', log')) ->
  Logged (cache.DestructiveMode m) r log -> Logged (cache.DestructiveMode m) r' log'.
Proof.
  revert r s log. induction paths as [|path rest IH]; intros r s log;
    cbn [cache.mountPaths_loop].
  - unfold ret. by intros [= <- <- <-].
  - unfold bind.
    destruct (cache.mountPath (cache.recorded m) EmptyString path (s, log))
      as [[mt [e|]] [s1 l1]] eqn:Hmt; [discriminate|].
    intros Hrest HL. apply (IH _ _ _ Hrest). by apply (mountPath_Logged _ _ _ _ _ _ _ _ Hmt).
Qed.

Lemma mountModes_removes_Logged (paths : list string)
    (r r' : cache.MountResponse) (s s' : S) (log log' : list cache.Event) :
  cache.mountModes_removes (cache.recorded m) paths r (s, log) = ((r', None), (s', log')) ->
  Logged (cache.DestructiveMode m) r log -> Logged (cache.DestructiveMode m) r' log'.
Proof.
  revert r s log. induction paths as [|path rest IH]; intros r s log;
    cbn [cache.mountModes_removes].
  - unfold ret. by intros [= <- <- <-].
  - unfold bind, cache.removePath.
    cbn [cache.recorded cache.DestructiveMode cache.Exec cache.recording
         cache.Exec_RemoveAll].
    destruct (cache.DestructiveMode m) eqn:Hd; cbn [negb]; unfold bind, ret; cbn [fst snd].
    + destruct (cache.Exec_RemoveAll (cache.Exec m) path s) as [[e|] s1]; [discriminate|].
      intros Hrest HL. apply (IH _ _ _ Hrest). by apply Logged_remove.
    + intros Hrest HL. apply (IH _ _ _ Hrest). by apply (Logged_dry r).
Qed.

Lemma mountModes_loop_Logged (plan : list (string * mode.PlanResult))
    (r r' : cache.MountResponse) (s s' : S) (log log' : list cache.Event) :
  cache.mountModes_loop (cache.recorded m) plan r (s, log) = ((r', None), (s', log')) ->
  Logged (cache.DestructiveMode m) r log -> Logged (cache.DestructiveMode m) r' log'.
Proof.
  revert r s log. induction plan as [|[modeName p] rest IH]; intros r s log;
    cbn [cache.mountModes_loop].
  - unfold ret. by intros [= <- <- <-].
  - unfold bind.
    destruct (cache.mountModes_mounts (cache.recorded m) modeName _ r (s, log))
      as [[r1 [e|]] [s1 l1]] eqn:H1; [discriminate|].
    destruct (cache.mountModes_removes (cache.recorded m) _ _ (s1, l1))
      as [[r2 [e|]] [s2 l2]] eqn:H2; [discriminate|].
    intros Hrest HL. apply (IH _ _ _ Hrest).
    apply (mountModes_removes_Logged _ _ _ _ _ _ _ H2).
    apply (Logged_same _ r1).
    + rewrite mountModes_envs_grown. cbn. by rewrite List.app_nil_r.
    + rewrite mountModes_envs_grown. cbn. by rewrite List.app_nil_r.
    + by apply (mountModes_mounts_Logged _ _ _ _ _ _ _ _ H1).
Qed.

(** The run of [Mount] up to the metadata: the response and the log when
    the modes and the manual paths have been mounted. *)
Lemma Mount_stages (req : cache.MountRequest) (s s' : S) (r : cache.MountResponse)
    (log : list cache.Event) :
  cache.Mount (cache.recorded m) req (s, []) = ((r, None), (s', log)) ->
  exists r2 s2 work s3 meta usage e,
    Logged (cache.DestructiveMode m) r2 work
    /\ cache.writeMetadata (cache.recorded m) r2 (s2, work) = (None, (s3, work ++ meta))
    /\ fst (cache.Exec_DiskUsage (cache.Exec m) (cache.CacheRoot m) s3) = (usage, e)
    /\ log = (work ++ meta) ++ [cache.EvDiskUsage (cache.CacheRoot m) e]
    /\ r = match e with
           | None => cache.set_DiskUsage usage r2
           | Some _ => r2
           end
    /\ cache.Output_DiskUsage (cache.Output r2) = None.
Proof.
  unfold cache.Mount. cbn [cache.recorded cache.Modes cache.DestructiveMode].
  destruct (cache.EnabledModes req (cache.Modes m)) as [modes [e|]]; [discriminate|].
  unfold bind.
  change (cache.mountModes
            {| cache.DestructiveMode := cache.DestructiveMode m;
               cache.CacheRoot := cache.CacheRoot m;
               cache.Exec := cache.recording (cache.Exec m);
               cache.Modes := cache.Modes m |})
    with (cache.mountModes (cache.recorded m)).
  change (cache.mountPaths
            {| cache.DestructiveMode := cache.DestructiveMode m;
               cache.CacheRoot := cache.CacheRoot m;
               cache.Exec := cache.recording (cache.Exec m);
               cache.Modes := cache.Modes m |})
    with (cache.mountPaths (cache.recorded m)).
  change (cache.writeMetadata
            {| cache.DestructiveMode := cache.DestructiveMode m;
               cache.CacheRoot := cache.CacheRoot m;
               cache.Exec := cache.recording (cache.Exec m);
               cache.Modes := cache.Modes m |})
    with (cache.writeMetadata (cache.recorded m)).
  set (r0 := {| cache.Input := _; cache.Output := _ |}).
  destruct (cache.mountModes (cache.recorded m) modes r0 (s, []))
    as [[r1 [e|]] [s1 l1]] eqn:H1; [discriminate|].
  destruct (cache.mountPaths (cache.recorded m) (cache.ManualPaths req) r1 (s1, l1))
    as [[r2 [e|]] [s2 l2]] eqn:H2; [discriminate|].
  assert (HL2 : Logged (cache.DestructiveMode m) r2 l2
                /\ cache.Output_DiskUsage (cache.Output r2) = None).
  { unfold cache.mountModes in H1.
    destruct (mode.Modes_Plan modes _) as [plans [e|]]; [discriminate|].
    unfold cache.mountPaths in H2. split.
    - apply (mountPaths_loop_Logged _ _ _ _ _ _ _ H2).
      apply (Logged_same _ r1); [reflexivity|reflexivity|].
      apply (mountModes_loop_Logged _ _ _ _ _ _ _ H1).
      split; [constructor|]. intros _. split; reflexivity.
    - apply mountPaths_loop_grown in H2 as (new2 & -> & _).
      apply mountModes_loop_grown in H1 as (new1 & -> & _). reflexivity. }
  destruct HL2 as [HL2 Hdu].
  destruct (cache.writeMetadata (cache.recorded m) r2 (s2, l2)) as [[e|] [s3 l3]] eqn:H3;
    [discriminate|].
  assert (Hmeta : exists meta, l3 = l2 ++ meta).
  { destruct (writeMetadata_Step m r2 s2 l2) as (evs & Hl & _). rewrite H3 in Hl.
    eauto. }
  destruct Hmeta as [meta ->].
  cbn [cache.recorded cache.Exec cache.recording cache.Exec_DiskUsage cache.CacheRoot
       fst snd].
  destruct (cache.Exec_DiskUsage (cache.Exec m) (cache.CacheRoot m) s3)
    as [[usage e] s4] eqn:H4. cbn [fst snd].
  intros Hfin. exists r2, s2, l2, s3, meta, usage, e.
  split; [exact HL2|]. split; [exact H3|]. split; [by rewrite H4|].
  destruct e as [e|]; unfold ret in Hfin; injection Hfin as <- <- <-; auto.
Qed.

(** X15. The calls of a destructive run of [Mount] that succeeds, in
    order: first stats, mounts and removals, none of which failed except
    stats, among them one [Mount] call per entry of [Mounts], from its
    cache path to its mount path and in the order of the entries, and one
    [RemoveAll] call per removed path, in their order; then the creation of
    the metadata directory and the writing of the metadata file, whose
    content is the encoding of the metadata built from the entries of
    [Mounts]; then the look-up of the disk usage. *)
Theorem Mount_destructive_calls :
  forall (req : cache.MountRequest) (s s' : S) (r : cache.MountResponse)
         (log : list cache.Event),
    cache.DestructiveMode m = true ->
    cache.Mount (cache.recorded m) req (s, []) = ((r, None), (s', log)) ->
    let metadataPath :=
      filepath_Join [cache.CacheRoot m; cache.privateNamespaceDir; cache.metadataFilename] in
    exists work data e,
      log = work
            ++ [cache.EvMkdirAll (filepath_Dir metadataPath) 493 None;
                cache.EvWriteFile metadataPath data 420 None;
                cache.EvDiskUsage (cache.CacheRoot m) e]
      /\ Forall mount_phase work
      /\ mount_calls work = mounted (cache.Mounts (cache.Output r))
      /\ remove_calls work = cache.RemovedPaths (cache.Output r)
      /\ cache.json_MarshalIndent
           {| cache.UpdatedAt := time_Now; cache.Version := 1;
              cache.UserRequest := cache.metadata_entries (cache.Mounts (cache.Output r)) |}
         = (data, None).
Proof.
  intros req s s' r log Hd Hrun metadataPath.
  destruct (Mount_stages req s s' r log Hrun)
    as (r2 & s2 & work & s3 & meta & usage & e & HL & Hmeta & _ & -> & Hr & _).
  rewrite Hd in HL. destruct HL as [Hphase Hcalls]. destruct (Hcalls eq_refl) as [Hm Hrm].
  assert (Hsame : cache.Mounts (cache.Output r) = cache.Mounts (cache.Output r2)
                  /\ cache.RemovedPaths (cache.Output r)
                     = cache.RemovedPaths (cache.Output r2)).
  { subst r. by destruct e. }
  destruct Hsame as [-> ->].
  unfold cache.writeMetadata in Hmeta.
  cbn [cache.recorded cache.DestructiveMode cache.Exec cache.recording cache.CacheRoot
       cache.Exec_MkdirAll cache.Exec_WriteFile] in Hmeta.
  rewrite Hd in Hmeta. cbn [negb] in Hmeta.
  destruct (cache.json_MarshalIndent _) as [data [e0|]] eqn:Hjson; [discriminate|].
  unfold bind, ret in Hmeta. cbn [fst snd] in Hmeta.
  destruct (cache.Exec_MkdirAll (cache.Exec m) _ _ s2) as [[e1|] s21]; [discriminate|].
  cbn [fst snd] in Hmeta.
  destruct (cache.Exec_WriteFile (cache.Exec m) _ _ _ s21) as [[e2|] s22]; [discriminate|].
  injection Hmeta as _ Hlog.
  exists work, data, e. split.
  - rewrite <- Hlog, <- !List.app_assoc. reflexivity.
  - auto.
Qed.

(** X16. The disk usage in a run of [Mount] that succeeds, dry or
    destructive: it is looked up once, for the cache root, as the last call
    of the run; the response holds a usage exactly when that call returned
    no error, so a failure of the look-up does not fail the run. *)
Theorem Mount_disk_usage_last :
  forall (req : cache.MountRequest) (s s' : S) (r : cache.MountResponse)
         (log : list cache.Event),
    cache.Mount (cache.recorded m) req (s, []) = ((r, None), (s', log)) ->
    exists before e,
      log = before ++ [cache.EvDiskUsage (cache.CacheRoot m) e]
      /\ Forall (fun ev => forall path e', ev <> cache.EvDiskUsage path e') before
      /\ (is_Some (cache.Output_DiskUsage (cache.Output r)) <-> e = None).
Proof.
  intros req s s' r log Hrun.
  destruct (Mount_stages req s s' r log Hrun)
    as (r2 & s2 & work & s3 & meta & usage & e & HL & Hmeta & _ & -> & Hr & Hdu).
  exists (work ++ meta), e. split; [reflexivity|]. split.
  - apply Forall_app. split.
    + destruct HL as [Hphase _]. eapply Forall_impl; [exact Hphase|].
      intros ev Hev path e' ->. exact Hev.
    + unfold cache.writeMetadata in Hmeta.
      cbn [cache.recorded cache.DestructiveMode cache.Exec cache.recording cache.CacheRoot
           cache.Exec_MkdirAll cache.Exec_WriteFile] in Hmeta.
      destruct (cache.DestructiveMode m); cbn [negb] in Hmeta.
      * destruct (cache.json_MarshalIndent _) as [data [e0|]]; [discriminate|].
        unfold bind, ret in Hmeta. cbn [fst snd] in Hmeta.
        destruct (cache.Exec_MkdirAll (cache.Exec m) _ _ s2) as [[e1|] s21];
          [discriminate|].
        cbn [fst snd] in Hmeta.
        destruct (cache.Exec_WriteFile (cache.Exec m) _ _ _ s21) as [[e2|] s22];
          [discriminate|].
        injection Hmeta as _ Hlog. rewrite <- List.app_assoc in Hlog.
        apply List.app_inv_head in Hlog. subst meta. by repeat constructor.
      * unfold ret in Hmeta. injection Hmeta as _ Hlog.
        rewrite <- (List.app_nil_r work) in Hlog at 1.
        apply List.app_inv_head in Hlog. subst meta. constructor.
  - subst r. destruct e as [e|].
    + rewrite Hdu. split; [intros [? ?]; discriminate|discriminate].
    + cbn. split; [done|eauto].
Qed.

End MoreLog.

(** *** The metadata *)

Lemma metadata_entries_fold (mounts : list cache.MountResult) :
  cache.metadata_entries mounts
  = List.fold_left (fun entries mt => <[cache.CachePath mt := entry_of mt]> entries)
      mounts ∅.
Proof.
  unfold cache.metadata_entries. generalize (∅ : gmap string cache.CacheMetadataEntry).
  induction mounts as [|mt mounts IH]; intros acc; cbn [List.fold_left]; [reflexivity|].
  rewrite IH. unfold entry_of. by destruct (String.eqb (cache.Mode mt) EmptyString).
Qed.

Lemma entries_lookup (mounts : list cache.MountResult)
    (acc : gmap string cache.CacheMetadataEntry) (c : string)
    (entry : cache.CacheMetadataEntry) :
  List.fold_left (fun entries mt => <[cache.CachePath mt := entry_of mt]> entries)
    mounts acc !! c = Some entry ->
  acc !! c = Some entry
  \/ exists mt, In mt mounts /\ cache.CachePath mt = c /\ entry = entry_of mt.
Proof.
  revert acc. induction mounts as [|mt mounts IH]; intros acc; cbn [List.fold_left]; [auto|].
  intros Hl. apply IH in Hl as [Hl|(mt' & Hin & Hc & He)].
  - destruct (decide (cache.CachePath mt = c)) as [<-|Hne].
    + rewrite lookup_insert_eq in Hl. injection Hl as <-. right. exists mt.
      split; [by left|done].
    + rewrite lookup_insert_ne in Hl by done. by left.
  - right. exists mt'. split; [by right|done].
Qed.

Lemma entries_keep (post : list cache.MountResult)
    (acc : gmap string cache.CacheMetadataEntry) (c : string) :
  Forall (fun mt => cache.CachePath mt <> c) post ->
  List.fold_left (fun entries mt => <[cache.CachePath mt := entry_of mt]> entries)
    post acc !! c = acc !! c.
Proof.
  revert acc. induction post as [|mt post IH]; intros acc Hpost; cbn [List.fold_left];
    [reflexivity|].
  inversion Hpost as [|? ? Hne Hpost']; subst. rewrite IH by done.
  by apply lookup_insert_ne.
Qed.

Lemma last_with_path (mounts : list cache.MountResult) (c : string) :
  (exists mt, In mt mounts /\ cache.CachePath mt = c) ->
  exists pre mt post,
    mounts = pre ++ mt :: post /\ cache.CachePath mt = c
    /\ Forall (fun mt' => cache.CachePath mt' <> c) post.
Proof.
  induction mounts as [|mt0 mounts IH]; intros (mt & Hin & Hc); [destruct Hin|].
  destruct (existsb (fun mt' => String.eqb (cache.CachePath mt') c) mounts) eqn:Hex.
  - apply List.existsb_exists in Hex as (mt' & Hin' & Heq). apply String.eqb_eq in Heq.
    destruct (IH (ex_intro _ mt' (conj Hin' Heq))) as (pre & mt1 & post & -> & Hc' & Hpost).
    exists (mt0 :: pre), mt1, post. done.
  - assert (Hno : Forall (fun mt' => cache.CachePath mt' <> c) mounts).
    { apply List.Forall_forall. intros mt' Hin' Hc'.
      assert (Ht : existsb (fun mt' => String.eqb (cache.CachePath mt') c) mounts = true).
      { apply List.existsb_exists. exists mt'. split; [done|by apply String.eqb_eq]. }
      congruence. }
    destruct Hin as [->|Hin].
    + exists [], mt, mounts. done.
    + exfalso. exact (proj1 (List.Forall_forall _ _) Hno mt Hin Hc).
Qed.

(** X17. The metadata [writeMetadata] builds from the mounts has one entry
    per cache path that occurs among them and no other entry; every entry
    has the source "space" and a single mount target; the entry of a cache
    path is that of the last mount with this cache path: its mount path as
    target and its mode as cache framework, none when the mode is empty,
    as it is for a manual path. *)
Theorem metadata_entries_last_mount :
  forall (mounts : list cache.MountResult),
    (forall c, is_Some (cache.metadata_entries mounts !! c) <->
               exists mt, In mt mounts /\ cache.CachePath mt = c)
    /\ (forall pre mt post,
          mounts = pre ++ mt :: post ->
          Forall (fun mt' => cache.CachePath mt' <> cache.CachePath mt) post ->
          cache.metadata_entries mounts !! cache.CachePath mt
            = Some {| cache.CacheFramework :=
                        if String.eqb (cache.Mode mt) EmptyString then None
                        else Some (cache.Mode mt);
                      cache.MountTarget := [cache.MountPath mt];
                      cache.Source := "space" |})
    /\ (forall c entry,
          cache.metadata_entries mounts !! c = Some entry ->
          cache.Source entry = "space"
          /\ exists target, cache.MountTarget entry = [target]).
Proof.
  intros mounts. rewrite metadata_entries_fold.
  assert (Hlast : forall pre mt post,
            mounts = pre ++ mt :: post ->
            Forall (fun mt' => cache.CachePath mt' <> cache.CachePath mt) post ->
            List.fold_left
              (fun entries mt => <[cache.CachePath mt := entry_of mt]> entries) mounts
              (∅ : gmap string cache.CacheMetadataEntry)
              !! cache.CachePath mt = Some (entry_of mt)).
  { intros pre mt post -> Hpost. rewrite List.fold_left_app. cbn [List.fold_left].
    rewrite entries_keep by done. apply lookup_insert_eq. }
  split; [|split].
  - intros c. split.
    + intros [entry Hl]. apply entries_lookup in Hl as [Hl|(mt & Hin & Hc & _)].
      * rewrite lookup_empty in Hl. discriminate.
      * eauto.
    + intros Hex. destruct (last_with_path mounts c Hex) as (pre & mt & post & Hm & <- & Hp).
      rewrite (Hlast pre mt post Hm Hp). eauto.
  - exact Hlast.
  - intros c entry Hl. apply entries_lookup in Hl as [Hl|(mt & _ & _ & ->)].
    + rewrite lookup_empty in Hl. discriminate.
    + split; [reflexivity|]. by eexists.
Qed.

(** *** The enabled modes *)

Lemma Filter_loop_inv (modes : mode.Modes) (available : gmap string mode.ModeProvider)
    (include : list string) (filtered res : mode.Modes) :
  (forall name p, available !! name = Some p -> In p modes /\ mode.Name p = name) ->
  mode.Filter_loop available include filtered = (res, None) ->
  exists ps, res = filtered ++ ps /\ List.map mode.Name ps = include
             /\ Forall (fun p => In p modes) ps.
Proof.
  intros Hsome. revert filtered.
  induction include as [|inc rest IH]; intros filtered; cbn [mode.Filter_loop].
  - intros [= <-]. exists []. by rewrite List.app_nil_r.
  - destruct (available !! inc) as [p|] eqn:Hp; [|discriminate].
    intros Hrest. apply IH in Hrest as (ps & -> & Hn & Hin).
    destruct (Hsome _ _ Hp) as [Hpin Hpn].
    exists (p :: ps). rewrite <- List.app_assoc. split; [reflexivity|]. split.
    + cbn. congruence.
    + by constructor.
Qed.

Lemma Modes_Filter_inv (modes : mode.Modes) (include : list string) (ps : mode.Modes) :
  modes <> [] ->
  mode.Modes_Filter modes include = (ps, None) ->
  List.map mode.Name ps = include /\ Forall (fun p => In p modes) ps.
Proof.
  intros Hne. unfold mode.Modes_Filter.
  destruct modes as [|m0 modes0]; [done|]. cbn [List.length Nat.eqb].
  intros Hf. apply (Filter_loop_inv (m0 :: modes0)) in Hf as (ps' & -> & Hn & Hin);
    [done|].
  intros name p Hl. apply available_lookup in Hl as [Hl|Hl]; [|exact Hl].
  rewrite lookup_empty in Hl. discriminate.
Qed.

Lemma first_unknown (modes : mode.Modes) (names : list string) (name : string) :
  In name names -> ~ known modes name ->
  exists pre x post,
    names = pre ++ x :: post /\ Forall (known modes) pre /\ ~ known modes x.
Proof.
  induction names as [|n names IH]; intros Hin Hun; [destruct Hin|].
  destruct (List.in_dec String.string_dec n (List.map mode.Name modes)) as [Hk|Hk].
  - destruct Hin as [->|Hin]; [done|].
    destruct (IH Hin Hun) as (pre & x & post & -> & Hpre & Hx).
    exists (n :: pre), x, post. split; [done|]. split; [by constructor|done].
  - exists [], n, names. split; [done|]. split; [constructor|exact Hk].
Qed.

Lemma Modes_Filter_unknown (modes : mode.Modes) (names : list string) (name : string) :
  modes <> [] -> In name names -> ~ known modes name ->
  exists x, In x names /\ ~ known modes x
            /\ mode.Modes_Filter modes names
               = ([], Some (errors_New ("unknown mode: " ++ x))).
Proof.
  intros Hne Hin Hun.
  destruct (first_unknown modes names name Hin Hun) as (pre & x & post & -> & Hpre & Hx).
  exists x. split; [apply List.in_elt|]. split; [exact Hx|].
  unfold mode.Modes_Filter. destruct modes as [|m0 modes0]; [done|].
  cbn [List.length Nat.eqb].
  apply (Filter_loop_unknown (m0 :: modes0)); [| |exact Hpre].
  - intros n Hn. apply available_known. by left.
  - rewrite available_unknown by exact Hx. apply lookup_empty.
Qed.

Section MoreEnabled.
Context {libs : Libs} {rt : mode.Runtime} {json : cache.Json}.

Lemma Modes_Detect_inv (modes ps : mode.Modes) (req : mode.DetectRequest) :
  mode.Modes_Detect modes req = (ps, None) ->
  Forall (fun p => In p modes
                   /\ mode.Detect p (mode.DetectRequest_default req) = (true, None)) ps.
Proof.
  unfold mode.Modes_Detect. destruct (mode.errgroup_Wait _); [discriminate|].
  intros [= <-]. apply List.Forall_forall. intros p Hp.
  apply List.filter_In in Hp as [Hin Hd]. split.
  - by apply (Permutation_in _ (mode.detect_completion_perm modes)).
  - unfold mode.Detect_task in Hd.
    destruct (mode.Detect p (mode.DetectRequest_default req)) as [d [e|]];
      cbn [snd] in Hd; congruence.
Qed.

(** X18. The enabled modes of a request. On the empty registry every
    request that names a mode or a path has no enabled mode, and no error.
    On a registry that is not empty, when [EnabledModes] succeeds the
    enabled providers are providers of the registry and their names are,
    in this order, the manual modes as given followed by the sorted names
    of the detected providers, with no name dropped when it occurs twice;
    a detected provider is one whose name was asked for detection (every
    name of the registry when all modes are detected) and whose [Detect]
    reported the mode present on the default executor; and without a
    detection request nothing is detected. *)
Theorem EnabledModes_names :
  forall (req : cache.MountRequest) (available : mode.Modes),
    (available = [] -> asks req -> cache.EnabledModes req available = ([], None))
    /\ (available <> [] ->
        forall enabled,
          cache.EnabledModes req available = (enabled, None) ->
          Forall (fun p => In p available) enabled
          /\ exists detected,
               List.map mode.Name enabled
                 = cache.ManualModes req ++ mode.Modes_Names detected
               /\ Forall
                    (fun p =>
                       In p available
                       /\ mode.Detect p
                            {| mode.DetectRequest_Exec := Some mode.DefaultExecutor |}
                          = (true, None)
                       /\ In (mode.Name p)
                            (if cache.DetectAllModes req
                             then mode.Modes_Names available
                             else cache.DetectModes req))
                    detected
               /\ (cache.DetectAllModes req = false -> cache.DetectModes req = [] ->
                   detected = [])).
Proof.
  intros req available. split.
  - intros -> Hasks. unfold cache.EnabledModes.
    assert (Hguard : negb (cache.DetectAllModes req)
                     && Nat.eqb (List.length (cache.DetectModes req)) 0
                     && Nat.eqb (List.length (cache.ManualModes req)) 0
                     && Nat.eqb (List.length (cache.ManualPaths req)) 0 = false).
    { destruct Hasks as [->|[H|[H|H]]]; [reflexivity| | |];
        destruct (cache.DetectAllModes req); cbn [negb andb]; try reflexivity;
        [destruct (cache.DetectModes req); [done|reflexivity]
        |destruct (cache.DetectModes req); cbn; [|reflexivity];
         destruct (cache.ManualModes req); [done|reflexivity]
        |destruct (cache.DetectModes req); cbn; [|reflexivity];
         destruct (cache.ManualModes req); cbn; [|reflexivity];
         destruct (cache.ManualPaths req); [done|reflexivity]]. }
    rewrite Hguard.
    destruct (Nat.ltb 0 _); [|reflexivity].
    cbn [mode.Modes_Filter List.length Nat.eqb].
    unfold mode.Modes_Detect.
    pose proof (mode.detect_completion_perm []) as Hperm.
    apply Permutation_sym, Permutation_nil in Hperm. rewrite Hperm. reflexivity.
  - intros Hne enabled. unfold cache.EnabledModes.
    destruct (negb (cache.DetectAllModes req) && _ && _ && _); [discriminate|].
    set (detect := if cache.DetectAllModes req then mode.Modes_Names available
                   else cache.DetectModes req).
    destruct (Nat.ltb 0 (List.length detect)) eqn:Hlen.
    + destruct (mode.Modes_Filter available detect) as [filtered [e|]] eqn:Hf;
        [discriminate|].
      destruct (mode.Modes_Detect filtered _) as [detected [e|]] eqn:Hd; [discriminate|].
      intros Hfin.
      apply (Modes_Filter_inv _ _ _ Hne) in Hf as [Hfn Hfin'].
      apply Modes_Detect_inv in Hd. cbn [mode.DetectRequest_default
                                         mode.DetectRequest_Exec] in Hd.
      apply (Modes_Filter_inv _ _ _ Hne) in Hfin as [Hn Hin].
      split; [exact Hin|]. exists detected. split; [exact Hn|]. split.
      * apply List.Forall_forall. intros p Hp.
        destruct (proj1 (List.Forall_forall _ _) Hd p Hp) as [Hpf Hpd].
        split; [exact (proj1 (List.Forall_forall _ _) Hfin' p Hpf)|]. split; [exact Hpd|].
        rewrite <- Hfn. by apply List.in_map.
      * intros Hall Hnil. subst detect. rewrite Hall, Hnil in Hlen. discriminate.
    + intros Hfin. apply (Modes_Filter_inv _ _ _ Hne) in Hfin as [Hn Hin].
      split; [exact Hin|]. exists []. split; [by rewrite List.app_nil_r|].
      split; [constructor|done].
Qed.

(** X19. The wildcard of the [--detect] flag works only alone. On a
    registry that is not empty and has no mode named "*": when the flag
    holds "*" and nothing else, the request detects all modes, and what
    [EnabledModes] returns does not depend on the list of detect modes;
    when the flag holds "*" next to other values, [EnabledModes] fails
    with an "unknown mode" error for a value the registry does not have,
    before any detection. *)
Theorem detect_wildcard_only_alone :
  forall (available : mode.Modes) (manualModes manualPaths : list string),
    available <> [] ->
    ~ known available "*" ->
    cache.EnabledModes (cmd.mount_request ["*"] manualModes manualPaths) available
      = cache.EnabledModes
          {| cache.DetectAllModes := true; cache.DetectModes := [];
             cache.ManualModes := manualModes; cache.ManualPaths := manualPaths |}
          available
    /\ forall detectModes,
         In "*" detectModes -> List.length detectModes <> 1 ->
         exists name,
           In name detectModes /\ ~ known available name
           /\ cache.EnabledModes (cmd.mount_request detectModes manualModes manualPaths)
                available
              = ([], Some (errors_New ("unknown mode: " ++ name))).
Proof.
  intros available manualModes manualPaths Hne Hstar. split; [reflexivity|].
  intros detectModes Hin Hlen.
  destruct (Modes_Filter_unknown available detectModes "*" Hne Hin Hstar)
    as (x & Hx & Hun & Hf).
  exists x. split; [exact Hx|]. split; [exact Hun|].
  unfold cache.EnabledModes, cmd.mount_request.
  cbn [cache.DetectAllModes cache.DetectModes cache.ManualModes cache.ManualPaths].
  assert (Hone : Nat.eqb (List.length detectModes) 1 = false) by by apply Nat.eqb_neq.
  rewrite Hone. cbn [andb negb].
  destruct detectModes as [|d rest]; [destruct Hin|].
  cbn [List.length Nat.eqb andb Nat.ltb Nat.leb]. by rewrite Hf.
Qed.

End MoreEnabled.

(** ** The default executor *)

Lemma fields_skip (k : nat) (s cur : string) :
  fields k s cur = fields 0 (string_drop k s) cur.
Proof.
  revert k. induction s as [|c s IH]; intros k.
  - by destruct k.
  - destruct k as [|k]; [reflexivity|]. cbn [fields string_drop]. apply IH.
Qed.

Lemma string_drop_length (k : nat) (s : string) :
  String.length (string_drop k s) <= String.length s.
Proof.
  revert k. induction s as [|c s IH]; intros k; destruct k as [|k]; cbn; try lia.
  specialize (IH k). lia.
Qed.

Lemma string_app_nil (a b : string) : (a ++ b)%string = EmptyString -> b = EmptyString.
Proof. destruct a; [done|]. rewrite append_cons. discriminate. Qed.

Lemma string_snoc_split (x a b : string) (c : ascii) :
  (x ++ String c EmptyString = a ++ b)%string -> b <> EmptyString ->
  exists b', b = (b' ++ String c EmptyString)%string /\ x = (a ++ b')%string.
Proof.
  revert x. induction a as [|y a IH]; intros x Heq Hb.
  - exists x. split; [by rewrite Heq|reflexivity].
  - destruct x as [|y' x].
    + rewrite append_cons in Heq.
      change (EmptyString ++ String c EmptyString)%string with (String c EmptyString) in Heq.
      injection Heq as _ Heq.
      symmetry in Heq. apply string_app_nil in Heq. done.
    + rewrite !append_cons in Heq. injection Heq as -> Heq.
      destruct (IH x Heq Hb) as (b' & -> & ->). exists b'. by rewrite append_cons.
Qed.

Lemma string_rev_nil (s : string) : string_rev s = EmptyString -> s = EmptyString.
Proof.
  intros Hr. apply (f_equal String.length) in Hr. rewrite string_rev_length in Hr.
  by destruct s.
Qed.

Lemma fields_good (s cur : string) :
  (forall a b, string_rev cur = (a ++ b)%string -> b <> EmptyString ->
               leading_space (b ++ s) = None) ->
  Forall (fun f => f <> EmptyString /\ space_free f) (fields 0 s cur).
Proof.
  remember (String.length s) as n eqn:Hn. revert s cur Hn.
  induction n as [n IH] using lt_wf_ind. intros s cur Hn Hinv.
  assert (Hclose : Forall (fun f => f <> EmptyString /\ space_free f) (close_field cur)).
  { destruct cur as [|x cur]; [constructor|]. cbn [close_field].
    constructor; [|constructor]. split.
    - intros Hr. by apply string_rev_nil in Hr.
    - intros a b Hab. destruct b as [|y b]; [reflexivity|].
      apply (leading_space_app_none _ s). by apply (Hinv a). }
  destruct s as [|c s]; cbn [fields]; [exact Hclose|].
  destruct (leading_space (String c s)) as [[|k]|] eqn:Hl.
  - apply leading_space_positive in Hl. lia.
  - apply Forall_app. split; [exact Hclose|].
    rewrite fields_skip.
    apply (IH (String.length (string_drop k s))); [|reflexivity|].
    + subst n. pose proof (string_drop_length k s). cbn [String.length]. lia.
    + intros a b Hab Hb. cbn in Hab. symmetry in Hab. apply string_app_nil in Hab. done.
  - apply (IH (String.length s)); [subst n; cbn; lia|reflexivity|].
    intros a b Hab Hb. rewrite string_rev_cons in Hab.
    destruct (string_snoc_split _ _ _ _ Hab Hb) as (b' & -> & Hcur).
    rewrite string_app_assoc. change (String c EmptyString ++ s)%string with (String c s).
    destruct b' as [|y b']; [exact Hl|]. by apply (Hinv a).
Qed.

Lemma Fields_good (s : string) :
  Forall (fun f => f <> EmptyString /\ space_free f) (strings_Fields s).
Proof.
  apply fields_good. intros a b Hab Hb. cbn in Hab. symmetry in Hab.
  apply string_app_nil in Hab. done.
Qed.

Lemma Split_single (s : string) : no_LF s -> strings_Split_LF s = [s].
Proof.
  induction s as [|c s IH]; [reflexivity|]. cbn [no_LF strings_Split_LF].
  intros [Hc Hs]. rewrite Hc, (IH Hs). reflexivity.
Qed.

(** X20. The default executor's disk usage. When df fails, the error is
    returned wrapped as "running df: ..."; when what df prints has, without
    the white space around it, a single line, the result is the error
    "unexpected df output: missing data line"; and whenever a usage is
    returned, its total and its used size are the second and the third
    white-space separated field of the second line: neither is empty and
    neither holds a white-space rune. *)
Theorem DiskUsage_columns :
  forall (S : Type) (os : cache.OS S)
         (path : string) (s s' : S) (output : string) (r : option error),
    cache.run os ["df"; "-h"; path] s = ((output, r), s') ->
    match r with
    | Some e =>
        cache.DefaultExecutor_DiskUsage os path s
          = ((cache.DiskUsage_zero, Some (fmt_Errorf "running df" e)), s')
    | None =>
        (no_LF (strings_TrimSpace output) ->
         cache.DefaultExecutor_DiskUsage os path s
           = ((cache.DiskUsage_zero,
               Some (errors_New "unexpected df output: missing data line")), s'))
        /\ (forall usage,
              fst (cache.DefaultExecutor_DiskUsage os path s) = (usage, None) ->
              exists header line rest,
                strings_Split_LF (strings_TrimSpace output) = header :: line :: rest
                /\ cache.Total usage = List.nth 1 (strings_Fields line) EmptyString
                /\ cache.Used usage = List.nth 2 (strings_Fields line) EmptyString
                /\ cache.Total usage <> EmptyString /\ space_free (cache.Total usage)
                /\ cache.Used usage <> EmptyString /\ space_free (cache.Used usage))
    end.
Proof.
  intros S os path s s' output r Hrun.
  unfold cache.DefaultExecutor_DiskUsage, bind, ret. rewrite Hrun.
  destruct r as [e|]; [reflexivity|]. split.
  - intros Hone. by rewrite (Split_single _ Hone).
  - intros usage.
    destruct (strings_Split_LF (strings_TrimSpace output)) as [|header [|line rest]];
      cbn [List.length Nat.ltb Nat.leb fst]; try discriminate.
    cbn [List.nth].
    destruct (Nat.leb (List.length (strings_Fields line)) 2) eqn:Hlen; cbn [fst];
      [discriminate|].
    intros [= <-]. exists header, line, rest.
    cbn [cache.Total cache.Used]. split; [reflexivity|]. split; [reflexivity|].
    split; [reflexivity|].
    apply Nat.leb_gt in Hlen.
    pose proof (Fields_good line) as Hgood.
    assert (H1 : In (List.nth 1 (strings_Fields line) EmptyString) (strings_Fields line))
      by (apply List.nth_In; lia).
    assert (H2 : In (List.nth 2 (strings_Fields line) EmptyString) (strings_Fields line))
      by (apply List.nth_In; lia).
    destruct (proj1 (List.Forall_forall _ _) Hgood _ H1) as [Ha Hb].
    destruct (proj1 (List.Forall_forall _ _) Hgood _ H2) as [Hc Hd].
    auto.
Qed.

(** ** Witnesses *)

(** Witness of [Detect_lookup_failure]: brew on a machine where the path
    may not be searched. *)
Lemma Detect_lookup_failure_witness :
  errors_Is permission_denied exec_ErrNotFound = false
  /\ mode.Provider_Detect (faulty_exec (Some permission_denied) (fun _ => None))
       mode.BrewProvider tt
     = ((false, Some (fmt_Errorf "lookpath brew" permission_denied)), tt).
Proof.
  split; [reflexivity|].
  exact (proj1 (proj1 (Detect_lookup_failure
                         (faulty_exec (Some permission_denied) (fun _ => None))
                         tt tt EmptyString permission_denied eq_refl)
                  mode.BrewProvider eq_refl)).
Defined.

(** Witness of [Detect_marker_stat_failure]: go with no go.mod and a
    go.work that may not be read. *)
Lemma Detect_marker_stat_failure_witness :
  Forall absent [Some (path_error "stat" "go.mod" os_ErrNotExist)]
  /\ fst (mode.Provider_Detect (faulty_exec None unreadable_go_work) mode.GoProvider tt)
     = (false,
        Some (fmt_Errorf "stat go.work" (path_error "stat" "go.work" permission_denied))).
Proof.
  assert (Ha : Forall absent [Some (path_error "stat" "go.mod" os_ErrNotExist)]).
  { constructor; [|constructor]. eexists. split; reflexivity. }
  split; [exact Ha|].
  exact (Detect_marker_stat_failure (faulty_exec None unreadable_go_work) mode.GoProvider tt
           [Some (path_error "stat" "go.mod" os_ErrNotExist)] []
           (path_error "stat" "go.work" permission_denied)
           ltac:(discriminate) eq_refl eq_refl Ha eq_refl).
Defined.

(** Witness of [Xcode_Detect_project]: a directory with a project. *)
Lemma Xcode_Detect_project_witness :
  exists d,
    mode.Provider_Detect (fixed_exec ["xcodebuild"] ["README.md"; "App.xcodeproj"] [])
      mode.XcodeProvider tt = ((d, None), tt)
    /\ (d = true <->
        exists entry stem,
          In entry ["README.md"; "App.xcodeproj"] /\ entry = (stem ++ ".xcodeproj")%string).
Proof.
  exact (Xcode_Detect_project (fixed_exec ["xcodebuild"] ["README.md"; "App.xcodeproj"] [])
           tt tt tt "/usr/bin/xcodebuild" ["README.md"; "App.xcodeproj"] None
           eq_refl eq_refl).
Defined.


(** Witness of [GolangCILint_first_dir_line]: a status that names the
    directory on its second line. *)
Lemma GolangCILint_first_dir_line_witness :
  bufio_Scan dir_status = (["Size: 123MB"] ++ "Dir: /home/u/.cache/golangci-lint" :: [], None)
  /\ Forall (fun t => names_dir (libs := unix_libs) t = false) ["Size: 123MB"]
  /\ mode.GolangCILintProvider_Plan (libs := unix_libs) (lint_exec dir_status) tt
     = (({| mode.AddEnvs := ∅; mode.MountPaths := ["/home/u/.cache/golangci-lint"];
            mode.RemovePaths := [] |}, None), tt).
Proof.
  assert (Hl : Forall (fun t => names_dir (libs := unix_libs) t = false) ["Size: 123MB"])
    by (constructor; [reflexivity|constructor]).
  split; [reflexivity|]. split; [exact Hl|].
  exact (proj1 (GolangCILint_first_dir_line (libs := unix_libs) (lint_exec dir_status)
                  tt tt dir_status ["Size: 123MB"] []
                  "Dir: /home/u/.cache/golangci-lint" None eq_refl eq_refl Hl eq_refl)).
Defined.

(** Witness of [Modes_Detect_success]: two providers that both detect
    their mode. *)
Lemma Modes_Detect_success_witness :
  exists ps,
    mode.Modes_Detect (rt := fifo_runtime) apt_go_modes {| mode.DetectRequest_Exec := None |}
      = (ps, None)
    /\ Permutation ps
         (List.filter
            (fun p => fst (mode.Detect p (mode.DetectRequest_default (rt := fifo_runtime)
                                            {| mode.DetectRequest_Exec := None |})))
            apt_go_modes).
Proof.
  apply (Modes_Detect_success (rt := fifo_runtime) apt_go_modes
           {| mode.DetectRequest_Exec := None |}).
  intros p [<-|[<-|[]]]; reflexivity.
Defined.

(** Witness of [Modes_Plan_success]: two providers that both plan. *)
Lemma Modes_Plan_success_witness :
  exists plans,
    mode.Modes_Plan (rt := fifo_runtime) apt_go_modes
      {| mode.PlanRequest_Exec := None; mode.enabledModes := [] |} = (plans, None)
    /\ (forall name, is_Some (plans !! name) <-> known apt_go_modes name).
Proof.
  destruct (proj2 (Modes_Plan_success (rt := fifo_runtime) apt_go_modes
                     {| mode.PlanRequest_Exec := None; mode.enabledModes := [] |}
                     ltac:(intros p [<-|[<-|[]]]; reflexivity)))
    as (plans & Hrun & Hdom & _).
  exists plans. split; [exact Hrun|exact Hdom].
Defined.

(** Witness of [SwiftPM_plan_next_to_xcode]: swiftpm planned next to
    xcode. *)
Lemma SwiftPM_plan_next_to_xcode_witness :
  known swift_xcode_modes "swiftpm" /\ known swift_xcode_modes "xcode"
  /\ exists plans plan,
       mode.Modes_Plan (rt := fifo_runtime) swift_xcode_modes
         {| mode.PlanRequest_Exec := None; mode.enabledModes := [] |} = (plans, None)
       /\ plans !! "swiftpm" = Some plan
       /\ mode.MountPaths plan
          = ["./.build"; "~/Library/Caches/org.swift.swiftpm"; "~/Library/org.swift.swiftpm"].
Proof.
  assert (Hs : known swift_xcode_modes "swiftpm") by (left; reflexivity).
  assert (Hx : known swift_xcode_modes "xcode") by (right; left; reflexivity).
  split; [exact Hs|]. split; [exact Hx|].
  destruct (SwiftPM_plan_next_to_xcode (rt := fifo_runtime) swift_xcode_modes
              {| mode.PlanRequest_Exec := None; mode.enabledModes := [] |} Hs
              ltac:(intros p preq [<-|[<-|[]]] Hn; [reflexivity|discriminate Hn])
              ltac:(intros p [<-|[<-|[]]]; reflexivity))
    as (plans & plan & Hrun & Hl & Hwith & _).
  exists plans, plan. split; [exact Hrun|]. split; [exact Hl|exact (Hwith Hx)].
Defined.

(** Witness of [Mount_response_layout]: a dry run for two modes and one
    path under the home directory. *)
Lemma Mount_response_layout_witness :
  exists r s',
    cache.Mount (libs := unix_libs) (rt := fifo_runtime) (json := lines_json)
      (apt_uv_mounter false) apt_uv_request tt = ((r, None), s')
    /\ cache.Input_Paths (cache.Input r) = ["~/.cache/x"]
    /\ cache.Output_DestructiveMode (cache.Output r) = false
    /\ List.map cache.MountPath (cache.Mounts (cache.Output r))
       = ["/home/u/.cache/uv"; "/var/cache/apt/archives"; "/home/u/.cache/x"].
Proof.
  assert (Hrun : exists r s',
             cache.Mount (libs := unix_libs) (rt := fifo_runtime) (json := lines_json)
               (apt_uv_mounter false) apt_uv_request tt = ((r, None), s')
             /\ List.map cache.MountPath (cache.Mounts (cache.Output r))
                = ["/home/u/.cache/uv"; "/var/cache/apt/archives"; "/home/u/.cache/x"])
    by (eexists _, _; split; vm_compute; reflexivity).
  destruct Hrun as (r & s' & Hrun & Hpaths).
  destruct (Mount_response_layout (libs := unix_libs) (rt := fifo_runtime)
              (json := lines_json) unit (apt_uv_mounter false) apt_uv_request tt s' r Hrun)
    as (modes & plans & _ & _ & _ & Hi & Hd & _).
  exists r, s'. split; [exact Hrun|]. split; [exact Hi|]. split; [exact Hd|exact Hpaths].
Defined.

(** Witness of [Mount_removed_paths]: the same dry run lists the path the
    apt plan asks to remove. *)
Lemma Mount_removed_paths_witness :
  exists r s',
    cache.Mount (libs := unix_libs) (rt := fifo_runtime) (json := lines_json)
      (apt_uv_mounter false) apt_uv_request tt = ((r, None), s')
    /\ cache.RemovedPaths (cache.Output r) = ["/etc/apt/apt.conf.d/docker-clean"]
    /\ exists modes plans,
         cache.EnabledModes (rt := fifo_runtime) apt_uv_request apt_uv_modes = (modes, None)
         /\ mode.Modes_Plan (rt := fifo_runtime) modes
              {| mode.PlanRequest_Exec := None; mode.enabledModes := [] |} = (plans, None)
         /\ cache.RemovedPaths (cache.Output r)
            = plan_removes (mode.range_plans (Runtime := fifo_runtime) plans).
Proof.
  assert (Hrun : exists r s',
             cache.Mount (libs := unix_libs) (rt := fifo_runtime) (json := lines_json)
               (apt_uv_mounter false) apt_uv_request tt = ((r, None), s')
             /\ cache.RemovedPaths (cache.Output r) = ["/etc/apt/apt.conf.d/docker-clean"])
    by (eexists _, _; split; vm_compute; reflexivity).
  destruct Hrun as (r & s' & Hrun & Hremoved).
  destruct (Mount_removed_paths (libs := unix_libs) (rt := fifo_runtime)
              (json := lines_json) unit (apt_uv_mounter false) apt_uv_request tt s' r Hrun)
    as (modes & plans & He & Hp & Hr & _).
  exists r, s'. split; [exact Hrun|]. split; [exact Hremoved|].
  exists modes, plans. split; [exact He|]. split; [exact Hp|exact Hr].
Defined.

(** Witness of [Mount_add_envs]: the same dry run sets the variable of the
    uv plan. *)
Lemma Mount_add_envs_witness :
  exists r s',
    cache.Mount (libs := unix_libs) (rt := fifo_runtime) (json := lines_json)
      (apt_uv_mounter false) apt_uv_request tt = ((r, None), s')
    /\ cache.Output_AddEnvs (cache.Output r) !! "UV_LINK_MODE" = Some "symlink"
    /\ exists name plan, mode.AddEnvs plan !! "UV_LINK_MODE" = Some "symlink"
                         /\ In (fixed_provider name (true, None) (plan, None)) apt_uv_modes.
Proof.
  assert (Hrun : exists r s',
             cache.Mount (libs := unix_libs) (rt := fifo_runtime) (json := lines_json)
               (apt_uv_mounter false) apt_uv_request tt = ((r, None), s')
             /\ cache.Output_AddEnvs (cache.Output r) !! "UV_LINK_MODE" = Some "symlink")
    by (eexists _, _; split; vm_compute; reflexivity).
  destruct Hrun as (r & s' & Hrun & Henv).
  destruct (Mount_add_envs (libs := unix_libs) (rt := fifo_runtime)
              (json := lines_json) unit (apt_uv_mounter false) apt_uv_request tt s' r Hrun)
    as (modes & plans & _ & _ & _ & _ & _).
  exists r, s'. split; [exact Hrun|]. split; [exact Henv|].
  eexists "uv", _. split; [|right; left; reflexivity]. reflexivity.
Defined.

(** Witness of [Mount_destructive_calls]: the destructive run on the same
    request. *)
Lemma Mount_destructive_calls_witness :
  exists r s' log,
    cache.Mount (libs := unix_libs) (rt := fifo_runtime) (json := lines_json)
      (cache.recorded (apt_uv_mounter true)) apt_uv_request (tt, []) = ((r, None), (s', log))
    /\ mount_calls log
       = [("/cache/home/u/.cache/uv", "/home/u/.cache/uv");
          ("/cache/var/cache/apt/archives", "/var/cache/apt/archives");
          ("/cache/home/u/.cache/x", "/home/u/.cache/x")]
    /\ remove_calls log = cache.RemovedPaths (cache.Output r).
Proof.
  assert (Hrun : exists r s' log,
             cache.Mount (libs := unix_libs) (rt := fifo_runtime) (json := lines_json)
               (cache.recorded (apt_uv_mounter true)) apt_uv_request (tt, [])
               = ((r, None), (s', log))
             /\ mount_calls log
                = [("/cache/home/u/.cache/uv", "/home/u/.cache/uv");
                   ("/cache/var/cache/apt/archives", "/var/cache/apt/archives");
                   ("/cache/home/u/.cache/x", "/home/u/.cache/x")])
    by (eexists _, _, _; split; vm_compute; reflexivity).
  destruct Hrun as (r & s' & log & Hrun & Hcalls).
  destruct (Mount_destructive_calls (libs := unix_libs) (rt := fifo_runtime)
              (json := lines_json) (apt_uv_mounter true) apt_uv_request tt s' r log
              eq_refl Hrun)
    as (work & data & e & Hlog & _ & _ & Hrm & _).
  exists r, s', log. split; [exact Hrun|]. split; [exact Hcalls|].
  rewrite <- Hrm, Hlog. unfold remove_calls. rewrite omap_app. cbn.
  by rewrite List.app_nil_r.
Defined.

(** Witness of [Mount_disk_usage_last]: the dry run on the same request,
    on an executor whose disk usage look-up fails. *)
Lemma Mount_disk_usage_last_witness :
  exists r s' log,
    cache.Mount (libs := unix_libs) (rt := fifo_runtime) (json := lines_json)
      (cache.recorded (apt_uv_mounter false)) apt_uv_request (tt, []) = ((r, None), (s', log))
    /\ cache.Output_DiskUsage (cache.Output r) = None
    /\ exists before e, log = before ++ [cache.EvDiskUsage "/cache" e].
Proof.
  assert (Hrun : exists r s' log,
             cache.Mount (libs := unix_libs) (rt := fifo_runtime) (json := lines_json)
               (cache.recorded (apt_uv_mounter false)) apt_uv_request (tt, [])
               = ((r, None), (s', log))
             /\ cache.Output_DiskUsage (cache.Output r) = None)
    by (eexists _, _, _; split; vm_compute; reflexivity).
  destruct Hrun as (r & s' & log & Hrun & Hnone).
  destruct (Mount_disk_usage_last (libs := unix_libs) (rt := fifo_runtime)
              (json := lines_json) (apt_uv_mounter false) apt_uv_request tt s' r log Hrun)
    as (before & e & Hlog & _ & _).
  exists r, s', log. split; [exact Hrun|]. split; [exact Hnone|]. by exists before, e.
Defined.

(** Witness of [EnabledModes_names]: go asked for as a manual mode and
    detected as well is enabled twice. *)
Lemma EnabledModes_names_witness :
  exists enabled,
    cache.EnabledModes (rt := fifo_runtime) go_twice_request apt_go_modes = (enabled, None)
    /\ List.map mode.Name enabled = ["go"; "go"]
    /\ Forall (fun p => In p apt_go_modes) enabled.
Proof.
  assert (Hrun : exists enabled,
             cache.EnabledModes (rt := fifo_runtime) go_twice_request apt_go_modes
               = (enabled, None)
             /\ List.map mode.Name enabled = ["go"; "go"])
    by (eexists; split; vm_compute; reflexivity).
  destruct Hrun as (enabled & Hrun & Hnames).
  destruct (proj2 (EnabledModes_names (rt := fifo_runtime) go_twice_request apt_go_modes)
              ltac:(discriminate) enabled Hrun) as (Hin & _).
  exists enabled. split; [exact Hrun|]. split; [exact Hnames|exact Hin].
Defined.

(** Witness of [detect_wildcard_only_alone]: the wildcard next to go. *)
Lemma detect_wildcard_only_alone_witness :
  apt_go_modes <> [] /\ ~ known apt_go_modes "*"
  /\ exists name,
       In name ["*"; "go"] /\ ~ known apt_go_modes name
       /\ cache.EnabledModes (rt := fifo_runtime) (cmd.mount_request ["*"; "go"] [] [])
            apt_go_modes
          = ([], Some (errors_New ("unknown mode: " ++ name))).
Proof.
  assert (Hne : apt_go_modes <> []) by discriminate.
  assert (Hstar : ~ known apt_go_modes "*") by (intros [H|[H|[]]]; discriminate H).
  split; [exact Hne|]. split; [exact Hstar|].
  exact (proj2 (detect_wildcard_only_alone (rt := fifo_runtime) apt_go_modes [] []
                  Hne Hstar) ["*"; "go"] (or_introl eq_refl) ltac:(discriminate)).
Defined.

(** Witness of [DiskUsage_columns]: a header and one line for the volume. *)
Lemma DiskUsage_columns_witness :
  fst (cache.DefaultExecutor_DiskUsage machine "/cache" ([], []))
    = ({| cache.Total := "50G"; cache.Used := "12G" |}, None)
  /\ space_free "50G" /\ space_free "12G".
Proof.
  assert (Hrun : fst (cache.DefaultExecutor_DiskUsage machine "/cache" ([], []))
                 = ({| cache.Total := "50G"; cache.Used := "12G" |}, None))
    by (vm_compute; reflexivity).
  destruct (proj2 (DiskUsage_columns _ machine "/cache" ([], []) ([], []) df_output None eq_refl)
              _ Hrun)
    as (header & line & rest & _ & _ & _ & _ & Ht & _ & Hu).
  split; [exact Hrun|]. split; [exact Ht|exact Hu].
Defined.

(** * The default executor and the operating system *)

(** ** The directories above a path *)

Section Ancestors.
Context {libs : Libs}.

Lemma top_dir_eqb (p : string) :
  String.eqb p "/" || String.eqb p "." = true <-> top_dir p.
Proof.
  unfold top_dir. rewrite orb_true_iff, !String.eqb_eq. tauto.
Qed.

Lemma top_dir_dec (p : string) : top_dir p \/ ~ top_dir p.
Proof.
  destruct (String.eqb p "/" || String.eqb p ".") eqn:E.
  - left. by apply top_dir_eqb.
  - right. intros H. apply top_dir_eqb in H. congruence.
Qed.

Lemma ancestors_loop_descent (Hdir : Dir_shortens) (fuel : nat) :
  forall (path : string) (result : list string),
    rounds path <= fuel ->
    exists d, cache.ancestors_loop fuel path result = result ++ d /\ descent path d.
Proof.
  induction fuel as [|fuel IH]; intros path result Hfuel; cbn [cache.ancestors_loop].
  - unfold rounds in Hfuel.
    destruct (String.eqb path "/" || String.eqb path ".") eqn:E; [|lia].
    exists []. split; [by rewrite List.app_nil_r|].
    apply descent_top. by apply top_dir_eqb.
  - unfold rounds in Hfuel.
    destruct (String.eqb path "/" || String.eqb path ".") eqn:E.
    + exists []. split; [by rewrite List.app_nil_r|].
      apply descent_top. by apply top_dir_eqb.
    + assert (Hnt : ~ top_dir path)
        by (intros H; apply top_dir_eqb in H; congruence).
      destruct (IH (filepath_Dir path) (result ++ [path])) as (d & Hd & Hdesc).
      { unfold rounds.
        destruct (String.eqb (filepath_Dir path) "/" || String.eqb (filepath_Dir path) ".")
          eqn:E'; [lia|].
        destruct (Hdir path Hnt) as [Ht|Hlt]; [|lia].
        apply top_dir_eqb in Ht. congruence. }
      exists (path :: d). split.
      * rewrite Hd, <- List.app_assoc. reflexivity.
      * by apply descent_up.
Qed.

Lemma climbs_snoc (l : list string) (x : string) :
  climbs l ->
  (forall y, List.last l x = y -> l <> [] -> filepath_Dir x = y) ->
  climbs (l ++ [x]).
Proof.
  induction l as [|a [|b l] IH]; intros Hc Hlast.
  - exact I.
  - cbn. split; [|exact I]. apply Hlast; [reflexivity|discriminate].
  - destruct Hc as [Hab Hc]. split; [exact Hab|].
    apply IH; [exact Hc|]. intros y Hy _. apply Hlast; [exact Hy|discriminate].
Qed.

Lemma descent_head (p : string) (d : list string) :
  descent p d -> d = [] \/ List.hd p d = p.
Proof. intros [q Hq|q d' Hq Hd]; [by left|by right]. Qed.

Lemma last_rev (d : list string) (x y : string) :
  d <> [] -> List.last (List.rev d) x = List.hd y d.
Proof.
  destruct d as [|a d]; [done|]. intros _. cbn [List.rev List.hd].
  by rewrite List.last_last.
Qed.

Lemma descent_spec (p : string) (d : list string) :
  descent p d ->
  Forall (fun q => ~ top_dir q) d
  /\ climbs (List.rev d)
  /\ match List.rev d with
     | [] => top_dir p
     | top :: _ => top_dir (filepath_Dir top) /\ List.last (List.rev d) EmptyString = p
     end.
Proof.
  induction 1 as [p Hp|p d Hp Hd (Hall & Hclimb & Hends)].
  - split; [constructor|]. split; [exact I|]. exact Hp.
  - split; [by constructor|]. cbn [List.rev]. split.
    + apply climbs_snoc; [exact Hclimb|]. intros y Hy Hne.
      assert (Hd' : d <> []) by (intros ->; by apply Hne).
      rewrite (last_rev d p (filepath_Dir p) Hd') in Hy.
      destruct (descent_head _ _ Hd) as [->|Hh]; [done|]. congruence.
    + rewrite List.last_last.
      destruct (List.rev d) as [|top rest] eqn:Hr; cbn [app].
      * split; [exact Hends|reflexivity].
      * split; [exact (proj1 Hends)|reflexivity].
Qed.

End Ancestors.

Lemma drop_element_length (r : string) :
  r <> EmptyString -> String.length (drop_element r) < String.length r.
Proof.
  induction r as [|c r IH]; [done|]. intros _. cbn [drop_element String.length].
  destruct (Ascii.eqb c "/"); [lia|].
  destruct r as [|c' r']; [cbn; lia|].
  assert (String c' r' <> EmptyString) by discriminate. specialize (IH H). lia.
Qed.

Lemma clean_Dir_shortens : Dir_shortens (libs := clean_libs).
Proof.
  intros p _. cbn [filepath_Dir clean_libs]. unfold clean_Dir.
  destruct (existsb (Ascii.eqb "/") (list_ascii_of_string p)) eqn:Hs; cbn [negb];
    [|left; by right].
  destruct (String.eqb (string_rev (drop_element (string_rev p))) EmptyString);
    [left; by left|].
  right. rewrite string_rev_length.
  assert (Hne : string_rev p <> EmptyString).
  { intros H. apply string_rev_nil in H. subst p. discriminate. }
  pose proof (drop_element_length _ Hne) as Hlt.
  by rewrite string_rev_length in Hlt.
Qed.

(** X21. The directories above a path. Given that [filepath.Dir] returns
    "/", "." or a shorter path for every path that is neither "/" nor ".",
    the loop of [ancestors] ends at "/" or "." and the list it returns runs
    from the top to the path: none of its paths is "/" or ".", every path
    is the directory of the next one, the directory of the first is "/" or
    ".", and the last is the path itself; the list is empty exactly for
    "/" and ".". *)
Theorem ancestors_root_to_leaf {libs : Libs} :
  Dir_shortens ->
  forall path : string,
    Forall (fun p => ~ top_dir p) (cache.ancestors path)
    /\ climbs (cache.ancestors path)
    /\ match cache.ancestors path with
       | [] => top_dir path
       | top :: _ =>
           top_dir (filepath_Dir top)
           /\ List.last (cache.ancestors path) EmptyString = path
       end.
Proof.
  intros Hdir path. unfold cache.ancestors.
  destruct (ancestors_loop_descent Hdir (Datatypes.S (String.length path)) path [])
    as (d & -> & Hd).
  { unfold rounds. destruct (String.eqb path "/" || String.eqb path "."); lia. }
  cbn [app]. destruct (descent_spec _ _ Hd) as (Hall & Hclimb & Hends).
  split; [by apply List.Forall_rev|]. split; [exact Hclimb|exact Hends].
Qed.

(** ** The calls of the default executor *)

Lemma stats_app (a b : list cache.OSEvent) : stats (a ++ b) = stats a ++ stats b.
Proof. apply List.flat_map_app. Qed.

Lemma commands_app (a b : list cache.OSEvent) :
  commands (a ++ b) = commands a ++ commands b.
Proof. apply List.flat_map_app. Qed.

Lemma missing_app (a b : list cache.OSEvent) : missing (a ++ b) = missing a ++ missing b.
Proof. unfold missing. by rewrite stats_app, List.filter_app, List.map_app. Qed.

Lemma unwraps_to_refl (e : error) : unwraps_to e e.
Proof. destruct e; by left. Qed.

Lemma unwraps_to_wrap (prefix : string) (err e : error) :
  unwraps_to err e -> unwraps_to (fmt_Errorf prefix err) e.
Proof. intros H. right. exact H. Qed.

Lemma fail_fast_last (init : list cache.OSEvent) (last : cache.OSEvent) (e err : error) :
  Forall tolerated init -> ~ tolerated last -> event_error last = Some e ->
  unwraps_to err e -> fail_fast (Some err) (init ++ [last]).
Proof. intros. exists init, last, e. done. Qed.

Lemma fail_fast_app (r : option error) (evs1 evs2 : list cache.OSEvent) :
  Forall tolerated evs1 -> fail_fast r evs2 -> fail_fast r (evs1 ++ evs2).
Proof.
  intros H1. destruct r as [err|]; cbn [fail_fast].
  - intros (init & last & e & -> & Hi & Hl & He & Hu).
    exists (evs1 ++ init), last, e. rewrite List.app_assoc.
    split; [reflexivity|]. split; [by apply List.Forall_app|]. done.
  - intros H2. by apply List.Forall_app.
Qed.

Lemma fail_fast_wrap (prefix : string) (err : error) (evs : list cache.OSEvent) :
  fail_fast (Some err) evs -> fail_fast (Some (fmt_Errorf prefix err)) evs.
Proof.
  intros (init & last & e & -> & Hi & Hl & He & Hu).
  exists init, last, e. split; [reflexivity|]. split; [exact Hi|].
  split; [exact Hl|]. split; [exact He|]. by apply unwraps_to_wrap.
Qed.

Lemma appends_shift {A S : Type} (out : A * (S * list cache.OSEvent))
    (log pre : list cache.OSEvent) (P Q : A -> list cache.OSEvent -> Prop) :
  appends out (log ++ pre) Q ->
  (forall r evs, Q r evs -> P r (pre ++ evs)) ->
  appends out log P.
Proof.
  intros (evs & Hlog & HQ) HPQ. exists (pre ++ evs).
  split; [by rewrite List.app_assoc|]. by apply HPQ.
Qed.

Lemma appends_now {A S : Type} (a : A) (s : S) (log evs : list cache.OSEvent)
    (P : A -> list cache.OSEvent -> Prop) :
  P a evs -> appends (a, (s, log ++ evs)) log P.
Proof. intros H. exists evs. done. Qed.

Section Traces.
Context {libs : Libs} {S : Type} (os : cache.OS S).

Lemma run_traced (cmd : list string) (s : S) (log : list cache.OSEvent) :
  appends (cache.run (cache.traced os) cmd (s, log)) log
    (fun r evs =>
       exists e, evs = [cache.OsCommand cmd e]
         /\ match snd r with
            | None => e = None
            | Some err => exists e0, e = Some e0 /\ unwraps_to err e0
            end).
Proof.
  unfold cache.run, bind, ret. cbn [cache.traced cache.cmd_Output fst snd].
  destruct (cache.cmd_Output os cmd s) as [[output [[e [stderr|]]|]] s1];
    cbn [fst snd option_map]; apply appends_now; eexists; (split; [reflexivity|]);
    cbn [snd].
  - eexists. split; [reflexivity|]. right. apply unwraps_to_refl.
  - eexists. split; [reflexivity|]. apply unwraps_to_refl.
  - reflexivity.
Qed.

Lemma chownSelf_traced (path : string) (s : S) (log : list cache.OSEvent) :
  appends (cache.chownSelf (cache.traced os) path (s, log)) log
    (fun r evs =>
       fail_fast r evs
       /\ (r = None ->
           exists owner,
             evs = [cache.OsCurrentUser None;
                    cache.OsCommand ["sudo"; "chown"; owner; path] None])).
Proof.
  unfold cache.chownSelf. unfold bind at 1.
  cbn [cache.traced cache.user_Current fst snd].
  destruct (cache.user_Current os s) as [[[uid gid] [e|]] s1]; cbn [fst snd ret].
  - apply appends_now. split; [|discriminate].
    apply (fail_fast_last [] _ e); [constructor|by intros []|reflexivity|].
    apply unwraps_to_wrap, unwraps_to_refl.
  - unfold bind.
    pose proof (run_traced ["sudo"; "chown"; (uid ++ ":" ++ gid)%string; path] s1
                  (log ++ [cache.OsCurrentUser None])) as Hrun.
    destruct (cache.run _ _ _) as [[out r] [s2 log2]].
    destruct Hrun as (evs & Hlog & e & -> & He). cbn [fst snd] in Hlog, He.
    subst log2. rewrite <- List.app_assoc. cbn [app].
    destruct r as [err|]; cbn [ret]; apply appends_now.
    + destruct He as (e0 & -> & Hu). split; [|discriminate].
      apply (fail_fast_last [cache.OsCurrentUser None] _ e0);
        [by repeat constructor|by intros []|reflexivity|].
      by apply unwraps_to_wrap.
    + subst e. split; [by repeat constructor|]. intros _. by eexists.
Qed.

Lemma laid_nil : laid [] [].
Proof. split; [reflexivity|]. by exists []. Qed.

Lemma laid_present (p : string) (rest : list string) (evs : list cache.OSEvent) :
  laid rest evs -> laid (p :: rest) (cache.OsStat p None :: evs).
Proof.
  intros (Hs & made & Hm & Hc). split.
  - change (stats (cache.OsStat p None :: evs)) with ((p, None) :: stats evs).
    cbn [List.map fst]. by rewrite Hs.
  - by exists made.
Qed.

Lemma laid_made (p owner : string) (e : error) (rest : list string)
    (evs : list cache.OSEvent) :
  laid rest evs ->
  laid (p :: rest)
    (cache.OsStat p (Some e) :: cache.OsCommand ["sudo"; "mkdir"; p] None
     :: cache.OsCurrentUser None :: cache.OsCommand ["sudo"; "chown"; owner; p] None
     :: evs).
Proof.
  intros (Hs & made & Hm & Hc).
  match goal with
  | |- laid _ ?l =>
      assert (Hst : stats l = (p, Some e) :: stats evs) by reflexivity;
      assert (Hcm : commands l
                    = ["sudo"; "mkdir"; p] :: ["sudo"; "chown"; owner; p] :: commands evs)
        by reflexivity
  end.
  split.
  - rewrite Hst. cbn [List.map fst]. by rewrite Hs.
  - exists ((p, owner) :: made). split.
    + unfold missing in *. rewrite Hst. cbn [List.filter snd List.map fst].
      by rewrite Hm.
    + rewrite Hcm, Hc. reflexivity.
Qed.

Lemma sudoMkdirP_loop_traced (dirs : list string) :
  forall (s : S) (log : list cache.OSEvent),
    appends (cache.sudoMkdirP_loop (cache.traced os) dirs (s, log)) log
      (fun r evs => fail_fast r evs /\ (r = None -> laid dirs evs)).
Proof.
  induction dirs as [|p rest IH]; intros s log; cbn [cache.sudoMkdirP_loop].
  - unfold ret. rewrite <- (List.app_nil_r log) at 1. apply appends_now.
    split; [constructor|]. intros _. apply laid_nil.
  - unfold bind at 1. cbn [cache.traced cache.os_Stat fst snd].
    destruct (cache.os_Stat os p s) as [[isDir [e|]] s1]; cbn [fst snd].
    + destruct (errors_Is e os_ErrNotExist) eqn:Hne; cbn [negb].
      * unfold bind at 1.
        pose proof (run_traced ["sudo"; "mkdir"; p] s1
                      (log ++ [cache.OsStat p (Some e)])) as Hrun.
        destruct (cache.run _ _ _) as [[out r] [s2 log2]].
        destruct Hrun as (evs & Hlog & e1 & -> & He). cbn [fst snd] in Hlog, He.
        subst log2. rewrite <- List.app_assoc. cbn [app].
        destruct r as [err|].
        -- destruct He as (e0 & -> & Hu). unfold ret. apply appends_now.
           split; [|discriminate].
           apply (fail_fast_last [cache.OsStat p (Some e)] _ e0);
             [by repeat constructor|by intros []|reflexivity|].
           by apply unwraps_to_wrap.
        -- subst e1. unfold bind at 1.
           pose proof (chownSelf_traced p s2
                         (log ++ [cache.OsStat p (Some e);
                                  cache.OsCommand ["sudo"; "mkdir"; p] None])) as Hch.
           destruct (cache.chownSelf _ _ _) as [r [s3 log3]].
           destruct Hch as (evs & Hlog & Hff & Hok). cbn [fst snd] in Hlog, Hff, Hok.
           subst log3. rewrite <- List.app_assoc. cbn [app].
           destruct r as [err|].
           ++ unfold ret. apply appends_now. split; [|discriminate].
              apply fail_fast_wrap.
              apply (fail_fast_app _ [cache.OsStat p (Some e);
                                      cache.OsCommand ["sudo"; "mkdir"; p] None]);
                [by repeat constructor|exact Hff].
           ++ destruct (Hok eq_refl) as (owner & ->). cbn [app].
              eapply (appends_shift _ log
                        [cache.OsStat p (Some e);
                         cache.OsCommand ["sudo"; "mkdir"; p] None;
                         cache.OsCurrentUser None;
                         cache.OsCommand ["sudo"; "chown"; owner; p] None]);
                [apply IH|].
              intros r evs [Hf Hl]. split.
              ** apply fail_fast_app; [by repeat constructor|exact Hf].
              ** intros Hr. cbn [app]. apply laid_made. by apply Hl.
      * unfold ret. apply appends_now. split; [|discriminate].
        apply (fail_fast_last [] _ e); [constructor| |reflexivity|].
        -- cbn [tolerated]. congruence.
        -- apply unwraps_to_wrap, unwraps_to_refl.
    + eapply (appends_shift _ log [cache.OsStat p None]); [apply IH|].
      intros r evs [Hf Hl]. split.
      * apply fail_fast_app; [by repeat constructor|exact Hf].
      * intros Hr. cbn [app]. apply laid_present. by apply Hl.
Qed.

Lemma provision_app (a b : list (string * string)) :
  provision (a ++ b) = provision a ++ provision b.
Proof. apply List.flat_map_app. Qed.

Lemma stats_command (cmd : list string) (e : option error) :
  stats [cache.OsCommand cmd e] = [].
Proof. reflexivity. Qed.

Lemma mount_bind_tail (from to : string) (s : S) (log : list cache.OSEvent) :
  appends
    ((let* err1 := cache.sudoMkdirP (cache.traced os) to in
      match err1 with
      | Some err1 => ret (Some err1)
      | None =>
          let* (_, err2) :=
            cache.run (cache.traced os) ["sudo"; "mount"; "--bind"; from; to] in
          match err2 with
          | Some err2 =>
              ret (Some (fmt_Errorf ("binding from " ++ strconv_Quote from ++ " to "
                                     ++ strconv_Quote to) err2))
          | None => ret None
          end
      end) (s, log)) log
    (fun r evs =>
       fail_fast r evs
       /\ (r = None ->
           map fst (stats evs) = cache.ancestors to
           /\ exists made,
                map fst made = missing evs
                /\ commands evs
                   = provision made ++ [["sudo"; "mount"; "--bind"; from; to]])).
Proof.
  unfold bind at 1. unfold cache.sudoMkdirP.
  pose proof (sudoMkdirP_loop_traced (cache.ancestors to) s log) as H.
  destruct (cache.sudoMkdirP_loop _ _ _) as [r [s1 log1]].
  destruct H as (evs & Hlog & Hff & Hl). cbn [fst snd] in Hlog, Hff, Hl. subst log1.
  destruct r as [err|].
  - unfold ret. apply appends_now. split; [exact Hff|discriminate].
  - unfold bind.
    pose proof (run_traced ["sudo"; "mount"; "--bind"; from; to] s1 (log ++ evs)) as Hrun.
    destruct (cache.run _ _ _) as [[out r] [s2 log2]].
    destruct Hrun as (evs2 & Hlog & e & -> & He). cbn [fst snd] in Hlog, He.
    subst log2. rewrite <- List.app_assoc.
    destruct r as [err|]; unfold ret; apply appends_now.
    + destruct He as (e0 & -> & Hu). split; [|discriminate].
      apply (fail_fast_last evs _ e0); [exact Hff|by intros []|reflexivity|].
      by apply unwraps_to_wrap.
    + subst e. split.
      * apply List.Forall_app. split; [exact Hff|by repeat constructor].
      * intros _. destruct (Hl eq_refl) as (Hs & made & Hm & Hc).
        rewrite stats_app, missing_app, commands_app, List.app_nil_r. split; [exact Hs|].
        exists made. split; [by rewrite List.app_nil_r|]. by rewrite Hc.
Qed.

Lemma mount_bind_traced (from to : string) (s : S) (log : list cache.OSEvent) :
  appends (cache.mount_bind (cache.traced os) from to (s, log)) log
    (fun r evs => fail_fast r evs /\ (r = None -> bound from to evs)).
Proof.
  unfold cache.mount_bind. unfold bind at 1.
  cbn [cache.traced cache.os_Lstat fst snd].
  destruct (cache.os_Lstat os to s) as [[info err] s1]; cbn [fst snd].
  destruct (match err with
            | Some err0 =>
                if negb (errors_Is err0 os_ErrNotExist)
                then Some (fmt_Errorf ("stating to path " ++ strconv_Quote to) err0)
                else None
            | None => None
            end) as [stop|] eqn:Hstop.
  - destruct err as [e|]; [|discriminate].
    destruct (errors_Is e os_ErrNotExist) eqn:He; cbn [negb] in Hstop; [discriminate|].
    injection Hstop as <-. unfold ret. apply appends_now. split; [|discriminate].
    apply (fail_fast_last [] _ e); [constructor| |reflexivity|].
    + cbn [tolerated]. congruence.
    + apply unwraps_to_wrap, unwraps_to_refl.
  - assert (Hfirst : tolerated (cache.OsLstat to info err)).
    { cbn [tolerated]. destruct err as [e|]; [|exact I].
      destruct (errors_Is e os_ErrNotExist); [reflexivity|discriminate]. }
    clear Hstop.
    destruct info as [[|]|].
    2:{ unfold bind at 1. unfold bind at 1.
        pose proof (run_traced ["sudo"; "rm"; "-rf"; to] s1
                      (log ++ [cache.OsLstat to (Some false) err])) as Hrun.
        destruct (cache.run _ _ _) as [[out r] [s2 log2]].
        destruct Hrun as (evs2 & Hlog & e & -> & He). cbn [fst snd] in Hlog, He.
        subst log2. rewrite <- List.app_assoc. cbn [app ret].
        destruct r as [e1|].
        - destruct He as (e0 & -> & Hu). apply appends_now. split; [|discriminate].
          apply (fail_fast_last [cache.OsLstat to (Some false) err] _ e0);
            [by repeat constructor|by intros []|reflexivity|].
          by apply unwraps_to_wrap.
        - subst e.
          eapply (appends_shift _ log
                    [cache.OsLstat to (Some false) err;
                     cache.OsCommand ["sudo"; "rm"; "-rf"; to] None]);
            [apply (mount_bind_tail from to)|].
          intros r evs [Hf Hl]. split.
          + apply fail_fast_app; [by repeat constructor|exact Hf].
          + intros Hr. destruct (Hl Hr) as (Hs & made & Hm & Hc).
            exists (Some false), err, (cache.OsCommand ["sudo"; "rm"; "-rf"; to] None :: evs).
            split; [reflexivity|]. split; [exact Hs|].
            exists made. split; [exact Hm|]. cbn [app]. by rewrite <- Hc. }
    all: unfold bind at 1; cbn [ret];
      (eapply (appends_shift _ log [_]); [apply (mount_bind_tail from to)|]);
      intros r evs [Hf Hl]; (split; [apply fail_fast_app; [by repeat constructor|exact Hf]|]);
      intros Hr; destruct (Hl Hr) as (Hs & made & Hm & Hc);
      eexists _, err, evs; (split; [reflexivity|]); (split; [exact Hs|]);
      exists made; (split; [exact Hm|]); exact Hc.
Qed.

Lemma mount_symlink_traced (from to : string) (s : S) (log : list cache.OSEvent) :
  appends (cache.mount_symlink (cache.traced os) from to (s, log)) log
    (fun r evs => fail_fast r evs /\ (r = None -> linked from to evs)).
Proof.
  unfold cache.mount_symlink. unfold bind at 1. unfold cache.sudoMkdirP.
  pose proof (sudoMkdirP_loop_traced (cache.ancestors (filepath_Dir to)) s log) as H.
  destruct (cache.sudoMkdirP_loop _ _ _) as [r [s1 log1]].
  destruct H as (evs & Hlog & Hff & Hl). cbn [fst snd] in Hlog, Hff, Hl. subst log1.
  destruct r as [err|].
  { unfold ret. apply appends_now. split; [exact Hff|discriminate]. }
  destruct (Hl eq_refl) as (Hs & made & Hm & Hc). clear Hl.
  unfold bind at 1.
  pose proof (run_traced ["sudo"; "rm"; "-rf"; to] s1 (log ++ evs)) as Hrun.
  destruct (cache.run _ _ _) as [[out r] [s2 log2]].
  destruct Hrun as (evs2 & Hlog & e & -> & He). cbn [fst snd] in Hlog, He.
  subst log2. rewrite <- List.app_assoc.
  destruct r as [e1|].
  { destruct He as (e0 & -> & Hu). unfold ret. apply appends_now. split; [|discriminate].
    apply (fail_fast_last evs _ e0); [exact Hff|by intros []|reflexivity|].
    by apply unwraps_to_wrap. }
  subst e. unfold bind at 1.
  pose proof (run_traced ["sudo"; "ln"; "-sfn"; from; to] s2
                (log ++ evs ++ [cache.OsCommand ["sudo"; "rm"; "-rf"; to] None])) as Hrun.
  destruct (cache.run _ _ _) as [[out' r] [s3 log3]].
  destruct Hrun as (evs3 & Hlog & e & -> & He). cbn [fst snd] in Hlog, He.
  subst log3. rewrite <- !List.app_assoc.
  destruct r as [e1|].
  { destruct He as (e0 & -> & Hu). unfold ret. apply appends_now. split; [|discriminate].
    rewrite List.app_assoc.
    apply (fail_fast_last _ _ e0);
      [apply List.Forall_app; split; [exact Hff|by repeat constructor]
      |by intros []|reflexivity|].
    by apply unwraps_to_wrap. }
  subst e. cbn [app].
  pose proof (chownSelf_traced to s3
                (log ++ evs ++ [cache.OsCommand ["sudo"; "rm"; "-rf"; to] None;
                                cache.OsCommand ["sudo"; "ln"; "-sfn"; from; to] None]))
    as Hch.
  destruct (cache.chownSelf _ _ _) as [r [s4 log4]].
  destruct Hch as (evs4 & Hlog & Hff4 & Hok). cbn [fst snd] in Hlog, Hff4, Hok.
  subst log4. rewrite <- !List.app_assoc. apply appends_now. split.
  - apply fail_fast_app; [exact Hff|].
    apply (fail_fast_app _ [_; _]); [by repeat constructor|exact Hff4].
  - intros ->. destruct (Hok eq_refl) as (owner & ->). split.
    + rewrite stats_app. cbn [app stats flat_map]. by rewrite List.app_nil_r.
    + exists made, owner. split.
      * rewrite missing_app. unfold missing at 2. cbn. by rewrite List.app_nil_r.
      * rewrite commands_app, Hc. reflexivity.
Qed.

Lemma DefaultExecutor_Mount_traced (darwin : bool) (from to : string) (s : S)
    (log : list cache.OSEvent) :
  appends (cache.DefaultExecutor_Mount (cache.traced os) darwin from to (s, log)) log
    (fun r evs =>
       fail_fast r evs
       /\ (r = None ->
           exists err rest,
             evs = cache.OsReadDir to err :: cache.OsMkdirAll from 493 None :: rest
             /\ if darwin then linked from to rest else bound from to rest)).
Proof.
  unfold cache.DefaultExecutor_Mount, cache.isEmptyDir. unfold bind at 1. unfold bind at 1.
  cbn [cache.traced cache.os_ReadDir cache.os_MkdirAll fst snd].
  destruct (cache.os_ReadDir os to s) as [[files err] s1]; cbn [fst snd].
  assert (Hgo : tolerated (cache.OsReadDir to err) ->
            appends
              ((let* err0 := cache.os_MkdirAll (cache.traced os) from 493 in
                match err0 with
                | Some err0 =>
                    ret (Some (fmt_Errorf ("creating from path " ++ strconv_Quote from) err0))
                | None => cache.mount (cache.traced os) darwin from to
                end) (s1, log ++ [cache.OsReadDir to err])) log
              (fun r evs =>
                 fail_fast r evs
                 /\ (r = None ->
                     exists err rest,
                       evs = cache.OsReadDir to err :: cache.OsMkdirAll from 493 None :: rest
                       /\ if darwin then linked from to rest else bound from to rest))).
  { intros Htol. unfold bind at 1. cbn [cache.traced cache.os_MkdirAll fst snd].
    destruct (cache.os_MkdirAll os from 493 s1) as [[e|] s2].
    - unfold ret. rewrite <- List.app_assoc. apply appends_now. split; [|discriminate].
      apply (fail_fast_last [_] _ e); [by repeat constructor|by intros []|reflexivity|].
      apply unwraps_to_wrap, unwraps_to_refl.
    - rewrite <- List.app_assoc. cbn [app].
      eapply (appends_shift _ log [_; _] _
                (fun r evs =>
                   fail_fast r evs
                   /\ (r = None ->
                       if darwin then linked from to evs else bound from to evs))).
      + unfold cache.mount. destruct darwin;
          [apply mount_symlink_traced|apply mount_bind_traced].
      + intros r evs [Hf Hl]. split.
        * apply fail_fast_app; [by repeat constructor|exact Hf].
        * intros Hr. exists err, evs. split; [reflexivity|]. by apply Hl. }
  destruct err as [e|].
  - destruct (errors_Is e os_ErrNotExist) eqn:He; cbn [ret fst snd].
    + apply Hgo. exact He.
    + apply appends_now. split; [|discriminate].
      apply (fail_fast_last [] _ e); [constructor| |reflexivity|].
      * cbn [tolerated]. congruence.
      * apply unwraps_to_wrap, unwraps_to_refl.
  - cbn [ret fst snd]. apply Hgo. exact I.
Qed.

End Traces.

(** X22. The directories [sudoMkdirP] makes. Over an operating system that
    keeps a log, a run that returns no error has looked with [os.Stat] at
    every path of [ancestors], once and from the top down; no call failed
    but a look at a file that does not exist; and the commands it ran are,
    for every path it found missing and in that order, sudo mkdir of the
    path followed by sudo chown of the path to an owner uid:gid, and no
    other command. *)
Theorem sudoMkdirP_makes_missing {libs : Libs} {S : Type} (os : cache.OS S) :
  forall (path : string) (s s' : S) (log : list cache.OSEvent),
    cache.sudoMkdirP (cache.traced os) path (s, []) = (None, (s', log)) ->
    map fst (stats log) = cache.ancestors path
    /\ Forall tolerated log
    /\ exists made, map fst made = missing log /\ commands log = provision made.
Proof.
  intros path s s' log Hrun. unfold cache.sudoMkdirP in Hrun.
  destruct (sudoMkdirP_loop_traced os (cache.ancestors path) s []) as (evs & Hlog & Hff & Hl).
  rewrite Hrun in Hlog, Hff, Hl. cbn [fst snd app] in Hlog, Hff, Hl. subst evs.
  destruct (Hl eq_refl) as (Hs & Hmade). split; [exact Hs|]. split; [exact Hff|exact Hmade].
Qed.

(** X23. The bind mount of the default executor, on every target but
    darwin. A mount that returns no error has first read the directory
    [to], then made [from] with [os.MkdirAll] and mode 0755, then looked at
    [to] with [os.Lstat]; it has looked with [os.Stat] at the paths of
    [ancestors] of [to], and its commands are: sudo rm -rf of [to] exactly
    when [os.Lstat] reported a file that is no directory, then sudo mkdir
    and sudo chown for every path found missing, and last
    sudo mount --bind [from] [to]. *)
Theorem Mount_bind_calls {libs : Libs} {S : Type} (os : cache.OS S) :
  forall (from to : string) (s s' : S) (log : list cache.OSEvent),
    cache.DefaultExecutor_Mount (cache.traced os) false from to (s, [])
      = (None, (s', log)) ->
    exists entries info err rest,
      log = cache.OsReadDir to entries :: cache.OsMkdirAll from 493 None
            :: cache.OsLstat to info err :: rest
      /\ map fst (stats log) = cache.ancestors to
      /\ exists made,
           map fst made = missing log
           /\ commands log
              = match info with
                | Some false => [["sudo"; "rm"; "-rf"; to]]
                | _ => []
                end
                ++ provision made ++ [["sudo"; "mount"; "--bind"; from; to]].
Proof.
  intros from to s s' log Hrun.
  destruct (DefaultExecutor_Mount_traced os false from to s []) as (evs & Hlog & _ & Hl).
  rewrite Hrun in Hlog, Hl. cbn [fst snd app] in Hlog, Hl. subst evs.
  destruct (Hl eq_refl) as (entries & rest & -> & info & err & rest' & -> & Hs & Hmade).
  exists entries, info, err, rest'. split; [reflexivity|]. split; [exact Hs|exact Hmade].
Qed.

(** X24. The mount by symbolic link of the default executor, on darwin. A
    mount that returns no error has first read the directory [to], then
    made [from] with [os.MkdirAll] and mode 0755; it has looked with
    [os.Stat] at the paths of [ancestors] of the directory of [to], not at
    [to] itself, and its commands are: sudo mkdir and sudo chown for every
    path found missing, then sudo rm -rf of [to] whatever it is, then
    sudo ln -sfn [from] [to], and last sudo chown of [to]. *)
Theorem Mount_symlink_calls {libs : Libs} {S : Type} (os : cache.OS S) :
  forall (from to : string) (s s' : S) (log : list cache.OSEvent),
    cache.DefaultExecutor_Mount (cache.traced os) true from to (s, [])
      = (None, (s', log)) ->
    exists entries rest,
      log = cache.OsReadDir to entries :: cache.OsMkdirAll from 493 None :: rest
      /\ map fst (stats log) = cache.ancestors (filepath_Dir to)
      /\ exists made owner,
           map fst made = missing log
           /\ commands log
              = provision made
                ++ [["sudo"; "rm"; "-rf"; to]; ["sudo"; "ln"; "-sfn"; from; to];
                    ["sudo"; "chown"; owner; to]].
Proof.
  intros from to s s' log Hrun.
  destruct (DefaultExecutor_Mount_traced os true from to s []) as (evs & Hlog & _ & Hl).
  rewrite Hrun in Hlog, Hl. cbn [fst snd app] in Hlog, Hl. subst evs.
  destruct (Hl eq_refl) as (entries & rest & -> & Hs & Hmade).
  exists entries, rest. split; [reflexivity|]. split; [exact Hs|exact Hmade].
Qed.

(** X25. The default executor's mount stops at the first call that fails.
    On either platform, every call of the log but the last one returned no
    error or looked at a file that does not exist ([os.ReadDir], [os.Lstat]
    or [os.Stat] with [os.ErrNotExist]); the mount returns no error exactly
    when that also holds of the last call, and the error it returns
    otherwise unwraps to the error of the last call. *)
Theorem Mount_stops_at_first_failure {libs : Libs} {S : Type} (os : cache.OS S) :
  forall (darwin : bool) (from to : string) (s : S),
    let out := cache.DefaultExecutor_Mount (cache.traced os) darwin from to (s, []) in
    match fst out with
    | None => Forall tolerated (snd (snd out))
    | Some err =>
        exists init last e,
          snd (snd out) = init ++ [last] /\ Forall tolerated init /\ ~ tolerated last
          /\ event_error last = Some e /\ unwraps_to err e
    end.
Proof.
  intros darwin from to s out.
  destruct (DefaultExecutor_Mount_traced os darwin from to s []) as (evs & Hlog & Hff & _).
  fold out in Hlog, Hff. cbn [app] in Hlog. rewrite Hlog. exact Hff.
Qed.

(** X26. What [NewMounter] returns. A mounter is returned only without an
    error and only for a root that is not empty, of which [filepath.Abs]
    gave the path without an error and which [os.Stat] then reported as a
    directory; the mounter has that absolute path as its cache root, the
    default executor and the default modes, and is never in destructive
    mode. Otherwise the error is wrapped as "resolving cache root: ...". *)
Theorem NewMounter_checked_root {libs : Libs} {S : Type} (os : cache.OS S) :
  forall (darwin : bool) (defaultModes : mode.Modes) (cacheRoot : string) (s : S),
    match cache.NewMounter os darwin defaultModes cacheRoot s with
    | ((Some m, err), s') =>
        err = None /\ cacheRoot <> EmptyString
        /\ cache.DestructiveMode m = false
        /\ cache.Exec m = cache.DefaultExecutor os darwin
        /\ cache.Modes m = defaultModes
        /\ exists s1,
             cache.filepath_Abs os cacheRoot s = ((cache.CacheRoot m, None), s1)
             /\ cache.os_Stat os (cache.CacheRoot m) s1 = ((true, None), s')
    | ((None, err), _) =>
        exists e, err = Some (fmt_Errorf "resolving cache root" e)
    end.
Proof.
  intros darwin defaultModes cacheRoot s.
  unfold cache.NewMounter, cache.absDir, bind, ret.
  destruct (String.eqb cacheRoot EmptyString) eqn:Hempty; [by eexists|].
  apply String.eqb_neq in Hempty.
  destruct (cache.filepath_Abs os cacheRoot s) as [[absPath [e|]] s1] eqn:Habs;
    [by eexists|].
  destruct (cache.os_Stat os absPath s1) as [[isDir [e|]] s2] eqn:Hstat.
  - destruct (errors_Is e os_ErrNotExist); by eexists.
  - destruct isDir; cbn [negb]; [|by eexists].
    cbn [cache.DestructiveMode cache.Exec cache.Modes cache.CacheRoot].
    repeat (split; [done|]). exists s1. split; [reflexivity|exact Hstat].
Qed.

(** Witness of [ancestors_root_to_leaf]: the three directories of
    /mnt/cache/go. *)
Lemma ancestors_root_to_leaf_witness :
  cache.ancestors (libs := clean_libs) "/mnt/cache/go"
    = ["/mnt"; "/mnt/cache"; "/mnt/cache/go"]
  /\ climbs (libs := clean_libs) (cache.ancestors (libs := clean_libs) "/mnt/cache/go").
Proof.
  split; [vm_compute; reflexivity|].
  exact (proj1 (proj2 (ancestors_root_to_leaf (libs := clean_libs) clean_Dir_shortens
                         "/mnt/cache/go"))).
Defined.

(** Witness of [sudoMkdirP_makes_missing]: of the directories of
    /mnt/cache/go only /mnt is there. *)
Lemma sudoMkdirP_makes_missing_witness :
  exists s' log,
    cache.sudoMkdirP (libs := clean_libs) (cache.traced machine) "/mnt/cache/go"
      ((["/mnt"], []), []) = (None, (s', log))
    /\ missing log = ["/mnt/cache"; "/mnt/cache/go"]
    /\ exists made, map fst made = missing log /\ commands log = provision made.
Proof.
  assert (Hrun : exists s' log,
             cache.sudoMkdirP (libs := clean_libs) (cache.traced machine) "/mnt/cache/go"
               ((["/mnt"], []), []) = (None, (s', log))
             /\ missing log = ["/mnt/cache"; "/mnt/cache/go"])
    by (eexists _, _; split; vm_compute; reflexivity).
  destruct Hrun as (s' & log & Hrun & Hmissing).
  exists s', log. split; [exact Hrun|]. split; [exact Hmissing|].
  exact (proj2 (proj2 (sudoMkdirP_makes_missing (libs := clean_libs) machine
                         "/mnt/cache/go" _ s' log Hrun))).
Defined.

(** Witness of [Mount_bind_calls]: the target /work/cache is a regular
    file of the directory /work. *)
Lemma Mount_bind_calls_witness :
  exists s' log,
    cache.DefaultExecutor_Mount (libs := clean_libs) (cache.traced machine) false
      "/cache/go" "/work/cache" ((["/work"], ["/work/cache"]), []) = (None, (s', log))
    /\ commands log
       = [["sudo"; "rm"; "-rf"; "/work/cache"]; ["sudo"; "mkdir"; "/work/cache"];
          ["sudo"; "chown"; "1000:1000"; "/work/cache"];
          ["sudo"; "mount"; "--bind"; "/cache/go"; "/work/cache"]]
    /\ exists entries info err rest,
         log = cache.OsReadDir "/work/cache" entries :: cache.OsMkdirAll "/cache/go" 493 None
               :: cache.OsLstat "/work/cache" info err :: rest.
Proof.
  assert (Hrun : exists s' log,
             cache.DefaultExecutor_Mount (libs := clean_libs) (cache.traced machine) false
               "/cache/go" "/work/cache" ((["/work"], ["/work/cache"]), [])
               = (None, (s', log))
             /\ commands log
                = [["sudo"; "rm"; "-rf"; "/work/cache"]; ["sudo"; "mkdir"; "/work/cache"];
                   ["sudo"; "chown"; "1000:1000"; "/work/cache"];
                   ["sudo"; "mount"; "--bind"; "/cache/go"; "/work/cache"]])
    by (eexists _, _; split; vm_compute; reflexivity).
  destruct Hrun as (s' & log & Hrun & Hcommands).
  destruct (Mount_bind_calls (libs := clean_libs) machine "/cache/go" "/work/cache"
              _ s' log Hrun) as (entries & info & err & rest & Hlog & _).
  exists s', log. split; [exact Hrun|]. split; [exact Hcommands|].
  by exists entries, info, err, rest.
Defined.

(** Witness of [Mount_symlink_calls]: the same target on a machine without
    the directory /work. *)
Lemma Mount_symlink_calls_witness :
  exists s' log,
    cache.DefaultExecutor_Mount (libs := clean_libs) (cache.traced machine) true
      "/cache/go" "/work/cache" (([], []), []) = (None, (s', log))
    /\ commands log
       = [["sudo"; "mkdir"; "/work"]; ["sudo"; "chown"; "1000:1000"; "/work"];
          ["sudo"; "rm"; "-rf"; "/work/cache"];
          ["sudo"; "ln"; "-sfn"; "/cache/go"; "/work/cache"];
          ["sudo"; "chown"; "1000:1000"; "/work/cache"]]
    /\ map fst (stats log) = ["/work"].
Proof.
  assert (Hrun : exists s' log,
             cache.DefaultExecutor_Mount (libs := clean_libs) (cache.traced machine) true
               "/cache/go" "/work/cache" (([], []), []) = (None, (s', log))
             /\ commands log
                = [["sudo"; "mkdir"; "/work"]; ["sudo"; "chown"; "1000:1000"; "/work"];
                   ["sudo"; "rm"; "-rf"; "/work/cache"];
                   ["sudo"; "ln"; "-sfn"; "/cache/go"; "/work/cache"];
                   ["sudo"; "chown"; "1000:1000"; "/work/cache"]])
    by (eexists _, _; split; vm_compute; reflexivity).
  destruct Hrun as (s' & log & Hrun & Hcommands).
  destruct (Mount_symlink_calls (libs := clean_libs) machine "/cache/go" "/work/cache"
              _ s' log Hrun) as (entries & rest & _ & Hstats & _).
  exists s', log. split; [exact Hrun|]. split; [exact Hcommands|].
  rewrite Hstats. vm_compute. reflexivity.
Defined.

(** * The apt provider *)

Section Apt.
Context {libs : Libs} {dec : Decoders}.

Lemma apt_scan_cons (text : string) (rest : list string) (m : gmap string string) :
  mode.apt_scan (text :: rest) m
  = mode.apt_scan rest (match apt_line text with
                        | Some (key, value) => <[key := value]> m
                        | None => m
                        end).
Proof.
  cbn [mode.apt_scan]. unfold apt_line.
  destruct (String.eqb (strings_TrimSpace text) EmptyString); [reflexivity|].
  destruct (aptConfigRegex_FindStringSubmatch (strings_TrimSpace text))
    as [|whole [|key [|value [|more result]]]]; try reflexivity.
  destruct (String.eqb key mode.aptDirCacheKey || String.eqb key mode.aptDirCacheArchivesKey
            || String.eqb key mode.aptDirEtcKey || String.eqb key mode.aptDirEtcPartsKey);
    reflexivity.
Qed.

Lemma last_setting_nil (key value : string) : ~ last_setting [] key value.
Proof. intros (before & text & after & H & _). by destruct before. Qed.

Lemma last_setting_cons (text : string) (rest : list string) (key value : string) :
  last_setting (text :: rest) key value
  <-> last_setting rest key value
      \/ (apt_line text = Some (key, value)
          /\ Forall (fun t => forall v, apt_line t <> Some (key, v)) rest).
Proof.
  split.
  - intros (before & text' & after & Heq & Hline & Hafter).
    destruct before as [|b before]; cbn [app] in Heq; injection Heq as -> ->.
    + right. done.
    + left. by exists before, text', after.
  - intros [(before & text' & after & -> & Hline & Hafter)|[Hline Hafter]].
    + by exists (text :: before), text', after.
    + by exists [], text, rest.
Qed.

Lemma apt_scan_lookup (lines : list string) :
  forall (m : gmap string string) (key value : string),
    mode.apt_scan lines m !! key = Some value
    <-> last_setting lines key value
        \/ (Forall (fun t => forall v, apt_line t <> Some (key, v)) lines
            /\ m !! key = Some value).
Proof.
  induction lines as [|text rest IH]; intros m key value.
  - cbn [mode.apt_scan]. split.
    + intros H. right. by split.
    + intros [H|[_ H]]; [by apply last_setting_nil in H|exact H].
  - rewrite apt_scan_cons, IH, last_setting_cons.
    destruct (apt_line text) as [[k v]|] eqn:Hline.
    + destruct (decide (k = key)) as [->|Hne].
      * rewrite lookup_insert_eq. split.
        -- intros [H|[Hrest [= <-]]]; [by left; left|]. left. right. done.
        -- intros [[H|[[= <-] Hrest]]|[Hall _]]; [by left|by right|].
           apply List.Forall_cons_iff in Hall. destruct Hall as [Hno _].
           by destruct (Hno v).
      * rewrite lookup_insert_ne by exact Hne. split.
        -- intros [H|[Hrest Hm]]; [by left; left|]. right. split; [|exact Hm].
           constructor; [|exact Hrest]. intros v' Hv. rewrite Hline in Hv.
           injection Hv as ? ?. by apply Hne.
        -- intros [[H|[[= ? ?] _]]|[Hall Hm]]; [by left|by destruct Hne|].
           apply List.Forall_cons_iff in Hall. right. split; [apply Hall|exact Hm].
    + split.
      * intros [H|[Hrest Hm]]; [by left; left|]. right. split; [|exact Hm].
        constructor; [|exact Hrest]. intros v' Hv. rewrite Hline in Hv. discriminate.
      * intros [[H|[[=] _]]|[Hall Hm]]; [by left|].
        apply List.Forall_cons_iff in Hall. right. split; [apply Hall|exact Hm].
Qed.

Lemma apt_scan_empty (lines : list string) (key value : string) :
  mode.apt_scan lines ∅ !! key = Some value <-> last_setting lines key value.
Proof.
  rewrite apt_scan_lookup. split; [|by left].
  intros [H|[_ H]]; [exact H|]. by rewrite lookup_empty in H.
Qed.

Lemma apt_line_key (text key value : string) :
  apt_line text = Some (key, value) ->
  In key [mode.aptDirCacheKey; mode.aptDirCacheArchivesKey; mode.aptDirEtcKey;
          mode.aptDirEtcPartsKey]
  /\ strings_TrimSpace text <> EmptyString
  /\ exists whole,
       aptConfigRegex_FindStringSubmatch (strings_TrimSpace text) = [whole; key; value].
Proof.
  unfold apt_line.
  destruct (String.eqb (strings_TrimSpace text) EmptyString) eqn:He; [discriminate|].
  apply String.eqb_neq in He.
  destruct (aptConfigRegex_FindStringSubmatch (strings_TrimSpace text))
    as [|whole [|k [|v [|more result]]]]; try discriminate.
  destruct (String.eqb k mode.aptDirCacheKey) eqn:H1;
    [|destruct (String.eqb k mode.aptDirCacheArchivesKey) eqn:H2;
      [|destruct (String.eqb k mode.aptDirEtcKey) eqn:H3;
        [|destruct (String.eqb k mode.aptDirEtcPartsKey) eqn:H4]]];
    cbn [orb]; try discriminate; intros [= <- <-];
    (split; [|split; [exact He|by exists whole]]).
  - apply String.eqb_eq in H1. by left.
  - apply String.eqb_eq in H2. right. by left.
  - apply String.eqb_eq in H3. right. right. by left.
  - apply String.eqb_eq in H4. right. right. right. by left.
Qed.

(** X27. What the apt provider keeps of the output of apt-config dump. The
    map the loop fills holds a value for a key exactly when some line gives
    a setting of that key, and the value is that of the last such line; a
    line gives a setting only if it is not blank, the pattern matches it
    with two groups, and the key is one of Dir::Cache,
    Dir::Cache::archives, Dir::Etc and Dir::Etc::parts, so the map never
    holds another key. *)
Theorem apt_scan_last_setting :
  forall (lines : list string) (key value : string),
    (mode.apt_scan lines ∅ !! key = Some value <-> last_setting lines key value)
    /\ (last_setting lines key value ->
        In key [mode.aptDirCacheKey; mode.aptDirCacheArchivesKey; mode.aptDirEtcKey;
                mode.aptDirEtcPartsKey]
        /\ exists text whole,
             In text lines /\ strings_TrimSpace text <> EmptyString
             /\ aptConfigRegex_FindStringSubmatch (strings_TrimSpace text)
                = [whole; key; value]).
Proof.
  intros lines key value. split; [apply apt_scan_empty|].
  intros (before & text & after & -> & Hline & _).
  destruct (apt_line_key _ _ _ Hline) as (Hkey & Hne & whole & Hre).
  split; [exact Hkey|]. exists text, whole.
  split; [apply List.in_or_app; right; by left|]. done.
Qed.

Section Plan.
Context {S : Type} (Exec : mode.Executor S).

(** X28. The plan of the apt provider. A plan returned without an error
    sets no variable and mounts one path, built of the last settings of
    Dir::Cache and Dir::Cache::archives in the output of apt-config dump.
    It removes nothing, or the single path of the docker-clean script,
    built of the last settings of Dir::Etc and Dir::Etc::parts; the
    latter only when neither is empty and the stat of that path returned
    no error. *)
Theorem Apt_plan_paths :
  forall (s s' : S) (plan : mode.PlanResult),
    mode.AptProvider_Plan Exec s = ((plan, None), s') ->
    exists output s1 lines cache archives,
      mode.Output Exec ["apt-config"; "dump"] s = ((output, None), s1)
      /\ bufio_Scan output = (lines, None)
      /\ last_setting lines "Dir::Cache" cache
      /\ last_setting lines "Dir::Cache::archives" archives
      /\ mode.MountPaths plan = [("/" ++ cache ++ "/" ++ archives)%string]
      /\ mode.AddEnvs plan = ∅
      /\ (mode.RemovePaths plan = []
          \/ exists etc parts,
               last_setting lines "Dir::Etc" etc
               /\ last_setting lines "Dir::Etc::parts" parts
               /\ etc <> EmptyString /\ parts <> EmptyString
               /\ mode.RemovePaths plan
                  = [("/" ++ etc ++ "/" ++ parts ++ "/docker-clean")%string]
               /\ mode.Stat Exec ("/" ++ etc ++ "/" ++ parts ++ "/docker-clean") s1
                  = (None, s')).
Proof.
  intros s s' plan Hrun. unfold mode.AptProvider_Plan, bind, ret in Hrun.
  destruct (mode.Output Exec ["apt-config"; "dump"] s) as [[output [e|]] s1] eqn:Ho;
    [discriminate|].
  destruct (bufio_Scan output) as [lines [e|]] eqn:Hscan; [discriminate|].
  destruct (mode.apt_scan lines ∅ !! mode.aptDirCacheKey) as [cache|] eqn:Hc;
    [|discriminate].
  destruct (mode.apt_scan lines ∅ !! mode.aptDirCacheArchivesKey) as [archives|] eqn:Ha;
    [|discriminate].
  apply apt_scan_empty in Hc, Ha.
  exists output, s1, lines, cache, archives.
  do 4 (split; [done|]).
  match goal with
  | |- ?G =>
      assert (Hnone : forall s0,
                ({| mode.AddEnvs := ∅;
                    mode.MountPaths := [("/" ++ cache ++ "/" ++ archives)%string];
                    mode.RemovePaths := [] |}, @None error, s0) = (plan, None, s') -> G)
  end.
  { intros s0 [= <- <-]. do 2 (split; [done|]). by left. }
  destruct (mode.apt_scan lines ∅ !! mode.aptDirEtcKey) as [etc|] eqn:He;
    cbn [default id] in Hrun; [|cbn [String.eqb negb andb] in Hrun; by eapply Hnone].
  destruct (mode.apt_scan lines ∅ !! mode.aptDirEtcPartsKey) as [parts|] eqn:Hp;
    cbn [default id] in Hrun;
    [|rewrite String.eqb_refl, andb_false_r in Hrun; by eapply Hnone].
  destruct (String.eqb etc EmptyString) eqn:Hee; cbn [negb andb] in Hrun;
    [by eapply Hnone|].
  destruct (String.eqb parts EmptyString) eqn:Hpe; cbn [negb andb] in Hrun;
    [by eapply Hnone|].
  apply String.eqb_neq in Hee, Hpe. apply apt_scan_empty in He, Hp.
  destruct (mode.Stat Exec ("/" ++ etc ++ "/" ++ parts ++ "/docker-clean") s1)
    as [[e|] s2] eqn:Hstat.
  - destruct (errors_Is e os_ErrNotExist); cbn [negb] in Hrun;
      [by eapply Hnone|discriminate].
  - injection Hrun as <- <-. do 2 (split; [done|]). right. exists etc, parts. done.
Qed.

End Plan.
End Apt.

(** Witness of [Apt_plan_paths]: the sample machine, where Dir::Cache is set
    twice and the docker-clean script is there. *)
Lemma Apt_plan_paths_witness :
  exists plan,
    mode.AptProvider_Plan (dec := apt_decoders) apt_exec tt = ((plan, None), tt)
    /\ mode.MountPaths plan = ["/tmp/apt/archives"]
    /\ mode.RemovePaths plan = ["/etc/apt/apt.conf.d/docker-clean"]
    /\ exists lines cache,
         last_setting (dec := apt_decoders) lines "Dir::Cache" cache
         /\ bufio_Scan apt_dump = (lines, None).
Proof.
  assert (Hrun : exists plan,
             mode.AptProvider_Plan (dec := apt_decoders) apt_exec tt = ((plan, None), tt)
             /\ mode.MountPaths plan = ["/tmp/apt/archives"]
             /\ mode.RemovePaths plan = ["/etc/apt/apt.conf.d/docker-clean"])
    by (eexists; split; [|split]; vm_compute; reflexivity).
  destruct Hrun as (plan & Hrun & Hmount & Hremove).
  destruct (Apt_plan_paths (dec := apt_decoders) apt_exec tt tt plan Hrun)
    as (output & s1 & lines & cache & archives & Ho & Hscan & Hc & _).
  exists plan. split; [exact Hrun|]. split; [exact Hmount|]. split; [exact Hremove|].
  exists lines, cache. split; [exact Hc|].
  assert (Hdump : mode.Output apt_exec ["apt-config"; "dump"] tt = ((apt_dump, None), tt))
    by (vm_compute; reflexivity).
  rewrite Hdump in Ho. injection Ho as <- _. exact Hscan.
Defined.
